(** * Post resource lifecycle: validation, admission, assets and records

    A shallow embedding of the blog-post API
    ([routes/posts.js], [middleware/validate.js], [middleware/validators.js],
    [middleware/rateLimiter.js], [config/cloudinary.js], [models/Post.js] and
    the route mounts of [api/index.js]) together with the properties of the
    post lifecycle that are checked against it.

    JavaScript strings are modelled as [string] (ASCII), objects used as
    dictionaries as [gmap string _], the document collection as a
    [gmap] from identifier to document and the remote blob store as a
    [gset] of public ids.  Counts and page numbers are integers.

    The embedding starts at the route mounts of [api/index.js]: of the
    middleware in front of them (security headers, logging, the database
    connection) only the body parsers are part of [app]; the database
    connection is modelled on its own, as [server] in front of [app].  The
    libraries the code calls (mongoose, cloudinary, multer,
    express-validator, express-rate-limit) are modelled by what they do to
    the stores, with their failures given by the world. *)

From Stdlib Require Import ZArith QArith Qround Ascii String Sorted.
From stdpp Require Import gmap strings list fin_maps.

Close Scope Q_scope.
Open Scope string_scope.

(** ** JavaScript string helpers *)

Module Js.

(** [\s] restricted to ASCII: space, tab, line feed, vertical tab, form
    feed and carriage return. *)
Definition is_space (c : ascii) : bool :=
  let n := nat_of_ascii c in
  Nat.eqb n 32 || (Nat.leb 9 n && Nat.leb n 13).

Fixpoint ltrim (s : string) : string :=
  match s with
  | String c s' => if is_space c then ltrim s' else s
  | EmptyString => EmptyString
  end.

Definition rtrim (s : string) : string := String.rev (ltrim (String.rev s)).

(** [validator.trim(str)] with no character set: [rtrim(ltrim(str))]. *)
Definition trim (s : string) : string := rtrim (ltrim s).

(** [c.toLowerCase()] on ASCII. *)
Definition lower (c : ascii) : ascii :=
  let n := nat_of_ascii c in
  if Nat.leb 65 n && Nat.leb n 90 then ascii_of_nat (n + 32) else c.

Fixpoint toLowerCase (s : string) : string :=
  match s with
  | String c s' => String (lower c) (toLowerCase s')
  | EmptyString => EmptyString
  end.

(** [s.startsWith(p)] *)
Fixpoint startsWith (p s : string) : bool :=
  match p, s with
  | EmptyString, _ => true
  | String a p', String b s' => bool_decide (a = b) && startsWith p' s'
  | String _ _, EmptyString => false
  end.

(** [s.includes(p)] *)
Fixpoint includes (p s : string) : bool :=
  startsWith p s ||
  match s with
  | String _ s' => includes p s'
  | EmptyString => false
  end.

(** [s.split(sep)] for a one-character separator: the pieces between the
    occurrences of [sep], never an empty array. *)
Fixpoint split_go (sep : ascii) (cur : string) (s : string) : list string :=
  match s with
  | EmptyString => [String.rev cur]
  | String c s' =>
      if bool_decide (c = sep) then String.rev cur :: split_go sep EmptyString s'
      else split_go sep (String c cur) s'
  end.

Definition split (sep : ascii) (s : string) : list string :=
  split_go sep EmptyString s.

(** Truthiness of a string value: [""] is falsy. *)
Definition truthy (s : string) : bool :=
  match s with EmptyString => false | _ => true end.

(** Truthiness of a possibly [undefined] string. *)
Definition truthy_opt (o : option string) : bool :=
  match o with Some s => truthy s | None => false end.

End Js.

(** ** Data model *)

(** A stored document of the [Post] model ([models/Post.js]).  The
    identifier is the key under which the document is stored.  [image] is
    [None] when the path is absent from the document. *)
Record Post := mkPost {
  heading : string;
  description : string;
  image : option string;
  createdAt : Z;
  updatedAt : Z
}.

(** The image part of a multipart body, with the values the environment
    picks while it is stored: [Date.now()] and [Math.random() * 1E9] of the
    [public_id] callback (as decimal strings) and the delivered format. *)
Record ImagePart := mkImagePart {
  originalname : string;
  mimetype : string;
  size : Z;
  stamp : string;
  random : string;
  format : string
}.

(** What a request carries as its body. *)
Inductive Payload :=
| NoBody
| Parsed (fields : gmap string string)
| Multipart (fields : gmap string string) (part : option ImagePart).

(** [req.file] as multer leaves it: [path] is the URL of the stored blob. *)
Record StoredFile := mkStoredFile { path : string }.

Inductive Route :=
| GetPosts | GetPostById | PostPost | PutPost | DeletePost | AuthRoutes.

(** One entry of [validationResult(req).array()]. *)
Record FieldError := mkFieldError { err_path : string; err_msg : string }.

Record Req := mkReq {
  route : Route;
  ip : string;
  identity : option string;
  params : gmap string string;
  query : gmap string string;
  payload : Payload;
  body : gmap string string;
  file : option StoredFile;
  errors : list FieldError;
  objectId : string;
  now : Z
}.

Definition set_body (b : gmap string string) (r : Req) : Req :=
  mkReq (route r) (ip r) (identity r) (params r) (query r) (payload r) b
        (file r) (errors r) (objectId r) (now r).
Definition set_query (q : gmap string string) (r : Req) : Req :=
  mkReq (route r) (ip r) (identity r) (params r) q (payload r) (body r)
        (file r) (errors r) (objectId r) (now r).
Definition set_params (p : gmap string string) (r : Req) : Req :=
  mkReq (route r) (ip r) (identity r) p (query r) (payload r) (body r)
        (file r) (errors r) (objectId r) (now r).
Definition set_file (f : option StoredFile) (r : Req) : Req :=
  mkReq (route r) (ip r) (identity r) (params r) (query r) (payload r) (body r)
        f (errors r) (objectId r) (now r).
Definition set_errors (e : list FieldError) (r : Req) : Req :=
  mkReq (route r) (ip r) (identity r) (params r) (query r) (payload r) (body r)
        (file r) e (objectId r) (now r).

(** Calls that leave the process, in the order they are made. *)
Inductive Event :=
| EvFind | EvCountDocuments
| EvFindById (id : string)
| EvSave (id : string)
| EvFindByIdAndUpdate (id : string)
| EvFindByIdAndDelete (id : string)
| EvUpload (public_id : string)
| EvDestroy (public_id : string)
| EvConsoleLog (msg : string)
| EvConsoleError (msg : string).

Global Instance Event_eq_dec : EqDecision Event.
Proof. solve_decision. Defined.

(** The three admission classes of [middleware/rateLimiter.js]. *)
Inductive Class := General | Authentication | Upload.

Global Instance Class_eq_dec : EqDecision Class.
Proof. solve_decision. Defined.

(** The state outside a request: the Record Store, the Asset Store, the
    hit counters of the three limiters, the trace of outside calls, and for
    each store the outcomes of its coming calls ([true]: the call fails). *)
Record World := mkWorld {
  posts : gmap string Post;
  assets : gset string;
  api_hits : gmap string nat;
  auth_hits : gmap string nat;
  upload_hits : gmap string nat;
  trace : list Event;
  db_faults : list bool;
  cdn_faults : list bool
}.

Definition set_posts (p : gmap string Post) (w : World) : World :=
  mkWorld p (assets w) (api_hits w) (auth_hits w) (upload_hits w) (trace w)
          (db_faults w) (cdn_faults w).
Definition set_assets (a : gset string) (w : World) : World :=
  mkWorld (posts w) a (api_hits w) (auth_hits w) (upload_hits w) (trace w)
          (db_faults w) (cdn_faults w).
Definition set_trace (t : list Event) (w : World) : World :=
  mkWorld (posts w) (assets w) (api_hits w) (auth_hits w) (upload_hits w) t
          (db_faults w) (cdn_faults w).
Definition set_db_faults (f : list bool) (w : World) : World :=
  mkWorld (posts w) (assets w) (api_hits w) (auth_hits w) (upload_hits w)
          (trace w) f (cdn_faults w).
Definition set_cdn_faults (f : list bool) (w : World) : World :=
  mkWorld (posts w) (assets w) (api_hits w) (auth_hits w) (upload_hits w)
          (trace w) (db_faults w) f.

Definition hits (c : Class) (w : World) : gmap string nat :=
  match c with
  | General => api_hits w
  | Authentication => auth_hits w
  | Upload => upload_hits w
  end.

Definition set_hits (c : Class) (h : gmap string nat) (w : World) : World :=
  match c with
  | General =>
      mkWorld (posts w) (assets w) h (auth_hits w) (upload_hits w) (trace w)
              (db_faults w) (cdn_faults w)
  | Authentication =>
      mkWorld (posts w) (assets w) (api_hits w) h (upload_hits w) (trace w)
              (db_faults w) (cdn_faults w)
  | Upload =>
      mkWorld (posts w) (assets w) (api_hits w) (auth_hits w) h (trace w)
              (db_faults w) (cdn_faults w)
  end.

(** ** Exceptions and the state monad of the handlers *)

(** A thrown value: its [name], its [message] and its numeric [code] when
    it has one. *)
Record Error := mkError {
  name : string;
  message : string;
  code : option Z
}.

Inductive Result (A : Type) :=
| Ok (a : A)
| Thrown (e : Error).
Arguments Ok {A} a.
Arguments Thrown {A} e.

Definition M (A : Type) : Type := World -> Result A * World.

Definition ret {A} (a : A) : M A := fun w => (Ok a, w).

Definition bind {A B} (m : M A) (k : A -> M B) : M B :=
  fun w =>
    match m w with
    | (Ok a, w') => k a w'
    | (Thrown e, w') => (Thrown e, w')
    end.

Definition throw {A} (e : Error) : M A := fun w => (Thrown e, w).

(** [try { body } catch (error) { handler }] *)
Definition try_catch {A} (m : M A) (h : Error -> M A) : M A :=
  fun w =>
    match m w with
    | (Ok a, w') => (Ok a, w')
    | (Thrown e, w') => h e w'
    end.

Definition when (b : bool) (m : M unit) : M unit :=
  if b then m else ret tt.

Declare Scope js_scope.
Delimit Scope js_scope with js.
Notation "'let!' x ':=' m 'in' k" := (bind m (fun x => k))
  (at level 10, x name, m at level 100, k at level 200) : js_scope.
Notation "'do!' m 'in' k" := (bind m (fun _ => k))
  (at level 10, m at level 100, k at level 200) : js_scope.
Open Scope js_scope.

Definition emit (e : Event) : M unit :=
  fun w => (Ok tt, set_trace (trace w ++ [e])%list w).

(** ** Responses and the middleware pipeline *)

(** The [pagination] object of the list response. *)
Record Pagination := mkPagination {
  totalPages : Z;
  currentPage : Z;
  totalPosts : Z;
  limit : Z;
  hasMore : bool
}.

(** JSON bodies of the responses, one constructor per shape. *)
Inductive Json :=
| JPosts (items : list (string * Post)) (pagination : Pagination)
| JPost (post : option (string * Post))
| JPostMessage (msg : string) (post : option (string * Post))
| JMessage (success : bool) (msg : string)
| JValidation (msg : string) (errs : list (string * list string))
| JError (msg : string) (error : string)
| JText (msg : string)
| JDelegated.

Record Response := mkResponse { status : nat; json : Json }.

(** What a middleware does with a request: [next()], [next(err)], or a
    response that ends the pipeline. *)
Inductive Flow :=
| Next (r : Req)
| NextErr (e : Error)
| Respond (resp : Response).

Definition Middleware : Type := Req -> World -> Flow * World.

(** The final error-handling middleware of [api/index.js]: an error with
    no [status] is answered with 500 and its message. *)
Definition errorHandler (e : Error) : Response :=
  if bool_decide (name e = "ValidationError")
  then mkResponse 400 (JError "Validation Error" (message e))
  else if bool_decide (name e = "JsonWebTokenError")
  then mkResponse 401 (JText "Invalid token")
  else if bool_decide (name e = "TokenExpiredError")
  then mkResponse 401 (JText "Token expired")
  else if bool_decide (code e = Some 11000%Z)
  then mkResponse 400 (JText "Duplicate field value entered")
  else mkResponse 500 (JText (if Js.truthy (message e) then message e
                              else "Internal server error")).

(** Runs the middlewares of a route in order. *)
Fixpoint pipeline (ms : list Middleware) (r : Req) (w : World)
  : Response * World :=
  match ms with
  | [] => (mkResponse 404 (JText "Route not found"), w)
  | m :: rest =>
      match m r w with
      | (Next r', w') => pipeline rest r' w'
      | (NextErr e, w') => (errorHandler e, w')
      | (Respond resp, w') => (resp, w')
      end
  end.

(** ** Validation layer ([express-validator] chains and [validate.js]) *)

Module Chain.

Inductive Location := InBody | InParam | InQuery.

Inductive Item :=
| trim
| optional
| notEmpty (msg : string)
| isLength (min : nat) (max : option nat) (msg : string)
| isInt (min : Z) (max : option Z) (msg : string)
| isMongoId (msg : string).

Record t := mk { location : Location; field : string; items : list Item }.

Definition is_digit (c : ascii) : bool :=
  let n := nat_of_ascii c in Nat.leb 48 n && Nat.leb n 57.

Definition is_hex (c : ascii) : bool :=
  let n := nat_of_ascii c in
  is_digit c || (Nat.leb 65 n && Nat.leb n 70) || (Nat.leb 97 n && Nat.leb n 102).

Fixpoint all_chars (p : ascii -> bool) (s : string) : bool :=
  match s with
  | String c s' => p c && all_chars p s'
  | EmptyString => true
  end.

(** Value of a non-empty string of decimal digits. *)
Fixpoint digits_value (acc : Z) (s : string) : Z :=
  match s with
  | String c s' => digits_value (10 * acc + Z.of_nat (nat_of_ascii c - 48)) s'
  | EmptyString => acc
  end.

(** [Number(str)] on the strings that match [/^[-+]?[0-9]+$/]; [None] on
    the others. *)
Definition int_of_string (s : string) : option Z :=
  let unsigned (d : string) :=
    if Js.truthy d && all_chars is_digit d then Some (digits_value 0 d) else None in
  match s with
  | String "-" d => Z.opp <$> unsigned d
  | String "+" d => unsigned d
  | _ => unsigned s
  end.

(** [validator.isInt(str, { min, max })] *)
Definition is_int (min : Z) (max : option Z) (s : string) : bool :=
  match int_of_string s with
  | Some n =>
      Z.leb min n && match max with Some m => Z.leb n m | None => true end
  | None => false
  end.

(** [validator.isLength(str, { min, max })] *)
Definition is_length (min : nat) (max : option nat) (s : string) : bool :=
  let len := String.length s in
  Nat.leb min len && match max with Some m => Nat.leb len m | None => true end.

(** [validator.isHexadecimal]: [/^(0x|0h)?[0-9A-F]+$/i] *)
Definition is_hexadecimal (s : string) : bool :=
  let digits (d : string) := Js.truthy d && all_chars is_hex d in
  digits s ||
  match s with
  | String "0" (String c d) =>
      (bool_decide (c = "x"%char) || bool_decide (c = "h"%char)
       || bool_decide (c = "X"%char) || bool_decide (c = "H"%char)) && digits d
  | _ => false
  end.

(** [validator.isMongoId]: hexadecimal and of length 24 *)
Definition is_mongo_id (s : string) : bool :=
  is_hexadecimal s && Nat.eqb (String.length s) 24.

Definition has_optional (c : t) : bool :=
  existsb (fun i => match i with optional => true | _ => false end) (items c).

(** Runs the items of a chain on a value: the sanitised value and the
    messages of the validators that failed, in chain order. *)
Fixpoint run_items (its : list Item) (v : string) : string * list string :=
  let failing (ok : bool) (msg : string) (rest : list Item) :=
    let '(v', es) := run_items rest v in
    (v', if ok then es else msg :: es) in
  match its with
  | [] => (v, [])
  | trim :: rest => run_items rest (Js.trim v)
  | optional :: rest => run_items rest v
  | notEmpty msg :: rest => failing (Js.truthy v) msg rest
  | isLength min max msg :: rest => failing (is_length min max v) msg rest
  | isInt min max msg :: rest => failing (is_int min max v) msg rest
  | isMongoId msg :: rest => failing (is_mongo_id v) msg rest
  end.

Definition get (l : Location) (f : string) (r : Req) : option string :=
  match l with
  | InBody => body r !! f
  | InParam => params r !! f
  | InQuery => query r !! f
  end.

Definition set (l : Location) (f : string) (v : string) (r : Req) : Req :=
  match l with
  | InBody => set_body (<[f := v]> (body r)) r
  | InParam => set_params (<[f := v]> (params r)) r
  | InQuery => set_query (<[f := v]> (query r)) r
  end.

(** Runs one chain as a middleware step.  A chain marked [optional] is
    skipped when the field is [undefined]; otherwise the field is read as
    a string ([undefined] as the empty string), a sanitised value that
    differs from the request's is written back, and the failures are
    added to the request's validation errors. *)
Definition run (c : t) (r : Req) : Req :=
  let o := get (location c) (field c) r in
  if has_optional c && bool_decide (o = None) then r
  else
    let '(v, es) := run_items (items c) (default "" o) in
    let r' := if bool_decide (o = Some v) then r
              else set (location c) (field c) v r in
    set_errors (errors r' ++ map (mkFieldError (field c)) es)%list r'.

Definition run_all (cs : list t) (r : Req) : Req :=
  fold_left (fun r c => run c r) cs r.

Definition body := mk InBody.
Definition param := mk InParam.
Definition query := mk InQuery.

End Chain.

(** [middleware/validators.js] *)
Module postValidators.

Import Chain.

Definition create : list Chain.t :=
  [ body "heading"
      [ trim;
        notEmpty "Heading is required";
        isLength 3 (Some 200) "Heading must be between 3 and 200 characters" ];
    body "description"
      [ trim;
        notEmpty "Description is required";
        isLength 10 None "Description must be at least 10 characters" ] ].

Definition update : list Chain.t :=
  [ param "id" [ isMongoId "Invalid post ID" ];
    body "heading"
      [ optional; trim;
        isLength 3 (Some 200) "Heading must be between 3 and 200 characters" ];
    body "description"
      [ optional; trim;
        isLength 10 None "Description must be at least 10 characters" ] ].

Definition getById : list Chain.t :=
  [ param "id" [ isMongoId "Invalid post ID" ] ].

Definition delete : list Chain.t :=
  [ param "id" [ isMongoId "Invalid post ID" ] ].

Definition list : list Chain.t :=
  [ query "page" [ optional; isInt 1%Z None "Page must be a positive integer" ];
    query "limit" [ optional; isInt 1%Z (Some 100%Z) "Limit must be between 1 and 100" ];
    query "search" [ optional; trim; isLength 0 (Some 100) "Search query too long" ] ].

End postValidators.

(** [formattedErrors[path].push(msg)], creating the array on first use.
    The object is kept as the list of its entries in insertion order. *)
Fixpoint push_error (path msg : string) (acc : list (string * list string))
  : list (string * list string) :=
  match acc with
  | [] => [(path, [msg])]
  | (k, ms) :: rest =>
      if bool_decide (k = path) then (k, (ms ++ [msg])%list) :: rest
      else (k, ms) :: push_error path msg rest
  end.

Definition formattedErrors (errs : list FieldError) : list (string * list string) :=
  fold_left (fun acc e => push_error (err_path e) (err_msg e) acc) errs [].

(** [middleware/validate.js] *)
Definition validate : Middleware :=
  fun r w =>
    match errors r with
    | [] => (Next r, w)
    | _ :: _ =>
        (Respond (mkResponse 400 (JValidation "Validation failed"
                                    (formattedErrors (errors r)))), w)
    end.

(** A list of validation chains used as middleware. *)
Definition validators (cs : list Chain.t) : Middleware :=
  fun r w => (Next (Chain.run_all cs r), w).

(** ** Record Store adapter (the [Post] model of [models/Post.js]) *)

(** The regular expressions of [$regex], for the patterns made of literal
    characters and [.] only; a pattern that uses any other syntax is outside
    of what is modelled ([parse] gives [None]). *)
Module Regex.

Inductive atom := Lit (c : ascii) | AnyChar.

Definition metachars : string := "\^$.|?*+()[]{}".

Definition is_meta (c : ascii) : bool :=
  Js.includes (String c EmptyString) metachars.

Fixpoint parse (s : string) : option (list atom) :=
  match s with
  | EmptyString => Some []
  | String c s' =>
      if bool_decide (c = "."%char) then cons AnyChar <$> parse s'
      else if is_meta c || Nat.leb 128 (nat_of_ascii c) then None
      else cons (Lit c) <$> parse s'
  end.

Definition atom_matches (icase : bool) (a : atom) (c : ascii) : bool :=
  match a with
  | Lit l => if icase then bool_decide (Js.lower l = Js.lower c)
             else bool_decide (l = c)
  | AnyChar => negb (bool_decide (c = "010"%char))
  end.

Fixpoint match_here (icase : bool) (re : list atom) (s : string) : bool :=
  match re, s with
  | [], _ => true
  | a :: re', String c s' => atom_matches icase a c && match_here icase re' s'
  | _ :: _, EmptyString => false
  end.

Fixpoint search (icase : bool) (re : list atom) (s : string) : bool :=
  match_here icase re s ||
  match s with
  | String _ s' => search icase re s'
  | EmptyString => false
  end.

(** [{ $regex: pattern, $options: options }] applied to a string. *)
Definition test (pattern options subject : string) : option bool :=
  match parse pattern with
  | Some re =>
      if bool_decide (options = "i") then Some (search true re subject)
      else if bool_decide (options = "") then Some (search false re subject)
      else None
  | None => None
  end.

End Regex.

(** A condition [{ path: { $regex, $options } }] of a query filter. *)
Record RegexCond := mkRegexCond {
  cond_path : string;
  cond_regex : string;
  cond_options : string
}.

(** A query filter: [{}] or [{ $or: [...] }]. *)
Record Filter := mkFilter { filter_or : option (list RegexCond) }.

(** The fields of [postData] and [updateData]; [None] is an unset key. *)
Record PostData := mkPostData {
  data_heading : option string;
  data_description : option string;
  data_image : option string
}.

Module Mongoose.

Definition networkError : Error :=
  mkError "MongoNetworkError" "connection to the record store failed" None.
Definition castError : Error :=
  mkError "CastError" "Cast to ObjectId failed" None.
Definition validationError : Error :=
  mkError "ValidationError" "Post validation failed" None.
Definition duplicateKey : Error :=
  mkError "MongoServerError" "E11000 duplicate key error" (Some 11000%Z).
Definition unmodelledRegex : Error :=
  mkError "UnmodelledRegex" "pattern outside the modelled syntax" None.

(** A round trip to the store: recorded in the trace, and failing when
    the store's next outcome says so. *)
Definition call {A} (e : Event) (op : M A) : M A :=
  fun w =>
    let w1 := set_trace (trace w ++ [e])%list w in
    match db_faults w1 with
    | true :: fs => (Thrown networkError, set_db_faults fs w1)
    | false :: fs => op (set_db_faults fs w1)
    | [] => op w1
    end.

(** Casting a string of 24 characters to an ObjectId: it has to be
    hexadecimal digits; the identifier is kept in lower case. *)
Definition castObjectId (s : string) : option string :=
  if Nat.eqb (String.length s) 24 && Chain.all_chars Chain.is_hex s
  then Some (Js.toLowerCase s) else None.

(** Value of a path of a document as a string, for [$regex]. *)
Definition string_at (path_ : string) (p : Post) : option string :=
  if bool_decide (path_ = "heading") then Some (heading p)
  else if bool_decide (path_ = "description") then Some (description p)
  else if bool_decide (path_ = "image") then image p
  else None.

Definition cond_matches (c : RegexCond) (p : Post) : option bool :=
  match string_at (cond_path c) p with
  | Some s => Regex.test (cond_regex c) (cond_options c) s
  | None => const false <$> Regex.parse (cond_regex c)
  end.

Fixpoint or_matches (cs : list RegexCond) (p : Post) : option bool :=
  match cs with
  | [] => Some false
  | c :: cs' =>
      b ← cond_matches c p; bs ← or_matches cs' p; Some (b || bs)
  end.

(** Whether a document satisfies a filter; [None] when a pattern of the
    filter is outside the modelled syntax. *)
Definition matches (f : Filter) (p : Post) : option bool :=
  match filter_or f with
  | None => Some true
  | Some cs => or_matches cs p
  end.

(** The documents that satisfy a filter, in the store's own order. *)
Fixpoint select (f : Filter) (docs : list (string * Post))
  : option (list (string * Post)) :=
  match docs with
  | [] => Some []
  | d :: rest =>
      b ← matches f d.2; ds ← select f rest;
      Some (if b : bool then d :: ds else ds)
  end.

(** Comparison of two documents on one path of the schema; a path the
    documents do not have compares equal. *)
Definition compare_path (f : string) (a b : string * Post) : comparison :=
  if bool_decide (f = "_id") then String.compare a.1 b.1
  else if bool_decide (f = "heading") then String.compare (heading a.2) (heading b.2)
  else if bool_decide (f = "description")
  then String.compare (description a.2) (description b.2)
  else if bool_decide (f = "image") then
    match image a.2, image b.2 with
    | None, None => Eq
    | None, Some _ => Lt
    | Some _, None => Gt
    | Some x, Some y => String.compare x y
    end
  else if bool_decide (f = "createdAt") then Z.compare (createdAt a.2) (createdAt b.2)
  else if bool_decide (f = "updatedAt") then Z.compare (updatedAt a.2) (updatedAt b.2)
  else Eq.

(** A sort string: paths separated by spaces, [-] in front for
    descending order. *)
Definition sort_keys (s : string) : list (string * bool) :=
  map (fun k => match k with
                | String "-" f => (f, true)
                | _ => (k, false)
                end)
      (List.filter Js.truthy (Js.split " " s)).

Fixpoint compare_docs (keys : list (string * bool)) (a b : string * Post)
  : comparison :=
  match keys with
  | [] => Eq
  | (f, desc) :: ks =>
      match compare_path f a b with
      | Eq => compare_docs ks a b
      | c => if desc : bool then CompOpp c else c
      end
  end.

Fixpoint insert_doc (keys : list (string * bool)) (d : string * Post)
                    (l : list (string * Post)) : list (string * Post) :=
  match l with
  | [] => [d]
  | x :: xs =>
      match compare_docs keys d x with
      | Gt => x :: insert_doc keys d xs
      | _ => d :: l
      end
  end.

Definition sort_docs (keys : list (string * bool)) (l : list (string * Post))
  : list (string * Post) :=
  foldr (insert_doc keys) [] l.

(** [Post.find(filter).sort(sort).limit(limit).skip(skip).lean()] *)
Definition find (f : Filter) (sort : string) (limit skip : Z)
  : M (list (string * Post)) :=
  call EvFind (fun w =>
    match select f (map_to_list (posts w)) with
    | Some ds =>
        (Ok (take (Z.to_nat limit)
               (drop (Z.to_nat skip) (sort_docs (sort_keys sort) ds))), w)
    | None => (Thrown unmodelledRegex, w)
    end).

(** [Post.countDocuments(filter)] *)
Definition countDocuments (f : Filter) : M Z :=
  call EvCountDocuments (fun w =>
    match select f (map_to_list (posts w)) with
    | Some ds => (Ok (Z.of_nat (length ds)), w)
    | None => (Thrown unmodelledRegex, w)
    end).

(** [Post.findById(id)] *)
Definition findById (id : string) : M (option (string * Post)) :=
  match castObjectId id with
  | Some k => call (EvFindById k) (fun w => (Ok (pair k <$> posts w !! k), w))
  | None => throw castError
  end.

(** The schema's validators of [heading] ([required], [minlength: 3],
    [maxlength: 200]) and [description] ([required], [minlength: 10]). *)
Definition heading_ok (h : string) : bool :=
  Js.truthy h && Nat.leb 3 (String.length h) && Nat.leb (String.length h) 200.
Definition description_ok (d : string) : bool :=
  Js.truthy d && Nat.leb 10 (String.length d).

(** [new Post(postData)] followed by [post.save()]: the schema trims
    [heading] and [description], gives [image] its default [''] when it is
    not set, validates the document, stamps it and inserts it. *)
Definition save (id : string) (now : Z) (d : PostData) : M (string * Post) :=
  match Js.trim <$> data_heading d, Js.trim <$> data_description d with
  | Some h, Some ds =>
      if heading_ok h && description_ok ds then
        call (EvSave id) (fun w =>
          match posts w !! id with
          | Some _ => (Thrown duplicateKey, w)
          | None =>
              let p := mkPost h ds (Some (default "" (data_image d))) now now in
              (Ok (id, p), set_posts (<[id := p]> (posts w)) w)
          end)
      else throw validationError
  | _, _ => throw validationError
  end.

(** [$set] of the keys that [updateData] has, with [updatedAt]. *)
Definition apply_update (d : PostData) (now : Z) (p : Post) : Post :=
  mkPost (default (heading p) (Js.trim <$> data_heading d))
         (default (description p) (Js.trim <$> data_description d))
         (match data_image d with Some u => Some u | None => image p end)
         (createdAt p) now.

Definition update_ok (d : PostData) : bool :=
  default true (heading_ok <$> (Js.trim <$> data_heading d)) &&
  default true (description_ok <$> (Js.trim <$> data_description d)).

(** [Post.findByIdAndUpdate(id, updateData, { new: true, runValidators: true })] *)
Definition findByIdAndUpdate (id : string) (d : PostData) (now : Z)
  : M (option (string * Post)) :=
  match castObjectId id with
  | Some k =>
      if update_ok d then
        call (EvFindByIdAndUpdate k) (fun w =>
          match posts w !! k with
          | Some p =>
              let p' := apply_update d now p in
              (Ok (Some (k, p')), set_posts (<[k := p']> (posts w)) w)
          | None => (Ok None, w)
          end)
      else throw validationError
  | None => throw castError
  end.

(** [Post.findByIdAndDelete(id)] *)
Definition findByIdAndDelete (id : string) : M (option (string * Post)) :=
  match castObjectId id with
  | Some k =>
      call (EvFindByIdAndDelete k) (fun w =>
        (Ok (pair k <$> posts w !! k), set_posts (delete k (posts w)) w))
  | None => throw castError
  end.

End Mongoose.

(** ** Asset Store adapter ([config/cloudinary.js]) *)

Module Cloudinary.

Definition folder : string := "blog-uploads".

Definition networkError : Error :=
  mkError "Error" "request to the asset store failed" None.

(** A round trip to the asset store. *)
Definition call {A} (e : Event) (op : M A) : M A :=
  fun w =>
    let w1 := set_trace (trace w ++ [e])%list w in
    match cdn_faults w1 with
    | true :: fs => (Thrown networkError, set_cdn_faults fs w1)
    | false :: fs => op (set_cdn_faults fs w1)
    | [] => op w1
    end.

(** [cloudinary.uploader.destroy(publicId)]: removing a blob that is not
    there is answered with [not found], not with an error. *)
Definition destroy (publicId : string) : M unit :=
  call (EvDestroy publicId)
       (fun w => (Ok tt, set_assets (assets w ∖ {[publicId]}) w)).

(** The [public_id] callback of the storage engine. *)
Definition public_id (img : ImagePart) : string :=
  "blog_" ++ stamp img ++ "_" ++ random img.

Definition full_public_id (img : ImagePart) : string :=
  folder ++ "/" ++ public_id img.

(** The URL under which a stored blob is delivered. *)
Definition secure_url (img : ImagePart) : string :=
  "https://res.cloudinary.com/blog/image/upload/v1/"
    ++ full_public_id img ++ "." ++ format img.

(** The storage engine's upload of one image part. *)
Definition upload (img : ImagePart) : M StoredFile :=
  call (EvUpload (full_public_id img))
       (fun w => (Ok (mkStoredFile (secure_url img)),
                  set_assets ({[full_public_id img]} ∪ assets w) w)).

End Cloudinary.

(** [deleteImage] of [config/cloudinary.js] *)
Definition deleteImage (imageUrl : string) : M unit :=
  try_catch
    (if negb (Js.truthy imageUrl) then ret tt
     else
       let urlParts := Js.split "/" imageUrl in
       let publicIdWithExt := List.last urlParts "" in
       let publicId :=
         "blog-uploads/" ++ List.hd "" (Js.split "." publicIdWithExt) in
       do! Cloudinary.destroy publicId in
       emit (EvConsoleLog ("Deleted image: " ++ publicId)))
    (fun error => emit (EvConsoleError "Error deleting image:")).

(** ** Rate admission control ([middleware/rateLimiter.js]) *)

(** The options of a limiter; [store] names its hit counters, of which
    each limiter has its own. *)
Record Limiter := mkLimiter {
  windowMs : Z;
  max : nat;
  limiter_message : string;
  store : Class
}.

Definition apiLimiter : Limiter :=
  mkLimiter (15 * 60 * 1000) 100
            "Too many requests from this IP, please try again later" General.

Definition authLimiter : Limiter :=
  mkLimiter (15 * 60 * 1000) 20
            "Too many authentication attempts, please try again later"
            Authentication.

Definition uploadLimiter : Limiter :=
  mkLimiter (60 * 60 * 1000) 50 "Too many uploads, please try again later" Upload.

(** A limiter as middleware, within one window of its store: the hit
    count of the client address is incremented, and the request is answered
    with 429 once the count exceeds [max]. *)
Definition rateLimit (l : Limiter) : Middleware :=
  fun r w =>
    let totalHits := S (default 0 (hits (store l) w !! ip r)) in
    let w' := set_hits (store l) (<[ip r := totalHits]> (hits (store l) w)) w in
    if Nat.leb totalHits (max l) then (Next r, w')
    else (Respond (mkResponse 429 (JText (limiter_message l))), w').

(** ** Authorization *)

(** Modelled from the spec: [middleware/auth.js] is not among the sources.
    Given the presented credential the check yields an authenticated identity
    or fails with [Unauthenticated] (401); [identity] is what the credential
    of the request verifies to. *)
Definition auth : Middleware :=
  fun r w =>
    match identity r with
    | Some _ => (Next r, w)
    | None => (Respond (mkResponse 401 (JMessage false "Unauthenticated")), w)
    end.

(** ** Multipart handling ([multer] configured in [routes/posts.js]) *)

Definition fileSize : Z := 5 * 1024 * 1024.

(** [/jpeg|jpg|png|gif|webp/.test(s)] *)
Definition allowedTypes (s : string) : bool :=
  Js.includes "jpeg" s || Js.includes "jpg" s || Js.includes "png" s
  || Js.includes "gif" s || Js.includes "webp" s.

(** [path.extname]: from the last [.] of the base name on, empty when
    there is none or when the only one starts the name. *)
Definition extname (p : string) : string :=
  let base := List.last (Js.split "/" p) "" in
  match Js.split "." base with
  | [] | [_] => ""
  | ["" ; _] => ""
  | parts => if bool_decide (base = "..") then ""
             else "." ++ List.last parts ""
  end.

Definition fileFilter (img : ImagePart) : bool :=
  let extname_ok := allowedTypes (Js.toLowerCase (extname (originalname img))) in
  let mimetype_ok := allowedTypes (mimetype img) in
  mimetype_ok && extname_ok.

Definition lift {A} (m : M A) (k : A -> Flow) : World -> Flow * World :=
  fun w =>
    match m w with
    | (Ok a, w') => (k a, w')
    | (Thrown e, w') => (NextErr e, w')
    end.

(** [upload.single('image')]: the fields of a multipart body become
    [req.body]; an image part that passes the file filter is sent to the
    storage engine and becomes [req.file]. *)
Definition upload_single : Middleware :=
  fun r w =>
    match payload r with
    | Multipart fields part =>
        match part with
        | None => (Next (set_body fields r), w)
        | Some img =>
            if fileFilter img then
              if Z.ltb fileSize (size img)
              then (NextErr (mkError "MulterError" "File too large" None), w)
              else lift (Cloudinary.upload img)
                        (fun f => Next (set_file (Some f) (set_body fields r))) w
            else
              (NextErr (mkError "Error"
                 "Only image files (jpg, jpeg, png, gif, webp) are allowed!" None), w)
        end
    | _ => (Next r, w)
    end.

(** ** Post lifecycle manager ([routes/posts.js]) *)

(** [Number(v)] of a query value that passed [isInt], and of the numeric
    default when the key is absent.  Other strings do not reach the handler
    (the validators answer them with 400); they are read as 0. *)
Definition Number (v : option string) (dflt : Z) : Z :=
  match v with
  | Some s => default 0%Z (Chain.int_of_string s)
  | None => dflt
  end.

(** [Math.ceil(a / b)] on integers, through the rationals.  The counts of
    a collection are far below the magnitude at which the rounding of the
    floating-point quotient could reach an integer. *)
Definition ceil_div (a b : Z) : Z := Qceiling (inject_Z a / inject_Z b)%Q.

(** A route handler as the last middleware. *)
Definition handler (h : Req -> M Response) : Middleware :=
  fun r => lift (h r) Respond.

(** [router.get('/')] *)
Definition getPosts (r : Req) : M Response :=
  try_catch
    (let page := query r !! "page" in
     let limit := query r !! "limit" in
     let search := query r !! "search" in
     let sort := default "-createdAt" (query r !! "sort") in
     let filter :=
       match search with
       | Some s =>
           if Js.truthy s
           then mkFilter (Some [ mkRegexCond "heading" s "i";
                                 mkRegexCond "description" s "i" ])
           else mkFilter None
       | None => mkFilter None
       end in
     let! posts := Mongoose.find filter sort (Number limit 10)
                     ((Number page 1 - 1) * Number limit 10) in
     let! totalPosts := Mongoose.countDocuments filter in
     ret (mkResponse 200
            (JPosts posts
               (mkPagination (ceil_div totalPosts (Number limit 10))
                             (Number page 1)
                             totalPosts
                             (Number limit 10)
                             (Z.ltb (Number page 1 * Number limit 10) totalPosts)))))
    (fun error =>
       do! emit (EvConsoleError "Get posts error:") in
       ret (mkResponse 500 (JMessage false "Server error"))).

(** [router.get('/:id')] *)
Definition getPostById (r : Req) : M Response :=
  try_catch
    (let! post := Mongoose.findById (default "" (params r !! "id")) in
     match post with
     | None => ret (mkResponse 404 (JMessage false "Post not found"))
     | Some _ => ret (mkResponse 200 (JPost post))
     end)
    (fun error =>
       do! emit (EvConsoleError "Get post error:") in
       ret (mkResponse 500 (JMessage false "Server error"))).

(** [router.post('/')] *)
Definition createPost (r : Req) : M Response :=
  try_catch
    (let heading := body r !! "heading" in
     let description := body r !! "description" in
     let postData := mkPostData heading description None in
     let postData :=
       match file r with
       | Some f => mkPostData (data_heading postData) (data_description postData)
                              (Some (path f))
       | None => postData
       end in
     let! post := Mongoose.save (objectId r) (now r) postData in
     ret (mkResponse 201 (JPostMessage "Post created successfully" (Some post))))
    (fun error =>
       do! emit (EvConsoleError "Create post error:") in
       ret (mkResponse 400 (JError "Error creating post" (message error)))).

(** [router.put('/:id')] *)
Definition updatePost (r : Req) : M Response :=
  try_catch
    (let heading := body r !! "heading" in
     let description := body r !! "description" in
     let id := default "" (params r !! "id") in
     let! existingPost := Mongoose.findById id in
     match existingPost with
     | None => ret (mkResponse 404 (JMessage false "Post not found"))
     | Some (_, existing) =>
         let updateData := mkPostData None None None in
         let updateData :=
           if Js.truthy_opt heading
           then mkPostData heading (data_description updateData) (data_image updateData)
           else updateData in
         let updateData :=
           if Js.truthy_opt description
           then mkPostData (data_heading updateData) description (data_image updateData)
           else updateData in
         let! updateData :=
           match file r with
           | Some f =>
               do! when (Js.truthy_opt (image existing))
                        (deleteImage (default "" (image existing))) in
               ret (mkPostData (data_heading updateData)
                               (data_description updateData) (Some (path f)))
           | None => ret updateData
           end in
         let! post := Mongoose.findByIdAndUpdate id updateData (now r) in
         ret (mkResponse 200 (JPostMessage "Post updated successfully" post))
     end)
    (fun error =>
       do! emit (EvConsoleError "Update post error:") in
       ret (mkResponse 400 (JMessage false (message error)))).

(** [router.delete('/:id')] *)
Definition deletePost (r : Req) : M Response :=
  try_catch
    (let id := default "" (params r !! "id") in
     let! post := Mongoose.findById id in
     match post with
     | None => ret (mkResponse 404 (JMessage false "Post not found"))
     | Some (_, existing) =>
         do! when (Js.truthy_opt (image existing))
                  (deleteImage (default "" (image existing))) in
         do! Mongoose.findByIdAndDelete id in
         ret (mkResponse 200 (JMessage true "Post deleted successfully"))
     end)
    (fun error =>
       do! emit (EvConsoleError "Delete post error:") in
       ret (mkResponse 500 (JMessage false "Server error"))).

(** The middleware chain of each route of the posts router. *)
Definition router (rt : Route) : list Middleware :=
  match rt with
  | GetPosts =>
      [ validators postValidators.list; validate; handler getPosts ]
  | GetPostById =>
      [ validators postValidators.getById; validate; handler getPostById ]
  | PostPost =>
      [ auth; rateLimit uploadLimiter; upload_single;
        validators postValidators.create; validate; handler createPost ]
  | PutPost =>
      [ auth; rateLimit uploadLimiter; upload_single;
        validators postValidators.update; validate; handler updatePost ]
  | DeletePost =>
      [ auth; validators postValidators.delete; validate; handler deletePost ]
  | AuthRoutes => []
  end.

(** Modelled from the spec: [routes/auth.js] is not among the sources, only
    its mount behind [authLimiter] is.  Token issuance is an outside
    collaborator of the post lifecycle: a request that reaches the router is
    answered by it and leaves the stores modelled here as they are. *)
Definition authRouter : Middleware :=
  fun r w => (Respond (mkResponse 200 JDelegated), w).

(** The body parsers of [api/index.js]: a parsed body is [req.body] from
    the start, a multipart body is left to the route. *)
Definition parse_body (r : Req) : Req :=
  match payload r with
  | Parsed fields => set_body fields (set_file None (set_errors [] r))
  | _ => set_body ∅ (set_file None (set_errors [] r))
  end.

(** The route mounts of [api/index.js]:
    [app.use('/api/posts', apiLimiter, require('../routes/posts'))] and
    [app.use('/api/auth', authLimiter, require('../routes/auth'))]. *)
Definition app (r : Req) (w : World) : Response * World :=
  match route r with
  | AuthRoutes => pipeline [ rateLimit authLimiter; authRouter ] (parse_body r) w
  | rt => pipeline (rateLimit apiLimiter :: router rt) (parse_body r) w
  end.

(** * Vocabulary of the statements *)

(** ** Validation of creation input *)

(** The messages the [heading] chain of [postValidators.create] gives for
    a trimmed value, and those of the [description] chain. *)
Definition heading_messages (h : string) : list string :=
  ((if Js.truthy h then [] else ["Heading is required"]) ++
   (if Chain.is_length 3 (Some 200) h then []
    else ["Heading must be between 3 and 200 characters"]))%list.

Definition description_messages (d : string) : list string :=
  ((if Js.truthy d then [] else ["Description is required"]) ++
   (if Chain.is_length 10 None d then []
    else ["Description must be at least 10 characters"]))%list.

Definition entry (field : string) (msgs : list string)
  : list (string * list string) :=
  match msgs with [] => [] | _ :: _ => [(field, msgs)] end.

(** The field-to-messages map of a rejected creation body. *)
Definition create_errors (h d : string) : list (string * list string) :=
  (entry "heading" (heading_messages h) ++
   entry "description" (description_messages d))%list.

(** A request whose body carries the two fields. *)
Definition sample_create (h d : string) : Req :=
  mkReq PostPost "203.0.113.7" (Some "author") ∅ ∅ NoBody
        (<["heading" := h]> (<["description" := d]> ∅)) None []
        "65f0a1b2c3d4e5f601234567" 0.


(** ** Sample worlds and requests *)

Definition empty_world : World := mkWorld ∅ ∅ ∅ ∅ ∅ [] [] [].

Definition two_digits (n : nat) : string :=
  String (ascii_of_nat (48 + n / 10))
         (String (ascii_of_nat (48 + n mod 10)) EmptyString).

Definition sample_id (n : nat) : string :=
  "65f0a1b2c3d4e5f6012345" ++ two_digits n.

Definition sample_post (n : nat) : Post :=
  mkPost ("Post number " ++ two_digits n) "A description long enough"
         (Some "") (Z.of_nat n) (Z.of_nat n).

(** A world whose Record Store holds [n] posts. *)
Definition sample_world (n : nat) : World :=
  set_posts (list_to_map (map (fun i => (sample_id i, sample_post i)) (seq 0 n)))
            empty_world.

Definition list_request (q : gmap string string) : Req :=
  mkReq GetPosts "203.0.113.7" None ∅ q NoBody ∅ None [] "" 0.

(** ** Pagination *)

Definition pagination_of (resp : Response) : option Pagination :=
  match json resp with
  | JPosts _ pg => Some pg
  | _ => None
  end.

(** ** Rate admission *)

(** The world after one more hit of [addr] on the store of a limiter, and
    whether that hit is still within the limiter's budget. *)
Definition charge (l : Limiter) (addr : string) (w : World) : World :=
  set_hits (store l)
           (<[addr := S (default 0 (hits (store l) w !! addr))]> (hits (store l) w)) w.

Definition within (l : Limiter) (addr : string) (w : World) : bool :=
  Nat.leb (S (default 0 (hits (store l) w !! addr))) (max l).

Definition tooMany (l : Limiter) : Response :=
  mkResponse 429 (JText (limiter_message l)).

(** What the final stage of a pipeline leaves as the answer. *)
Definition answer (x : Result Response * World) : Response * World :=
  match x with
  | (Ok resp, w) => (resp, w)
  | (Thrown e, w) => (errorHandler e, w)
  end.

Definition validationFailed (r : Req) : Response :=
  mkResponse 400 (JValidation "Validation failed" (formattedErrors (errors r))).

(** ** Listing *)

(** A query that the list validators let through: [page] an integer from
    1 on, [limit] an integer from 1 to 100, [search] of at most 100
    characters once trimmed, each only when present. *)
Definition valid_list_query (q : gmap string string) : bool :=
  default true (Chain.is_int 1 None <$> q !! "page")
  && default true (Chain.is_int 1 (Some 100%Z) <$> q !! "limit")
  && default true (Chain.is_length 0 (Some 100) <$> (Js.trim <$> q !! "search")).

(** The search term the handler sees: the trimmed [search] value when it
    is not empty. *)
Definition search_term (q : gmap string string) : option string :=
  match Js.trim <$> q !! "search" with
  | Some s => if Js.truthy s then Some s else None
  | None => None
  end.

(** A search term within the regular expressions that are modelled. *)
Definition modelled_term (q : gmap string string) : bool :=
  match search_term q with
  | Some s => bool_decide (is_Some (Regex.parse s))
  | None => true
  end.

(** The filter the list handler builds for a query. *)
Definition list_filter (q : gmap string string) : Filter :=
  match search_term q with
  | Some s => mkFilter (Some [ mkRegexCond "heading" s "i";
                               mkRegexCond "description" s "i" ])
  | None => mkFilter None
  end.

(** The first [n] coming calls to the Record Store do not fail. *)
Definition db_ok (n : nat) (w : World) : bool :=
  forallb negb (take n (db_faults w)).

(** [term] occurs in [s] when the case of the letters is ignored. *)
Definition contains_ci (term s : string) : Prop :=
  ∃ a b, Js.toLowerCase s = a ++ Js.toLowerCase term ++ b.

(** A term without regular-expression syntax: ASCII characters other than
    [\ ^ $ . | ? * + ( ) [ ] { }]. *)
Fixpoint literal_term (t : string) : bool :=
  match t with
  | String c t' =>
      negb (Regex.is_meta c) && Nat.ltb (nat_of_ascii c) 128 && literal_term t'
  | EmptyString => true
  end.

(** The claim that search is substring search, for one query and world:
    every listed post contains the term in its heading or description, and
    the count is that of the stored posts which do. *)
Definition substring_search (q : gmap string string) (w : World) : Prop :=
  ∀ t items pg,
    search_term q = Some t →
    json (app (list_request q) w).1 = JPosts items pg →
    ∀ d, d ∈ items → contains_ci t (heading d.2) ∨ contains_ci t (description d.2).

Definition hello_post : Post :=
  mkPost "Hello World" "A description long enough" (Some "") 1 1.

Definition hello_world : World :=
  set_posts {[ sample_id 0 := hello_post ]} empty_world.

(** Whether a post satisfies the filter of a query whose term is within
    the modelled regular expressions. *)
Definition search_pred (q : gmap string string) (p : Post) : bool :=
  match search_term q with
  | None => true
  | Some t =>
      match Regex.parse t with
      | Some re =>
          Regex.search true re (heading p) || Regex.search true re (description p)
      | None => false
      end
  end.

(** The stored posts that satisfy the filter of a query. *)
Definition matching (q : gmap string string) (w : World) : list (string * Post) :=
  List.filter (fun d => search_pred q d.2) (map_to_list (posts w)).

(** The page of [ds] that the list handler returns for a query. *)
Definition page_of (q : gmap string string) (ds : list (string * Post))
  : list (string * Post) :=
  take (Z.to_nat (Number (q !! "limit") 10))
       (drop (Z.to_nat ((Number (q !! "page") 1 - 1) * Number (q !! "limit") 10))
             (Mongoose.sort_docs
                (Mongoose.sort_keys (default "-createdAt" (q !! "sort"))) ds)).

(** The pagination block for a count and a query. *)
Definition block_of (q : gmap string string) (T : Z) : Pagination :=
  mkPagination (ceil_div T (Number (q !! "limit") 10))
               (Number (q !! "page") 1) T (Number (q !! "limit") 10)
               (Z.ltb (Number (q !! "page") 1 * Number (q !! "limit") 10) T).

(** The world after [es] were added to the trace and [n] outcomes of the
    Record Store were used up. *)
Definition after_db (es : list Event) (n : nat) (w : World) : World :=
  set_db_faults (drop n (db_faults w)) (set_trace (trace w ++ es)%list w).

(** ** Frames *)

(** A computation, or a middleware, that takes every world to one related
    to it by [R]. *)
Definition frames {A} (R : World → World → Prop) (m : M A) : Prop :=
  ∀ w, R w (m w).2.

Definition frames_mw (R : World → World → Prop) (m : Middleware) : Prop :=
  ∀ r w, R w (m r w).2.

(** The relations used below: the hit counters of a class are the same,
    the Record Store is the same. *)
Definition same_hits (c : Class) (w w' : World) : Prop := hits c w' = hits c w.
Definition same_posts (w w' : World) : Prop := posts w' = posts w.

(** What a request sends: the fields of its body and its image part. *)
Definition sent_fields (r : Req) : gmap string string :=
  match payload r with
  | NoBody => ∅
  | Parsed fields => fields
  | Multipart fields _ => fields
  end.

Definition sent_image (r : Req) : option ImagePart :=
  match payload r with
  | Multipart _ part => part
  | _ => None
  end.

(** The public id that [deleteImage] derives from a URL. *)
Definition publicId_of (imageUrl : string) : string :=
  "blog-uploads/" ++ List.hd "" (Js.split "." (List.last (Js.split "/" imageUrl) "")).

(** ** Sample mutating requests *)

Definition sample_fields (h d : string) : gmap string string :=
  <["heading" := h]> (<["description" := d]> ∅).

Definition sample_image : ImagePart :=
  mkImagePart "cat.PNG" "image/png" 1000 "1700000000000" "42" "png".

Definition other_image : ImagePart :=
  mkImagePart "dog.jpg" "image/jpeg" 2000 "1700000000001" "43" "jpg".

(** An authenticated multipart creation request. *)
Definition post_request (fields : gmap string string) (part : option ImagePart)
  : Req :=
  mkReq PostPost "203.0.113.7" (Some "author") ∅ ∅ (Multipart fields part) ∅
        None [] (sample_id 0) 5.

(** An authenticated multipart update request for the post [sample_id 0]. *)
Definition put_request (fields : gmap string string) (part : option ImagePart)
  : Req :=
  mkReq PutPost "203.0.113.7" (Some "author") {[ "id" := sample_id 0 ]} ∅
        (Multipart fields part) ∅ None [] "" 9.

(** An authenticated deletion request for the post [sample_id 0]. *)
Definition delete_request : Req :=
  mkReq DeletePost "203.0.113.7" (Some "author") {[ "id" := sample_id 0 ]} ∅
        NoBody ∅ None [] "" 9.

(** A world with one post that has an image, the blob of which is in the
    Asset Store. *)
Definition pictured_post : Post :=
  mkPost "Hello World" "A description long enough"
         (Some (Cloudinary.secure_url sample_image)) 5 5.

Definition pictured_world : World :=
  set_assets {[ Cloudinary.full_public_id sample_image ]}
             (set_posts {[ sample_id 0 := pictured_post ]} empty_world).

(** ** Admission classes *)

(** A request is charged to a class when the hit count of its address in
    the store of that class changes. *)
Definition charged (c : Class) (r : Req) (w : World) : Prop :=
  hits c (app r w).2 !! ip r ≠ hits c w !! ip r.

(** The claim that a request is charged to exactly one class. *)
Definition charged_once (r : Req) (w : World) : Prop :=
  ∃ c, charged c r w ∧ ∀ c', charged c' r w → c' = c.

Definition unauthenticated : Response :=
  mkResponse 401 (JMessage false "Unauthenticated").

(** ** Outcomes of computations *)

(** A computation that never throws, and one whose results satisfy [P]. *)
Definition total {A} (m : M A) : Prop := ∀ w, ∃ a, (m w).1 = Ok a.

Definition answers {A} (P : A → Prop) (m : M A) : Prop :=
  ∀ w a, (m w).1 = Ok a → P a.

(** A response that does not report failed validation. *)
Definition not_validation (resp : Response) : Prop :=
  ∀ msg errs, json resp ≠ JValidation msg errs.

(** ** Uploads before validation *)

(** The image part that the route of a request hands to the storage
    engine: that of a creation or update request. *)
Definition uploads (r : Req) : option ImagePart :=
  match route r with
  | PostPost | PutPost => sent_image r
  | _ => None
  end.

(** The world after the storage engine stored an image part. *)
Definition after_upload (img : ImagePart) (w : World) : World :=
  set_assets ({[ Cloudinary.full_public_id img ]} ∪ assets w)
    (set_cdn_faults (tail (cdn_faults w))
       (set_trace (trace w ++ [EvUpload (Cloudinary.full_public_id img)])%list w)).

(** The claim that failed validation leaves the stores as they were. *)
Definition rejected_without_effect (r : Req) (w : World) : Prop :=
  ∀ msg errs, json (app r w).1 = JValidation msg errs →
    posts (app r w).2 = posts w ∧ assets (app r w).2 = assets w.

(** ** Independence of the Asset Store *)

(** Two worlds with the same Record Store, answering alike. *)
Definition same_records (w1 w2 : World) : Prop :=
  posts w1 = posts w2 ∧ db_faults w1 = db_faults w2.

(** A computation whose result and effect on the Record Store depend on
    the Record Store only. *)
Definition record_bound {A} (m : M A) : Prop :=
  ∀ w1 w2, same_records w1 w2 →
    (m w1).1 = (m w2).1 ∧ same_records (m w1).2 (m w2).2.

(** ** Partial update *)

(** The record [k] is still there, with its creation time, and with its
    heading, description and image as they were whenever [H], [D] and [I]
    hold respectively. *)
Definition keeps (k : string) (H D I : Prop) (w w' : World) : Prop :=
  ∀ e, posts w !! k = Some e →
    ∃ e', posts w' !! k = Some e'
      ∧ createdAt e' = createdAt e
      ∧ (H → heading e' = heading e)
      ∧ (D → description e' = description e)
      ∧ (I → image e' = image e).

(** ** The image field *)

(** Every stored record has its [image] path, holding a string. *)
Definition images_present (w : World) : Prop :=
  ∀ k p, posts w !! k = Some p → is_Some (image p).

Definition keeps_images (w w' : World) : Prop :=
  images_present w → images_present w'.

(** The world after a sequence of requests. *)
Definition serve (rs : list Req) (w : World) : World :=
  fold_left (fun w r => (app r w).2) rs w.

(** ** Order of cleanup and record mutation *)

(** The outside calls made while a request is served. *)
Definition new_events (r : Req) (w : World) : list Event :=
  drop (length (trace w)) (trace (app r w).2).

(** Every occurrence of an event that satisfies [b] comes after one that
    satisfies [a]. *)
Definition preceded_by (a b : Event → bool) (tr : list Event) : Prop :=
  ∀ i y, tr !! i = Some y → b y = true →
    ∃ j x, j < i ∧ tr !! j = Some x ∧ a x = true.

Definition is_destroy (e : Event) : bool :=
  match e with EvDestroy _ => true | _ => false end.
Definition is_update (e : Event) : bool :=
  match e with EvFindByIdAndUpdate _ => true | _ => false end.
Definition is_delete (e : Event) : bool :=
  match e with EvFindByIdAndDelete _ => true | _ => false end.

(** The claim that a blob is destroyed only after the record update. *)
Definition cleanup_after_update (r : Req) (w : World) : Prop :=
  preceded_by is_update is_destroy (new_events r w).

(** The claim that a blob is destroyed only after the record deletion. *)
Definition cleanup_after_delete (r : Req) (w : World) : Prop :=
  preceded_by is_delete is_destroy (new_events r w).

(** What follows the cleanup in the trace of the update handler: the log
    line of [deleteImage], the update call when it is made, and the error
    log when the update fails. *)
Definition cleanup_log (pid : string) (e : Event) : Prop :=
  e = EvConsoleLog ("Deleted image: " ++ pid)
  ∨ e = EvConsoleError "Error deleting image:".

(** The update request for the post [sample_id 0] as it reaches the
    handler, with the new image stored; and a world in which the lookup of
    the post succeeds and the next call to the Record Store fails. *)
Definition handled_put : Req :=
  mkReq PutPost "203.0.113.7" (Some "author") {[ "id" := sample_id 0 ]} ∅
        (Multipart ∅ (Some other_image)) ∅
        (Some (mkStoredFile (Cloudinary.secure_url other_image))) [] "" 9.

Definition failing_world : World :=
  set_db_faults [false; true] pictured_world.

(** * Further vocabulary and the database connection *)

(** ** Strings without surrounding whitespace *)

(** The string does not start with a whitespace character. *)
Definition no_lead (s : string) : Prop :=
  match s with
  | String c _ => Js.is_space c = false
  | EmptyString => True
  end.

(** The string neither starts nor ends with a whitespace character. *)
Definition trimmed (s : string) : Prop :=
  no_lead s ∧ no_lead (String.rev s).

(** The string does not contain the character. *)
Definition lacks (c : ascii) (s : string) : bool :=
  Chain.all_chars (fun x => negb (bool_decide (x = c))) s.

(** ** Grouping of validation errors *)

(** The messages reported for the field [p], in the order reported. *)
Definition messages_at (p : string) (errs : list FieldError) : list string :=
  map err_msg (List.filter (fun e => bool_decide (err_path e = p)) errs).

(** The response of [validate] to a request whose only failure is the
    format of the [id] parameter. *)
Definition invalidId : Response :=
  mkResponse 400 (JValidation "Validation failed" [("id", ["Invalid post ID"])]).

(** ** Validation of update input *)

(** Update input that the validators of [postValidators.update] let
    through: the [id] is a MongoDB identifier, and [heading] and
    [description], each only when it is sent, have once trimmed from 3 to
    200 characters and at least 10 characters. *)
Definition valid_update (id : string) (b : gmap string string) : bool :=
  Chain.is_mongo_id id
  && default true (Chain.is_length 3 (Some 200) <$> (Js.trim <$> b !! "heading"))
  && default true (Chain.is_length 10 None <$> (Js.trim <$> b !! "description")).

Definition is_validation (resp : Response) : bool :=
  match json resp with JValidation _ _ => true | _ => false end.

(** ** Outcomes of the routes *)

Definition found (d : string * Post) : Response := mkResponse 200 (JPost (Some d)).
Definition notFound : Response := mkResponse 404 (JMessage false "Post not found").
Definition serverError : Response := mkResponse 500 (JMessage false "Server error").
Definition created (d : string * Post) : Response :=
  mkResponse 201 (JPostMessage "Post created successfully" (Some d)).
Definition deleted : Response :=
  mkResponse 200 (JMessage true "Post deleted successfully").

(** The identifier a request names, as the Record Store reads it. *)
Definition named_id (r : Req) : option string :=
  Mongoose.castObjectId (default "" (params r !! "id")).

(** The image part of a request passes the file filter, is within the size
    limit, and the Asset Store takes it. *)
Definition accepted_upload (r : Req) (w : World) : Prop :=
  match sent_image r with
  | Some img =>
      fileFilter img = true ∧ (size img ≤ fileSize)%Z
      ∧ head (cdn_faults w) ≠ Some true
  | None => True
  end.

(** The URL stored for the image part of a request, [""] without one. *)
Definition stored_url (r : Req) : string :=
  match sent_image r with
  | Some img => Cloudinary.secure_url img
  | None => ""
  end.

(** The record that a creation request asks for. *)
Definition requested_post (r : Req) : Post :=
  mkPost (Js.trim (default "" (sent_fields r !! "heading")))
         (Js.trim (default "" (sent_fields r !! "description")))
         (Some (stored_url r)) (now r) (now r).

(** A creation body that the validators let through. *)
Definition valid_create (b : gmap string string) : Prop :=
  (3 ≤ String.length (Js.trim (default "" (b !! "heading"))) ≤ 200
   ∧ 10 ≤ String.length (Js.trim (default "" (b !! "description"))))%nat.

(** A lookup request for an identifier. *)
Definition lookup_request (addr id : string) : Req :=
  mkReq GetPostById addr None {[ "id" := id ]} ∅ NoBody ∅ None [] "" 0.

Definition updated (d : string * Post) : Response :=
  mkResponse 200 (JPostMessage "Post updated successfully" (Some d)).

(** The record that an update request makes of a stored record. *)
Definition revised_post (r : Req) (e : Post) : Post :=
  mkPost (default (heading e) (Js.trim <$> sent_fields r !! "heading"))
         (default (description e) (Js.trim <$> sent_fields r !! "description"))
         (match sent_image r with
          | Some img => Some (Cloudinary.secure_url img)
          | None => image e
          end)
         (createdAt e) (now r).

(** ** Invariants of the Record Store *)

(** A record as the schema of [models/Post.js] admits it: heading and
    description trimmed, the heading of 3 to 200 characters, the
    description of at least 10. *)
Definition schema_ok (p : Post) : Prop :=
  Mongoose.heading_ok (heading p) = true
  ∧ Mongoose.description_ok (description p) = true
  ∧ Js.trim (heading p) = heading p
  ∧ Js.trim (description p) = description p.

Definition well_formed (w : World) : Prop :=
  ∀ k p, posts w !! k = Some p → schema_ok p.

Definition keeps_schema (w w' : World) : Prop :=
  well_formed w → well_formed w'.

(** What a request may do to the stored records, by its route: reading
    routes leave both stores alone, creation only adds records, deletion only
    removes records, and an update neither adds nor removes one.  Nothing is
    said of the authentication routes, whose router is not among the
    sources. *)
Definition footprint (rt : Route) (w w' : World) : Prop :=
  match rt with
  | GetPosts | GetPostById => posts w' = posts w ∧ assets w' = assets w
  | AuthRoutes => True
  | PostPost => posts w ⊆ posts w'
  | DeletePost => posts w' ⊆ posts w
  | PutPost => dom (posts w') = dom (posts w)
  end.

(** ** Changes of the Record Store and the answer *)

(** A computation that has changed the Record Store only if it returns a
    value that satisfies [P]: not when it throws. *)
Definition commits {A} (P : A → Prop) (m : M A) : Prop :=
  ∀ w, match (m w).1 with
       | Ok a => posts (m w).2 = posts w ∨ P a
       | Thrown _ => posts (m w).2 = posts w
       end.

(** The answer with which a route reports that the record was written;
    the reading routes have none.  Nothing is said of the authentication
    routes, whose router is not among the sources. *)
Definition succeeded (rt : Route) (resp : Response) : Prop :=
  match rt with
  | PostPost => status resp = 201
  | PutPost | DeletePost => status resp = 200
  | GetPosts | GetPostById => False
  | AuthRoutes => True
  end.

(** ** The budget of the general limiter *)

(** A request from the address [a] to the posts routes. *)
Definition to_posts (a : string) (r : Req) : bool :=
  bool_decide (ip r = a)
  && match route r with AuthRoutes => false | _ => true end.

(** The hits of [a] that the general limiter has counted. *)
Definition general_count (a : string) (w : World) : nat :=
  default 0 (hits General w !! a).

(** ** Walking the pages of a listing *)





(** ** The database connection ([api/index.js], [server.js]) *)

(** What [mongoose.connect] resolves to, with the host it names. *)
Record Connection := mkConnection { host : string }.

(** The module state [cachedDb] with what surrounds it: the number of
    calls of [mongoose.connect] made so far, the lines written to the
    console, and what the outside will show to the coming calls: the
    [readyState] of the cached connection at each coming check (1, connected,
    when nothing is listed), and the outcome of each coming call of
    [mongoose.connect], a connection or the message of the error (a
    connection to [localhost] when nothing is listed). *)
Record Process := mkProcess {
  cachedDb : option Connection;
  connects : nat;
  console : list Event;
  readyStates : list Z;
  outcomes : list (Connection + string)
}.

(** [mongoose.connect(...)] with the [try]/[catch] around it: a success
    is cached and logged, a failure clears the cache, is logged and thrown
    again.  (The log lines are kept without their leading symbol.) *)
Definition connect (p : Process) : Result Connection * Process :=
  match default (inl (mkConnection "localhost")) (head (outcomes p)) with
  | inl conn =>
      (Ok conn,
       mkProcess (Some conn) (S (connects p))
                 (console p ++ [EvConsoleLog ("MongoDB Connected: " ++ host conn)])
                 (readyStates p) (tail (outcomes p)))
  | inr msg =>
      (Thrown (mkError "MongooseServerSelectionError" msg None),
       mkProcess None (S (connects p))
                 (console p ++ [EvConsoleError "MongoDB Connection Error:"])
                 (readyStates p) (tail (outcomes p)))
  end.

(** [connectDB]: the cached connection is returned when there is one and
    its [readyState] is 1; the state is read only when there is one. *)
Definition connectDB (p : Process) : Result Connection * Process :=
  match cachedDb p with
  | Some c =>
      let p1 := mkProcess (cachedDb p) (connects p) (console p)
                          (tail (readyStates p)) (outcomes p) in
      if Z.eqb (default 1%Z (head (readyStates p))) 1
      then (Ok c,
            mkProcess (cachedDb p1) (connects p1)
                      (console p1 ++ [EvConsoleLog "Using cached database connection"])
                      (readyStates p1) (outcomes p1))
      else connect p1
  | None => connect p
  end.

(** The connection middleware in front of the route mounts, for a value
    of [NODE_ENV]: a request goes on to the routes when [connectDB]
    returns, and is answered with 503 when it throws; the message of the
    error is added in development only. *)
Definition unavailable (env : string) (e : Error) : Response :=
  mkResponse 503
    (if bool_decide (env = "development")
     then JError "Database connection failed" (message e)
     else JText "Database connection failed").

Definition server (env : string) (r : Req) (s : Process * World)
  : Response * (Process * World) :=
  match connectDB s.1 with
  | (Ok _, p') => ((app r s.2).1, (p', (app r s.2).2))
  | (Thrown e, p') => (unavailable env e, (p', s.2))
  end.




(** The next call of [mongoose.connect], if one is made, succeeds. *)
Definition reachable (p : Process) : Prop :=
  match head (outcomes p) with
  | Some (inr _) => False
  | _ => True
  end.


(** ** Status codes *)



(** ** The budgets of the upload and the authentication limiter *)

(** A request from the address [a] to the authentication routes. *)
Definition to_auth (a : string) (r : Req) : bool :=
  bool_decide (ip r = a)
  && match route r with AuthRoutes => true | _ => false end.

Definition auth_count (a : string) (w : World) : nat :=
  default 0 (hits Authentication w !! a).

Definition auth_request (addr : string) : Req :=
  mkReq AuthRoutes addr None ∅ ∅ NoBody ∅ None [] "" 0.

(** * Properties *)

(** ** Validation of creation input *)

Lemma truthy_length (s : string) :
  Js.truthy s = true ↔ (0 < String.length s)%nat.
Proof. destruct s; simpl; split; intros; try done; lia. Qed.

Lemma is_length_bounds (lo hi : nat) (s : string) :
  Chain.is_length lo (Some hi) s = true ↔ (lo ≤ String.length s ≤ hi)%nat.
Proof.
  unfold Chain.is_length. rewrite andb_true_iff, !Nat.leb_le. tauto.
Qed.

Lemma is_length_min (lo : nat) (s : string) :
  Chain.is_length lo None s = true ↔ (lo ≤ String.length s)%nat.
Proof.
  unfold Chain.is_length. rewrite andb_true_r, Nat.leb_le. tauto.
Qed.

(** A chain [trim; notEmpty; isLength] on a body field. *)
Lemma run_body_chain (f m1 m2 : string) (lo : nat) (hi : option nat) (r : Req) :
  let v := Js.trim (default "" (body r !! f)) in
  let c := Chain.body f [Chain.trim; Chain.notEmpty m1; Chain.isLength lo hi m2] in
  errors (Chain.run c r) =
    (errors r ++ map (mkFieldError f)
       ((if Js.truthy v then [] else [m1]) ++
        (if Chain.is_length lo hi v then [] else [m2])))%list
  ∧ (∀ g, g ≠ f → body (Chain.run c r) !! g = body r !! g).
Proof.
  intros v c. unfold Chain.run, c, Chain.body. simpl.
  fold v. split.
  - destruct (Js.truthy v), (Chain.is_length lo hi v);
      case_bool_decide; reflexivity.
  - intros g Hg.
    destruct (Js.truthy v), (Chain.is_length lo hi v);
      case_bool_decide; simpl; try done;
      by rewrite lookup_insert_ne.
Qed.

Lemma create_errors_run (r : Req) :
  errors r = [] →
  let h := Js.trim (default "" (body r !! "heading")) in
  let d := Js.trim (default "" (body r !! "description")) in
  errors (Chain.run_all postValidators.create r) =
    (map (mkFieldError "heading") (heading_messages h) ++
     map (mkFieldError "description") (description_messages d))%list.
Proof.
  intros He h d. unfold Chain.run_all, postValidators.create.
  cbn [fold_left].
  pose proof (run_body_chain "heading" "Heading is required"
    "Heading must be between 3 and 200 characters" 3 (Some 200) r) as (E1 & B1).
  set (r1 := Chain.run _ r) in *.
  pose proof (run_body_chain "description" "Description is required"
    "Description must be at least 10 characters" 10 None r1) as (E2 & _).
  cbv zeta in E1, E2, B1.
  rewrite E2, E1, He, (B1 "description") by done. reflexivity.
Qed.

Lemma validate_next (r : Req) (w : World) :
  errors r = [] → validate r w = (Next r, w).
Proof. unfold validate. by intros ->. Qed.

Lemma validate_reject (r : Req) (w : World) :
  errors r ≠ [] →
  validate r w =
    (Respond (mkResponse 400 (JValidation "Validation failed"
                                (formattedErrors (errors r)))), w).
Proof. unfold validate. by destruct (errors r). Qed.

Lemma is_length_truthy (lo : nat) (hi : option nat) (s : string) :
  (0 < lo)%nat → Chain.is_length lo hi s = true → Js.truthy s = true.
Proof.
  unfold Chain.is_length. intros Hlo [H _]%andb_true_iff.
  apply Nat.leb_le in H. apply truthy_length. lia.
Qed.

Lemma create_messages_nil (h d : string) :
  heading_messages h = [] ∧ description_messages d = []
  ↔ (3 ≤ String.length h ≤ 200 ∧ 10 ≤ String.length d)%nat.
Proof.
  rewrite <- is_length_bounds, <- is_length_min.
  unfold heading_messages, description_messages.
  pose proof (is_length_truthy 3 (Some 200) h) as Th.
  pose proof (is_length_truthy 10 None d) as Td.
  destruct (Js.truthy h), (Chain.is_length 3 (Some 200) h),
    (Js.truthy d), (Chain.is_length 10 None d); simpl;
    split; intros [? ?]; try discriminate; try (split; reflexivity);
    try (specialize (Th ltac:(lia) eq_refl); discriminate);
    try (specialize (Td ltac:(lia) eq_refl); discriminate).
Qed.

Lemma formatted_create (h d : string) :
  formattedErrors
    (map (mkFieldError "heading") (heading_messages h) ++
     map (mkFieldError "description") (description_messages d))
  = create_errors h d.
Proof.
  unfold create_errors, heading_messages, description_messages.
  destruct (Js.truthy h), (Chain.is_length 3 (Some 200) h),
    (Js.truthy d), (Chain.is_length 10 None d); reflexivity.
Qed.

(** C6: creation input is accepted exactly when the trimmed heading has
    between 3 and 200 characters and the trimmed description at least 10;
    a rejected body is answered with 400 and the map from field name to the
    messages of that field, in the order of the chain.  A heading ["ab"] is
    rejected and ["abc"] accepted; a description of 10 characters is
    accepted and one of 9 rejected. *)
Theorem create_validation (r : Req) (w : World) :
  errors r = [] →
  let h := Js.trim (default "" (body r !! "heading")) in
  let d := Js.trim (default "" (body r !! "description")) in
  let ok := (3 ≤ String.length h ≤ 200 ∧ 10 ≤ String.length d)%nat in
  let outcome := validate (Chain.run_all postValidators.create r) w in
  ((∃ r', outcome = (Next r', w)) ↔ ok)
  ∧ (¬ ok →
     outcome = (Respond (mkResponse 400 (JValidation "Validation failed"
                                           (create_errors h d))), w)
     ∧ create_errors h d ≠ [])
  ∧ validate (Chain.run_all postValidators.create (sample_create "ab" "0123456789")) w
    = (Respond (mkResponse 400 (JValidation "Validation failed"
         [("heading", ["Heading must be between 3 and 200 characters"])])), w)
  ∧ (∃ r', validate (Chain.run_all postValidators.create
                       (sample_create "abc" "0123456789")) w = (Next r', w))
  ∧ validate (Chain.run_all postValidators.create (sample_create "abc" "012345678")) w
    = (Respond (mkResponse 400 (JValidation "Validation failed"
         [("description", ["Description must be at least 10 characters"])])), w).
Proof.
  intros He h d ok outcome.
  assert (Herr := create_errors_run r He). cbv zeta in Herr. fold h d in Herr.
  assert (Hnil : errors (Chain.run_all postValidators.create r) = [] ↔ ok).
  { unfold ok. rewrite Herr, <- create_messages_nil. split.
    - intros [H1 H2]%app_eq_nil.
      split; [by destruct (heading_messages h) | by destruct (description_messages d)].
    - by intros [-> ->]. }
  assert (Hrej : ¬ ok →
     outcome = (Respond (mkResponse 400 (JValidation "Validation failed"
                                           (create_errors h d))), w)
     ∧ create_errors h d ≠ []).
  { intros Hn. assert (Hne : errors (Chain.run_all postValidators.create r) ≠ [])
      by (intros E; apply Hn, Hnil, E).
    unfold outcome. rewrite validate_reject by done.
    rewrite Herr, formatted_create. split; [done|].
    intros E. apply Hn. unfold ok. apply create_messages_nil.
    unfold create_errors in E. apply app_eq_nil in E as [E1 E2].
    split; [by destruct (heading_messages h) | by destruct (description_messages d)]. }
  split; [| split; [exact Hrej |]].
  - split.
    + intros [r' Hr']. destruct (decide ok) as [|Hn]; [done|].
      destruct (Hrej Hn) as [Hrej' _]. rewrite Hrej' in Hr'. discriminate.
    + intros Hok. eexists. unfold outcome. by apply validate_next, Hnil.
  - repeat split. eexists. reflexivity.
Qed.

(** The statement of [create_validation] at a heading of two characters. *)
Lemma create_validation_witness :
  validate (Chain.run_all postValidators.create (sample_create "ab" "0123456789"))
           (mkWorld ∅ ∅ ∅ ∅ ∅ [] [] [])
  = (Respond (mkResponse 400 (JValidation "Validation failed"
       [("heading", ["Heading must be between 3 and 200 characters"])])),
     mkWorld ∅ ∅ ∅ ∅ ∅ [] [] []).
Proof.
  pose proof (create_validation (sample_create "ab" "0123456789")
                (mkWorld ∅ ∅ ∅ ∅ ∅ [] [] []) eq_refl) as (_ & H & _).
  apply H. vm_compute. lia.
Defined.

(** ** Pagination *)

Lemma ceil_div_Z (a b : Z) : (0 < b)%Z → ceil_div a b = (- ((- a) / b))%Z.
Proof.
  intros Hb. unfold ceil_div, Qceiling. f_equal.
  destruct b as [|p|p]; try lia.
  unfold Qfloor, Qdiv, Qinv, Qmult, Qopp, inject_Z. simpl.
  by rewrite Z.mul_1_r.
Qed.

Lemma ceil_div_bounds (a b : Z) :
  (0 < b)%Z → ((ceil_div a b - 1) * b < a ≤ ceil_div a b * b)%Z.
Proof.
  intros Hb. rewrite ceil_div_Z by done.
  pose proof (Z.div_mod (- a) b ltac:(lia)).
  pose proof (Z.mod_pos_bound (- a) b Hb). nia.
Qed.

Lemma is_int_Number (lo : Z) (hi : option Z) (s : string) (dflt : Z) :
  Chain.is_int lo hi s = true →
  (lo ≤ Number (Some s) dflt)%Z ∧
  match hi with Some m => (Number (Some s) dflt ≤ m)%Z | None => True end.
Proof.
  unfold Chain.is_int, Number.
  destruct (Chain.int_of_string s) as [n|]; [|done]. simpl.
  intros [H1 H2]%andb_true_iff. apply Z.leb_le in H1.
  split; [done|]. destruct hi; [by apply Z.leb_le | done].
Qed.

(** A chain [optional; isInt] on a query field: the query is left as it
    is, and a value that is present and not an integer in range is reported. *)
Lemma run_query_int (f msg : string) (lo : Z) (hi : option Z) (r : Req) :
  let c := Chain.query f [Chain.optional; Chain.isInt lo hi msg] in
  query (Chain.run c r) = query r
  ∧ (errors (Chain.run c r) = [] ↔
     errors r = [] ∧ default true (Chain.is_int lo hi <$> query r !! f) = true).
Proof.
  intros c. unfold Chain.run, c, Chain.query. simpl.
  destruct (query r !! f) as [s|] eqn:E; simpl; [|tauto].
  rewrite bool_decide_eq_true_2 by done.
  destruct (Chain.is_int lo hi s); simpl; (split; [done|]).
  - rewrite app_nil_r. tauto.
  - split; [by intros [? ?]%app_eq_nil | by intros [_ ?]].
Qed.

(** The [search] chain rewrites at most the [search] key. *)
Lemma run_query_search (r : Req) :
  let c := Chain.query "search"
             [Chain.optional; Chain.trim;
              Chain.isLength 0 (Some 100) "Search query too long"] in
  (∀ g, g ≠ "search" → query (Chain.run c r) !! g = query r !! g)
  ∧ query (Chain.run c r) !! "search" = Js.trim <$> query r !! "search"
  ∧ (errors (Chain.run c r) = [] ↔
     errors r = [] ∧
     default true (Chain.is_length 0 (Some 100) <$> (Js.trim <$> query r !! "search"))
     = true).
Proof.
  intros c. unfold Chain.run, c, Chain.query. simpl.
  destruct (query r !! "search") as [s|] eqn:E; simpl; [|tauto].
  destruct (Chain.is_length 0 (Some 100) (Js.trim s)); simpl;
    case_bool_decide as Hs; simpl; (split; [|split]);
    try (intros g Hg; by rewrite ?lookup_insert_ne);
    try (by rewrite ?lookup_insert_eq);
    try (by simplify_eq; rewrite E; f_equal);
    try (rewrite app_nil_r; tauto);
    (split; [by intros [? ?]%app_eq_nil | by intros [_ ?]]).
Qed.

Lemma list_validators_run (r : Req) :
  let r' := Chain.run_all postValidators.list r in
  query r' !! "page" = query r !! "page"
  ∧ query r' !! "limit" = query r !! "limit"
  ∧ query r' !! "sort" = query r !! "sort"
  ∧ query r' !! "search" = Js.trim <$> query r !! "search"
  ∧ (errors r' = [] ↔ errors r = [] ∧ valid_list_query (query r) = true).
Proof.
  unfold Chain.run_all, postValidators.list. cbn [fold_left].
  pose proof (run_query_int "page" "Page must be a positive integer" 1 None r)
    as (Q1 & E1).
  set (r1 := Chain.run _ r) in *.
  pose proof (run_query_int "limit" "Limit must be between 1 and 100" 1
                (Some 100%Z) r1) as (Q2 & E2).
  set (r2 := Chain.run _ r1) in *.
  pose proof (run_query_search r2) as (Q3 & Q3' & E3).
  cbv zeta in *.
  rewrite Q3', !Q3, Q2, Q1 by done. do 4 (split; [done|]). split.
  - intros He. apply E3 in He as [He Hs]. apply E2 in He as [He Hl].
    apply E1 in He as [He Hp]. rewrite Q2, Q1 in Hs. rewrite Q1 in Hl.
    unfold valid_list_query. by rewrite Hp, Hl, Hs.
  - intros [He (Hpl & Hs)%andb_true_iff]. apply andb_true_iff in Hpl as [Hp Hl].
    apply E3. rewrite Q2, Q1. split; [|done].
    apply E2. rewrite Q1. split; [|done]. by apply E1.
Qed.

Lemma valid_list_query_bounds (q : gmap string string) :
  valid_list_query q = true →
  (1 ≤ Number (q !! "page") 1)%Z ∧ (1 ≤ Number (q !! "limit") 10 ≤ 100)%Z.
Proof.
  intros (Hpl & _)%andb_true_iff. apply andb_true_iff in Hpl as [Hp Hl].
  split.
  - destruct (q !! "page") as [s|]; [|done].
    by apply (is_int_Number 1 None s 1) in Hp as [? _].
  - destruct (q !! "limit") as [s|]; [|done].
    by apply (is_int_Number 1 (Some 100%Z) s 10) in Hl as [? ?].
Qed.

(** The list handler answers every request: with 500, or with the items
    and the pagination block computed from the count and the query. *)
Lemma getPosts_shape (r : Req) (w : World) :
  let p := Number (query r !! "page") 1 in
  let L := Number (query r !! "limit") 10 in
  ∃ resp w', getPosts r w = (Ok resp, w') ∧
    (resp = mkResponse 500 (JMessage false "Server error")
     ∨ ∃ items T, (0 ≤ T)%Z ∧
         resp = mkResponse 200
                  (JPosts items
                     (mkPagination (ceil_div T L) p T L (Z.ltb (p * L) T)))).
Proof.
  intros p L.
  unfold getPosts, try_catch, bind, Mongoose.find, Mongoose.countDocuments,
    Mongoose.call, ret, emit.
  repeat case_match; simplify_eq;
    (do 2 eexists; split; [reflexivity|]);
    first [ left; reflexivity
          | right; do 2 eexists; split; [apply Nat2Z.is_nonneg | reflexivity] ].
Qed.

Lemma pipeline_cons (m : Middleware) (ms : list Middleware) (r : Req) (w : World) :
  pipeline (m :: ms) r w =
    match m r w with
    | (Next r', w') => pipeline ms r' w'
    | (NextErr e, w') => (errorHandler e, w')
    | (Respond resp, w') => (resp, w')
    end.
Proof. reflexivity. Qed.

Lemma rateLimit_eq (l : Limiter) (r : Req) (w : World) :
  rateLimit l r w =
    if within l (ip r) w then (Next r, charge l (ip r) w)
    else (Respond (tooMany l), charge l (ip r) w).
Proof. reflexivity. Qed.

Lemma validate_eq (r : Req) (w : World) :
  validate r w =
    match errors r with
    | [] => (Next r, w)
    | _ :: _ => (Respond (validationFailed r), w)
    end.
Proof. reflexivity. Qed.

Lemma handler_last (h : Req → M Response) (r : Req) (w : World) :
  pipeline [handler h] r w = answer (h r w).
Proof.
  rewrite pipeline_cons. unfold handler, lift, answer.
  by destruct (h r w) as [[resp|e] w'].
Qed.

Lemma ip_parse_body (r : Req) : ip (parse_body r) = ip r.
Proof. unfold parse_body. by destruct (payload r). Qed.

Lemma query_parse_body (r : Req) : query (parse_body r) = query r.
Proof. unfold parse_body. by destruct (payload r). Qed.

Lemma errors_parse_body (r : Req) : errors (parse_body r) = [].
Proof. unfold parse_body. by destruct (payload r). Qed.

(** The list route, stage by stage. *)
Lemma app_list_eq (r : Req) (w : World) :
  route r = GetPosts →
  app r w =
    let w1 := charge apiLimiter (ip r) w in
    if within apiLimiter (ip r) w then
      let r' := Chain.run_all postValidators.list (parse_body r) in
      match errors r' with
      | [] => answer (getPosts r' w1)
      | _ :: _ => (validationFailed r', w1)
      end
    else (tooMany apiLimiter, w1).
Proof.
  intros Hr. unfold app. rewrite Hr. unfold router.
  rewrite pipeline_cons, rateLimit_eq, ip_parse_body.
  destruct (within apiLimiter (ip r) w); [|done].
  rewrite pipeline_cons. unfold validators at 1.
  rewrite pipeline_cons, validate_eq. cbv zeta.
  destruct (errors _); [|done]. apply handler_last.
Qed.

(** ** Strings *)

Lemma startsWith_spec (p s : string) :
  Js.startsWith p s = true ↔ ∃ b, s = p ++ b.
Proof.
  revert s. induction p as [|a p IH]; intros s; simpl.
  - split; [eauto | done].
  - destruct s as [|c s].
    + split; [done | intros [b Hb]; discriminate].
    + rewrite andb_true_iff, bool_decide_eq_true, IH. split.
      * intros [-> [b ->]]. eauto.
      * intros [b Hb]. injection Hb as -> ->. eauto.
Qed.

Lemma includes_spec (p s : string) :
  Js.includes p s = true ↔ ∃ a b, s = a ++ p ++ b.
Proof.
  induction s as [|c s IH]; simpl.
  - rewrite orb_false_r, startsWith_spec. split.
    + intros [b Hb]. exists "", b. done.
    + intros (a & b & H). destruct a; [eauto|discriminate].
  - rewrite orb_true_iff, startsWith_spec, IH. split.
    + intros [[b Hb] | (a & b & ->)].
      * exists "", b. done.
      * exists (String c a), b. done.
    + intros (a & b & H). destruct a as [|c' a]; simpl in H.
      * left. eauto.
      * right. injection H as -> ->. eauto.
Qed.

Lemma contains_ci_includes (t s : string) :
  contains_ci t s ↔ Js.includes (Js.toLowerCase t) (Js.toLowerCase s) = true.
Proof. unfold contains_ci. by rewrite includes_spec. Qed.

(** ** Regular expressions of literal terms *)

Lemma parse_literal (t : string) :
  literal_term t = true →
  Regex.parse t = Some (map Regex.Lit (list_ascii_of_string t)).
Proof.
  induction t as [|c t IH]; [done|].
  cbn [literal_term Regex.parse list_ascii_of_string map].
  intros [[Hm Ha]%andb_true_iff Ht]%andb_true_iff.
  apply negb_true_iff in Hm. apply Nat.ltb_lt in Ha.
  rewrite bool_decide_eq_false_2.
  - rewrite Hm, (proj2 (Nat.leb_gt _ _) Ha), IH by done. reflexivity.
  - intros ->. vm_compute in Hm. discriminate.
Qed.

Lemma match_here_literal (t s : string) :
  Regex.match_here true (map Regex.Lit (list_ascii_of_string t)) s
  = Js.startsWith (Js.toLowerCase t) (Js.toLowerCase s).
Proof.
  revert s. induction t as [|c t IH]; intros s; simpl; [done|].
  destruct s as [|x s]; simpl; [done|]. by rewrite IH.
Qed.

Lemma search_literal (t s : string) :
  Regex.search true (map Regex.Lit (list_ascii_of_string t)) s
  = Js.includes (Js.toLowerCase t) (Js.toLowerCase s).
Proof.
  induction s as [|x s IH]; simpl.
  - by rewrite (match_here_literal t "").
  - by rewrite (match_here_literal t (String x s)), IH.
Qed.

Lemma test_literal (t s : string) :
  literal_term t = true →
  Regex.test t "i" s = Some (Js.includes (Js.toLowerCase t) (Js.toLowerCase s)).
Proof.
  intros Ht. unfold Regex.test. rewrite parse_literal by done. simpl.
  by rewrite search_literal.
Qed.

(** ** The filter of the list handler *)

Lemma matches_list_filter (q : gmap string string) (p : Post) :
  modelled_term q = true →
  Mongoose.matches (list_filter q) p = Some (search_pred q p).
Proof.
  unfold modelled_term, list_filter, search_pred, Mongoose.matches.
  destruct (search_term q) as [t|]; [|done].
  intros [re Hre]%bool_decide_eq_true. rewrite Hre. simpl.
  unfold Mongoose.cond_matches, Regex.test. simpl. rewrite Hre. simpl.
  by rewrite orb_false_r.
Qed.

Lemma select_pred (f : Filter) (pred : Post → bool) (docs : list (string * Post)) :
  (∀ p, Mongoose.matches f p = Some (pred p)) →
  Mongoose.select f docs = Some (List.filter (fun d => pred d.2) docs).
Proof.
  intros H. induction docs as [|d docs IH]; simpl; [done|].
  rewrite H, IH. simpl. by destruct (pred d.2).
Qed.

Lemma select_list_filter (q : gmap string string) (w : World) :
  modelled_term q = true →
  Mongoose.select (list_filter q) (map_to_list (posts w)) = Some (matching q w).
Proof.
  intros H. apply select_pred. intros p. by apply matches_list_filter.
Qed.

(** ** Sorting keeps the documents *)

Lemma insert_doc_perm (keys : list (string * bool)) (d : string * Post)
      (l : list (string * Post)) :
  Mongoose.insert_doc keys d l ≡ₚ d :: l.
Proof.
  induction l as [|x l IH]; simpl; [done|].
  destruct (Mongoose.compare_docs keys d x); try done.
  rewrite IH. apply Permutation_swap.
Qed.

Lemma sort_docs_perm (keys : list (string * bool)) (l : list (string * Post)) :
  Mongoose.sort_docs keys l ≡ₚ l.
Proof.
  induction l as [|x l IH]; simpl; [done|].
  by rewrite insert_doc_perm, IH.
Qed.

Lemma page_of_subseteq (q : gmap string string) (ds : list (string * Post)) :
  page_of q ds ⊆ ds.
Proof.
  unfold page_of. intros d Hd.
  apply subseteq_take, subseteq_drop in Hd. by rewrite sort_docs_perm in Hd.
Qed.

(** ** The list handler when the store answers *)

Lemma getPosts_ok (r : Req) (q : gmap string string) (w : World) :
  query r !! "page" = q !! "page" →
  query r !! "limit" = q !! "limit" →
  query r !! "sort" = q !! "sort" →
  query r !! "search" = Js.trim <$> q !! "search" →
  modelled_term q = true →
  db_ok 2 w = true →
  getPosts r w =
    (Ok (mkResponse 200
           (JPosts (page_of q (matching q w))
                   (block_of q (Z.of_nat (length (matching q w)))))),
     after_db [EvFind; EvCountDocuments] 2 w).
Proof.
  intros Hp Hl Hs Hq Hm Hdb.
  pose proof (select_list_filter q w Hm) as Hsel.
  assert (Hf : match Js.trim <$> q !! "search" with
               | Some s => if Js.truthy s
                           then mkFilter (Some [ mkRegexCond "heading" s "i";
                                                 mkRegexCond "description" s "i" ])
                           else mkFilter None
               | None => mkFilter None
               end = list_filter q).
  { unfold list_filter, search_term.
    destruct (Js.trim <$> q !! "search") as [s|]; [by destruct (Js.truthy s)|done]. }
  unfold getPosts. cbv zeta. rewrite Hp, Hl, Hs, Hq, Hf.
  unfold try_catch, bind, Mongoose.find, Mongoose.countDocuments, Mongoose.call,
    ret, after_db, page_of, block_of, db_ok in *.
  destruct w as [ps a h1 h2 h3 tr dbf cf]. simpl in *.
  destruct dbf as [|[] [|[] dbf]]; simpl in *; try done;
    rewrite Hsel; simpl; rewrite ?Hsel; simpl; by rewrite <- ?app_assoc.
Qed.

(** The answer of the list route when the request is let through and the
    store answers. *)
Lemma app_list_ok (r : Req) (w : World) :
  route r = GetPosts →
  within apiLimiter (ip r) w = true →
  valid_list_query (query r) = true →
  modelled_term (query r) = true →
  db_ok 2 w = true →
  app r w =
    (mkResponse 200 (JPosts (page_of (query r) (matching (query r) w))
                            (block_of (query r)
                               (Z.of_nat (length (matching (query r) w))))),
     after_db [EvFind; EvCountDocuments] 2 (charge apiLimiter (ip r) w)).
Proof.
  intros Hr Hw Hv Hm Hdb.
  pose proof (list_validators_run (parse_body r)) as (Qp & Ql & Qs & Qq & He).
  cbv zeta in *. rewrite errors_parse_body, query_parse_body in *.
  rewrite (app_list_eq r w Hr). cbv zeta. rewrite Hw.
  destruct He as [_ He]. rewrite He by done.
  by rewrite (getPosts_ok _ (query r) (charge apiLimiter (ip r) w)).
Qed.

(** C5: the pagination block of every list response has
    [totalPages = ceil(T / L)] and [hasMore = (p * L < T)], for the total
    count [T], the page [p] and the limit [L] of the request; with 25 posts
    and a limit of 10, page 3 gives 3 pages and no more, page 2 gives more. *)
Theorem list_pagination (r : Req) (w : World) :
  route r = GetPosts →
  let q := query r in
  let p := Number (q !! "page") 1 in
  let L := Number (q !! "limit") 10 in
  (∀ items pg, json (app r w).1 = JPosts items pg →
     let T := totalPosts pg in
     currentPage pg = p ∧ limit pg = L
     ∧ (1 ≤ p)%Z ∧ (1 ≤ L ≤ 100)%Z ∧ (0 ≤ T)%Z
     ∧ ((totalPages pg - 1) * L < T ≤ totalPages pg * L)%Z
     ∧ (hasMore pg = true ↔ (p * L < T)%Z))
  ∧ (within apiLimiter (ip r) w = true → valid_list_query q = true →
     modelled_term q = true → db_ok 2 w = true →
     (app r w).1 =
       mkResponse 200 (JPosts (page_of q (matching q w))
                              (block_of q (Z.of_nat (length (matching q w))))))
  ∧ pagination_of
      (app (list_request (<["page" := "3"]> (<["limit" := "10"]> ∅)))
           (sample_world 25)).1
    = Some (mkPagination 3 3 25 10 false)
  ∧ pagination_of
      (app (list_request (<["page" := "2"]> (<["limit" := "10"]> ∅)))
           (sample_world 25)).1
    = Some (mkPagination 3 2 25 10 true).
Proof.
  intros Hr q p L.
  split; [|split; [|split; vm_compute; reflexivity]].
  - pose proof (list_validators_run (parse_body r)) as (Qp & Ql & Qs & Qq & He).
    cbv zeta in *. rewrite errors_parse_body, query_parse_body in *.
    set (r' := Chain.run_all postValidators.list (parse_body r)) in *.
    rewrite (app_list_eq r w Hr). cbv zeta. fold r'.
    intros items pg. destruct (within apiLimiter (ip r) w); [|done].
    destruct (errors r') eqn:E; [|done].
    destruct He as [He _]. specialize (He eq_refl) as [_ Hv].
    apply valid_list_query_bounds in Hv as [Hp HL]. fold q p L in Hp, HL.
    destruct (getPosts_shape r' (charge apiLimiter (ip r) w))
      as (resp & w' & -> & [-> | (its & T & HT & ->)]); [done|].
    simpl. rewrite Qp, Ql. fold q p L. intros [= <- <-]. simpl.
    pose proof (ceil_div_bounds T L ltac:(lia)).
    pose proof (Z.ltb_lt (p * L) T).
    repeat split; try done; try lia; try tauto.
  - intros Hw Hv Hm Hdb. by rewrite (app_list_ok r w).
Qed.

(** The statement of [list_pagination] on page 3 of 25 posts. *)
Lemma list_pagination_witness :
  route (list_request (<["page" := "3"]> (<["limit" := "10"]> ∅))) = GetPosts
  ∧ ∀ items pg,
      json (app (list_request (<["page" := "3"]> (<["limit" := "10"]> ∅)))
                (sample_world 25)).1 = JPosts items pg →
      totalPosts pg = 25%Z → totalPages pg = 3%Z ∧ hasMore pg = false.
Proof.
  split; [reflexivity|]. intros items pg H HT.
  pose proof (list_pagination
                (list_request (<["page" := "3"]> (<["limit" := "10"]> ∅)))
                (sample_world 25) eq_refl) as (Hpg & _).
  destruct (Hpg items pg H) as (_ & _ & _ & _ & _ & Hceil & Hmore).
  rewrite HT in Hceil, Hmore.
  change (Number _ 10) with 10%Z in Hceil, Hmore.
  change (Number _ 1) with 3%Z in Hmore.
  split; [lia|]. destruct (hasMore pg); [|done]. destruct Hmore as [Hm _].
  specialize (Hm eq_refl). lia.
Defined.

(** ** Search *)

Lemma search_pred_literal (q : gmap string string) (t : string) (p : Post) :
  search_term q = Some t → literal_term t = true →
  search_pred q p = true ↔ contains_ci t (heading p) ∨ contains_ci t (description p).
Proof.
  intros Ht Hl. unfold search_pred. rewrite Ht, parse_literal by done.
  rewrite !search_literal, orb_true_iff, !contains_ci_includes. done.
Qed.

Lemma modelled_literal (q : gmap string string) (t : string) :
  search_term q = Some t → literal_term t = true → modelled_term q = true.
Proof.
  intros Ht Hl. unfold modelled_term. rewrite Ht, parse_literal by done.
  by apply bool_decide_eq_true.
Qed.

Lemma matching_elem (q : gmap string string) (w : World) (id : string) (p : Post) :
  (id, p) ∈ matching q w ↔ posts w !! id = Some p ∧ search_pred q p = true.
Proof.
  unfold matching. rewrite list_elem_of_In, filter_In, <- list_elem_of_In.
  by rewrite elem_of_map_to_list.
Qed.

Lemma matching_all (q : gmap string string) (w : World) :
  search_term q = None → matching q w = map_to_list (posts w).
Proof.
  intros Hq. unfold matching, search_pred. rewrite Hq.
  induction (map_to_list (posts w)) as [|d l IH]; simpl; [done|]. by rewrite IH.
Qed.

Lemma page_of_all (q : gmap string string) (ds : list (string * Post)) :
  Number (q !! "page") 1 = 1%Z →
  (Z.of_nat (length ds) ≤ Number (q !! "limit") 10)%Z →
  page_of q ds ≡ₚ ds.
Proof.
  intros Hp Hl. unfold page_of. rewrite Hp.
  replace ((1 - 1) * Number (q !! "limit") 10)%Z with 0%Z by lia.
  change (Z.to_nat 0) with 0. rewrite drop_0, take_ge.
  - apply sort_docs_perm.
  - rewrite (Permutation_length (sort_docs_perm _ ds)). lia.
Qed.

(** C7, amended: for a search term of literal characters the list route
    selects exactly the stored posts whose heading or description contains
    the term, case ignored; without a term it selects every post.  The
    items answered are a page of the selected posts (all of them on page 1
    when the limit allows) and the total is their number.  "Hello World" is
    found by [hello] and not by [xyz]. *)
Theorem literal_search (r : Req) (w : World) :
  route r = GetPosts →
  within apiLimiter (ip r) w = true →
  valid_list_query (query r) = true →
  db_ok 2 w = true →
  let q := query r in
  (search_term q = None ∨ (∃ t, search_term q = Some t ∧ literal_term t = true) →
   ∃ items pg,
     (app r w).1 = mkResponse 200 (JPosts items pg)
     ∧ totalPosts pg = Z.of_nat (length (matching q w))
     ∧ items ⊆ matching q w
     ∧ (Number (q !! "page") 1 = 1%Z →
        (Z.of_nat (length (matching q w)) ≤ Number (q !! "limit") 10)%Z →
        items ≡ₚ matching q w))
  ∧ (∀ t, search_term q = Some t → literal_term t = true →
     ∀ id p, (id, p) ∈ matching q w ↔
             posts w !! id = Some p
             ∧ (contains_ci t (heading p) ∨ contains_ci t (description p)))
  ∧ (search_term q = None →
     ∀ id p, (id, p) ∈ matching q w ↔ posts w !! id = Some p)
  ∧ (app (list_request {[ "search" := "hello" ]}) hello_world).1
    = mkResponse 200 (JPosts [(sample_id 0, hello_post)]
                             (mkPagination 1 1 1 10 false))
  ∧ (app (list_request {[ "search" := "xyz" ]}) hello_world).1
    = mkResponse 200 (JPosts [] (mkPagination 0 1 0 10 false)).
Proof.
  intros Hr Hw Hv Hdb q.
  split; [|split; [|split; [|split; vm_compute; reflexivity]]].
  - intros Hq.
    assert (Hm : modelled_term q = true).
    { destruct Hq as [Hq | (t & Ht & Hl)].
      - unfold modelled_term. by rewrite Hq.
      - by apply (modelled_literal q t). }
    pose proof (app_list_ok r w Hr Hw Hv Hm Hdb) as Hok. fold q in Hok.
    do 2 eexists. split; [by rewrite Hok|]. split; [reflexivity|].
    split; [apply page_of_subseteq|]. apply page_of_all.
  - intros t Ht Hl id p. rewrite matching_elem.
    by rewrite (search_pred_literal q t p Ht Hl).
  - intros Hq id p. rewrite (matching_all q w Hq). apply elem_of_map_to_list.
Qed.

(** The statement of [literal_search] for the term [hello]. *)
Lemma literal_search_witness :
  route (list_request {[ "search" := "hello" ]}) = GetPosts
  ∧ within apiLimiter "203.0.113.7" hello_world = true
  ∧ valid_list_query {[ "search" := "hello" ]} = true
  ∧ db_ok 2 hello_world = true
  ∧ ∀ id p, (id, p) ∈ matching {[ "search" := "hello" ]} hello_world ↔
            posts hello_world !! id = Some p
            ∧ (contains_ci "hello" (heading p) ∨ contains_ci "hello" (description p)).
Proof.
  do 4 (split; [reflexivity|]).
  pose proof (literal_search (list_request {[ "search" := "hello" ]}) hello_world
                eq_refl eq_refl eq_refl eq_refl) as (_ & H & _).
  exact (H "hello" eq_refl eq_refl).
Defined.

(** C7 as stated fails: the term [.] is a regular expression that matches
    any character, so the post "Hello World" is listed for [search=.]
    although neither its heading nor its description contains a dot. *)
Lemma search_dot_counterexample :
  ¬ substring_search {[ "search" := "." ]} hello_world.
Proof.
  intros H.
  destruct (H "." [(sample_id 0, hello_post)] (mkPagination 1 1 1 10 false)
              eq_refl eq_refl (sample_id 0, hello_post) (list_elem_of_here _ _))
    as [Hc|Hc]; apply contains_ci_includes in Hc; vm_compute in Hc; discriminate.
Qed.

(** ** Frame rules *)

Section Frame.

Variable R : World → World → Prop.
Hypothesis R_refl : ∀ w, R w w.
Hypothesis R_trans : ∀ w1 w2 w3, R w1 w2 → R w2 w3 → R w1 w3.
Hypothesis R_trace : ∀ w t, R w (set_trace t w).
Hypothesis R_db_faults : ∀ w f, R w (set_db_faults f w).
Hypothesis R_cdn_faults : ∀ w f, R w (set_cdn_faults f w).
Hypothesis R_assets : ∀ w a, R w (set_assets a w).
Hypothesis R_save : ∀ id t d, frames R (Mongoose.save id t d).
Hypothesis R_update : ∀ id d t, frames R (Mongoose.findByIdAndUpdate id d t).
Hypothesis R_delete : ∀ id, frames R (Mongoose.findByIdAndDelete id).

Lemma frames_ret {A} (a : A) : frames R (ret a).
Proof. intros w. apply R_refl. Qed.

Lemma frames_throw {A} (e : Error) : frames R (@throw A e).
Proof. intros w. apply R_refl. Qed.

Lemma frames_bind {A B} (m : M A) (k : A → M B) :
frames R m → (∀ a, frames R (k a)) → frames R (bind m k).
Proof.
intros Hm Hk w. unfold bind. specialize (Hm w).
destruct (m w) as [[a|e] w1]; simpl in *; [|done].
eapply R_trans; [exact Hm | apply Hk].
Qed.

Lemma frames_try_catch {A} (m : M A) (h : Error → M A) :
frames R m → (∀ e, frames R (h e)) → frames R (try_catch m h).
Proof.
intros Hm Hh w. unfold try_catch. specialize (Hm w).
destruct (m w) as [[a|e] w1]; simpl in *; [done|].
eapply R_trans; [exact Hm | apply Hh].
Qed.

Lemma frames_when (b : bool) (m : M unit) :
frames R m → frames R (when b m).
Proof. destruct b; [done | intros _; apply frames_ret]. Qed.

Lemma frames_emit (e : Event) : frames R (emit e).
Proof. intros w. apply R_trace. Qed.

Lemma frames_db_call {A} (e : Event) (op : M A) :
frames R op → frames R (Mongoose.call e op).
Proof.
intros Hop w. unfold Mongoose.call.
destruct (db_faults (set_trace _ w)) as [|[] fs]; simpl.
- eapply R_trans; [apply R_trace | apply Hop].
- eapply R_trans; [apply R_trace | apply R_db_faults].
- eapply R_trans; [apply R_trace |].
  eapply R_trans; [apply R_db_faults | apply Hop].
Qed.

Lemma frames_cdn_call {A} (e : Event) (op : M A) :
frames R op → frames R (Cloudinary.call e op).
Proof.
intros Hop w. unfold Cloudinary.call.
destruct (cdn_faults (set_trace _ w)) as [|[] fs]; simpl.
- eapply R_trans; [apply R_trace | apply Hop].
- eapply R_trans; [apply R_trace | apply R_cdn_faults].
- eapply R_trans; [apply R_trace |].
  eapply R_trans; [apply R_cdn_faults | apply Hop].
Qed.

Lemma frames_findById (id : string) : frames R (Mongoose.findById id).
Proof.
unfold Mongoose.findById. destruct (Mongoose.castObjectId id).
- apply frames_db_call. intros w. apply R_refl.
- apply frames_throw.
Qed.

Lemma frames_find (f : Filter) (s : string) (l k : Z) :
frames R (Mongoose.find f s l k).
Proof.
apply frames_db_call. intros w. destruct (Mongoose.select _ _); apply R_refl.
Qed.

Lemma frames_countDocuments (f : Filter) : frames R (Mongoose.countDocuments f).
Proof.
apply frames_db_call. intros w. destruct (Mongoose.select _ _); apply R_refl.
Qed.

Lemma frames_destroy (publicId : string) : frames R (Cloudinary.destroy publicId).
Proof. apply frames_cdn_call. intros w. apply R_assets. Qed.

Lemma frames_upload (img : ImagePart) : frames R (Cloudinary.upload img).
Proof. apply frames_cdn_call. intros w. apply R_assets. Qed.

Lemma frames_deleteImage (imageUrl : string) : frames R (deleteImage imageUrl).
Proof.
unfold deleteImage. apply frames_try_catch.
- destruct (negb _); [apply frames_ret|].
  apply frames_bind; [apply frames_destroy | intros; apply frames_emit].
- intros e. apply frames_emit.
Qed.

Lemma frames_getPosts (r : Req) : frames R (getPosts r).
Proof.
unfold getPosts. apply frames_try_catch.
- cbv zeta. apply frames_bind; [apply frames_find|]. intros ds.
  apply frames_bind; [apply frames_countDocuments|]. intros T. apply frames_ret.
- intros e. apply frames_bind; [apply frames_emit | intros; apply frames_ret].
Qed.

Lemma frames_getPostById (r : Req) : frames R (getPostById r).
Proof.
unfold getPostById. apply frames_try_catch.
- apply frames_bind; [apply frames_findById|]. intros [?|]; apply frames_ret.
- intros e. apply frames_bind; [apply frames_emit | intros; apply frames_ret].
Qed.

Lemma frames_createPost (r : Req) : frames R (createPost r).
Proof.
unfold createPost. apply frames_try_catch.
- cbv zeta. apply frames_bind; [apply R_save | intros; apply frames_ret].
- intros e. apply frames_bind; [apply frames_emit | intros; apply frames_ret].
Qed.

Lemma frames_updatePost (r : Req) : frames R (updatePost r).
Proof.
unfold updatePost. apply frames_try_catch.
- cbv zeta. apply frames_bind; [apply frames_findById|].
  intros [[k e]|]; [|apply frames_ret].
  apply frames_bind.
  + destruct (file r); [|apply frames_ret].
    apply frames_bind; [apply frames_when, frames_deleteImage|].
    intros; apply frames_ret.
  + intros d. apply frames_bind; [apply R_update|].
    intros; apply frames_ret.
- intros e. apply frames_bind; [apply frames_emit | intros; apply frames_ret].
Qed.

Lemma frames_deletePost (r : Req) : frames R (deletePost r).
Proof.
unfold deletePost. apply frames_try_catch.
- cbv zeta. apply frames_bind; [apply frames_findById|].
  intros [[k e]|]; [|apply frames_ret].
  apply frames_bind; [apply frames_when, frames_deleteImage|]. intros _.
  apply frames_bind; [apply R_delete|]. intros; apply frames_ret.
- intros e. apply frames_bind; [apply frames_emit | intros; apply frames_ret].
Qed.

Lemma frames_handler (h : Req → M Response) :
(∀ r, frames R (h r)) → frames_mw R (handler h).
Proof.
intros Hh r w. unfold handler, lift. specialize (Hh r w).
by destruct (h r w) as [[resp|e] w'].
Qed.

Lemma frames_auth : frames_mw R auth.
Proof. intros r w. unfold auth. destruct (identity r); apply R_refl. Qed.

Lemma frames_validators (cs : list Chain.t) : frames_mw R (validators cs).
Proof. intros r w. apply R_refl. Qed.

Lemma frames_validate : frames_mw R validate.
Proof. intros r w. unfold validate. destruct (errors r); apply R_refl. Qed.

Lemma frames_upload_single : frames_mw R upload_single.
Proof.
intros r w. unfold upload_single.
destruct (payload r) as [| |fields [img|]]; try apply R_refl.
destruct (fileFilter img); [|apply R_refl].
destruct (Z.ltb _ _); [apply R_refl|].
unfold lift. pose proof (frames_upload img w) as H.
by destruct (Cloudinary.upload img w) as [[f|e] w'].
Qed.

Lemma frames_pipeline (ms : list Middleware) :
Forall (frames_mw R) ms → ∀ r w, R w (pipeline ms r w).2.
Proof.
induction 1 as [|m ms Hm _ IH]; intros r w; simpl; [apply R_refl|].
specialize (Hm r w). destruct (m r w) as [[r'|e|resp] w']; simpl in *; try done.
eapply R_trans; [exact Hm | apply IH].
Qed.

End Frame.

(** A relation that no change of the Record Store breaks is kept by the
    three operations that write to it. *)
Section FramePosts.

Variable R : World → World → Prop.
Hypothesis R_refl : ∀ w, R w w.
Hypothesis R_trans : ∀ w1 w2 w3, R w1 w2 → R w2 w3 → R w1 w3.
Hypothesis R_trace : ∀ w t, R w (set_trace t w).
Hypothesis R_db_faults : ∀ w f, R w (set_db_faults f w).
Hypothesis R_posts : ∀ w p, R w (set_posts p w).

Lemma frames_save (id : string) (t : Z) (d : PostData) :
frames R (Mongoose.save id t d).
Proof.
unfold Mongoose.save.
destruct (Js.trim <$> data_heading d), (Js.trim <$> data_description d);
  try by apply frames_throw.
destruct (_ && _); [|by apply frames_throw].
apply frames_db_call; try done. intros w. destruct (posts w !! id); [apply R_refl|].
apply R_posts.
Qed.

Lemma frames_findByIdAndUpdate (id : string) (d : PostData) (t : Z) :
frames R (Mongoose.findByIdAndUpdate id d t).
Proof.
unfold Mongoose.findByIdAndUpdate.
destruct (Mongoose.castObjectId id) as [k|]; [|by apply frames_throw].
destruct (Mongoose.update_ok d); [|by apply frames_throw].
apply frames_db_call; try done. intros w. destruct (posts w !! k); [|apply R_refl].
apply R_posts.
Qed.

Lemma frames_findByIdAndDelete (id : string) :
frames R (Mongoose.findByIdAndDelete id).
Proof.
unfold Mongoose.findByIdAndDelete.
destruct (Mongoose.castObjectId id) as [k|]; [|by apply frames_throw].
apply frames_db_call; try done. intros w. apply R_posts.
Qed.

End FramePosts.

(** ** The routes, stage by stage *)

Lemma app_posts_eq (r : Req) (w : World) :
  route r ≠ AuthRoutes →
  app r w =
    if within apiLimiter (ip r) w
    then pipeline (router (route r)) (parse_body r) (charge apiLimiter (ip r) w)
    else (tooMany apiLimiter, charge apiLimiter (ip r) w).
Proof.
  intros Hr. unfold app.
  destruct (route r); try done;
    rewrite pipeline_cons, rateLimit_eq, ip_parse_body;
    by destruct (within apiLimiter (ip r) w).
Qed.

Lemma app_auth_eq (r : Req) (w : World) :
  route r = AuthRoutes →
  app r w =
    if within authLimiter (ip r) w
    then (mkResponse 200 JDelegated, charge authLimiter (ip r) w)
    else (tooMany authLimiter, charge authLimiter (ip r) w).
Proof.
  intros Hr. unfold app. rewrite Hr.
  rewrite pipeline_cons, rateLimit_eq, ip_parse_body.
  by destruct (within authLimiter (ip r) w).
Qed.

Lemma pipeline_guarded (ms : list Middleware) (r : Req) (w : World) :
  pipeline (auth :: rateLimit uploadLimiter :: ms) r w =
    match identity r with
    | None => (unauthenticated, w)
    | Some _ =>
        if within uploadLimiter (ip r) w
        then pipeline ms r (charge uploadLimiter (ip r) w)
        else (tooMany uploadLimiter, charge uploadLimiter (ip r) w)
    end.
Proof.
  rewrite pipeline_cons. unfold auth. destruct (identity r); [|done].
  rewrite pipeline_cons, rateLimit_eq.
  by destruct (within uploadLimiter (ip r) w).
Qed.

Lemma pipeline_validation (cs : list Chain.t) (h : Req → M Response)
      (r : Req) (w : World) :
  pipeline [validators cs; validate; handler h] r w =
    match errors (Chain.run_all cs r) with
    | [] => answer (h (Chain.run_all cs r) w)
    | _ :: _ => (validationFailed (Chain.run_all cs r), w)
    end.
Proof.
  rewrite pipeline_cons. unfold validators at 1.
  rewrite pipeline_cons, validate_eq.
  destruct (errors _); [apply handler_last | done].
Qed.

(** ** Hit counters *)

Lemma hits_charge_same (l : Limiter) (c : Class) (addr : string) (w : World) :
  c = store l →
  hits c (charge l addr w) = <[addr := S (default 0 (hits c w !! addr))]> (hits c w).
Proof. intros ->. unfold charge. by destruct (store l). Qed.

Lemma hits_charge_other (l : Limiter) (c : Class) (addr : string) (w : World) :
  c ≠ store l → hits c (charge l addr w) = hits c w.
Proof. unfold charge. by destruct (store l), c. Qed.

Lemma frames_rateLimit_other (l : Limiter) (c : Class) :
  c ≠ store l → frames_mw (same_hits c) (rateLimit l).
Proof.
  intros Hc r w. rewrite rateLimit_eq. unfold same_hits.
  destruct (within l (ip r) w); simpl; by apply hits_charge_other.
Qed.

Ltac rel_hits :=
  unfold same_hits; intros; try congruence; try done;
  match goal with |- hits ?c _ = hits ?c _ => by destruct c end.

Lemma same_hits_upload_single (c : Class) : frames_mw (same_hits c) upload_single.
Proof. apply frames_upload_single; rel_hits. Qed.

Lemma same_hits_save (c : Class) (id : string) (t : Z) (d : PostData) :
  frames (same_hits c) (Mongoose.save id t d).
Proof. apply frames_save; rel_hits. Qed.

Lemma same_hits_findByIdAndUpdate (c : Class) (id : string) (d : PostData) (t : Z) :
  frames (same_hits c) (Mongoose.findByIdAndUpdate id d t).
Proof. apply frames_findByIdAndUpdate; rel_hits. Qed.

Lemma same_hits_findByIdAndDelete (c : Class) (id : string) :
  frames (same_hits c) (Mongoose.findByIdAndDelete id).
Proof. apply frames_findByIdAndDelete; rel_hits. Qed.

Lemma same_hits_handlers (c : Class) :
  Forall (λ h, ∀ r, frames (same_hits c) (h r))
         [getPosts; getPostById; createPost; updatePost; deletePost].
Proof.
  repeat apply Forall_cons_2; try apply Forall_nil_2; intros r.
  - apply frames_getPosts; rel_hits.
  - apply frames_getPostById; rel_hits.
  - apply frames_createPost; first [apply same_hits_save | rel_hits].
  - apply frames_updatePost; first [apply same_hits_findByIdAndUpdate | rel_hits].
  - apply frames_deletePost; first [apply same_hits_findByIdAndDelete | rel_hits].
Qed.

(** The stages behind the limiters leave the hit counters alone. *)
Lemma validated_same_hits (c : Class) (cs : list Chain.t) (h : Req → M Response) :
  h ∈ [getPosts; getPostById; createPost; updatePost; deletePost] →
  Forall (frames_mw (same_hits c)) [validators cs; validate; handler h].
Proof.
  intros Hh. pose proof (same_hits_handlers c) as Hall.
  rewrite Forall_forall in Hall. specialize (Hall h Hh).
  repeat apply Forall_cons_2; try apply Forall_nil_2.
  - apply frames_validators; rel_hits.
  - apply frames_validate; rel_hits.
  - by apply frames_handler.
Qed.

Lemma pipeline_same_hits (c : Class) (ms : list Middleware) (r : Req) (w : World) :
  Forall (frames_mw (same_hits c)) ms → hits c (pipeline ms r w).2 = hits c w.
Proof. intros H. apply (frames_pipeline (same_hits c)); try done; rel_hits. Qed.

Lemma frames_auth_hits (c : Class) : frames_mw (same_hits c) auth.
Proof. apply frames_auth; rel_hits. Qed.

Lemma router_same_hits (c : Class) (rt : Route) (r : Req) (w : World) :
  (c = Upload → rt ≠ PostPost ∧ rt ≠ PutPost) →
  hits c (pipeline (router rt) r w).2 = hits c w.
Proof.
  intros Hc. apply pipeline_same_hits.
  assert (Hup : rt = PostPost ∨ rt = PutPost → c ≠ store uploadLimiter)
    by (intros Hrt Hu; destruct (Hc Hu), Hrt; done).
  clear Hc.
  destruct rt; simpl; try apply Forall_nil_2;
    repeat (first [ apply Forall_cons_2; [apply frames_auth_hits|]
                  | apply Forall_cons_2; [apply same_hits_upload_single|]
                  | apply Forall_cons_2;
                    [apply frames_rateLimit_other, Hup; tauto|] ]);
    apply validated_same_hits; set_solver.
Qed.

(** C4, amended: every request under [/api/posts] is charged to the
    general class (100 per 15 minutes) and every request under [/api/auth]
    to the authentication class (20 per 15 minutes), each exactly once.  A
    create or update request that is let through by the general limiter and
    the authorization check is charged to the upload class (50 per 60
    minutes) as well, whether or not an image is attached; list, get and
    delete requests are never charged to it. *)
Theorem admission_classes (r : Req) (w : World) :
  let w' := (app r w).2 in
  let count c := default 0 (hits c w !! ip r) in
  (max apiLimiter = 100 ∧ windowMs apiLimiter = (15 * 60 * 1000)%Z
   ∧ max authLimiter = 20 ∧ windowMs authLimiter = (15 * 60 * 1000)%Z
   ∧ max uploadLimiter = 50 ∧ windowMs uploadLimiter = (60 * 60 * 1000)%Z)
  ∧ (route r = AuthRoutes →
     hits Authentication w' = <[ip r := S (count Authentication)]> (hits Authentication w)
     ∧ hits General w' = hits General w
     ∧ hits Upload w' = hits Upload w)
  ∧ (route r ≠ AuthRoutes →
     hits General w' = <[ip r := S (count General)]> (hits General w)
     ∧ hits Authentication w' = hits Authentication w
     ∧ ((100 ≤ count General)%nat → (app r w).1 = tooMany apiLimiter))
  ∧ (route r = GetPosts ∨ route r = GetPostById ∨ route r = DeletePost →
     hits Upload w' = hits Upload w)
  ∧ (route r = PostPost ∨ route r = PutPost →
     hits Upload w' =
       if within apiLimiter (ip r) w && bool_decide (is_Some (identity r))
       then <[ip r := S (count Upload)]> (hits Upload w)
       else hits Upload w).
Proof.
  intros w' count. split; [by repeat split|]. subst w'.
  split; [|split; [|split]].
  - intros Hr. rewrite (app_auth_eq r w Hr).
    destruct (within authLimiter (ip r) w); cbn [fst snd];
      by rewrite (hits_charge_same authLimiter), !(hits_charge_other authLimiter).
  - intros Hr. rewrite (app_posts_eq r w Hr).
    destruct (within apiLimiter (ip r) w) eqn:Hw; cbn [fst snd].
    + rewrite !router_same_hits by done.
      rewrite (hits_charge_same apiLimiter), (hits_charge_other apiLimiter) by done.
      repeat split. intros Hc. unfold within in Hw. apply Nat.leb_le in Hw.
      simpl in Hw. unfold count in Hc. simpl in Hc. lia.
    + by rewrite (hits_charge_same apiLimiter), (hits_charge_other apiLimiter).
  - intros Hr. rewrite (app_posts_eq r w) by (by destruct Hr as [->|[->| ->]]).
    destruct (within apiLimiter (ip r) w); cbn [fst snd].
    + rewrite router_same_hits by (by intros _; destruct Hr as [->|[->| ->]]).
      by apply hits_charge_other.
    + by apply hits_charge_other.
  - intros Hr. rewrite (app_posts_eq r w) by (by destruct Hr as [->| ->]).
    destruct (within apiLimiter (ip r) w); cbn [fst snd];
      [|by apply hits_charge_other].
    assert (Hid : identity (parse_body r) = identity r)
      by (unfold parse_body; by destruct (payload r)).
    assert (Hcount : S (default 0 (hits Upload
                (charge apiLimiter (ip r) w) !! ip r)) = S (count Upload))
      by (unfold count; by rewrite (hits_charge_other apiLimiter)).
    destruct Hr as [-> | ->]; unfold router;
      rewrite pipeline_guarded, Hid, ip_parse_body;
      (destruct (identity r) as [u|]; cbn [fst snd];
       [ rewrite bool_decide_eq_true_2 by eauto
       | rewrite bool_decide_eq_false_2 by (by intros [? ?]);
         by apply hits_charge_other ]);
      (destruct (within uploadLimiter _ _); cbn [fst snd];
       [ rewrite pipeline_same_hits
           by (apply Forall_cons_2; [apply same_hits_upload_single|];
               apply validated_same_hits; set_solver) | ]);
      by rewrite (hits_charge_same uploadLimiter), Hcount,
                 (hits_charge_other apiLimiter).
Qed.

(** The statement of [admission_classes] on a creation without image: the
    request is counted by the general and by the upload limiter. *)
Lemma admission_classes_witness :
  route (post_request (sample_fields "abc" "0123456789") None) = PostPost
  ∧ hits General (app (post_request (sample_fields "abc" "0123456789") None)
                      empty_world).2 = {[ "203.0.113.7" := 1 ]}
  ∧ hits Upload (app (post_request (sample_fields "abc" "0123456789") None)
                     empty_world).2 = {[ "203.0.113.7" := 1 ]}.
Proof.
  split; [reflexivity|].
  pose proof (admission_classes (post_request (sample_fields "abc" "0123456789") None)
                empty_world) as (_ & _ & Hg & _ & Hu).
  split.
  - by destruct (Hg ltac:(done)) as [-> _].
  - by rewrite (Hu (or_introl eq_refl)).
Defined.

(** C4 as stated fails: a creation request without image is charged to
    the general class and to the upload class. *)
Lemma create_charged_twice :
  ¬ charged_once (post_request (sample_fields "abc" "0123456789") None) empty_world.
Proof.
  intros (c & _ & Huniq).
  assert (General = c) as <-.
  { apply Huniq. unfold charged. vm_compute. discriminate. }
  assert (Upload = General) by (apply Huniq; unfold charged; vm_compute; discriminate).
  discriminate.
Qed.

(** ** Handlers always answer *)

Lemma total_ret {A} (a : A) : total (ret a).
Proof. intros w. by exists a. Qed.

Lemma total_emit (e : Event) : total (emit e).
Proof. intros w. by exists tt. Qed.

Lemma total_bind {A B} (m : M A) (k : A → M B) :
  total m → (∀ a, total (k a)) → total (bind m k).
Proof.
  intros Hm Hk w. unfold bind. destruct (Hm w) as [a Ha].
  destruct (m w) as [[a'|e] w1]; simpl in *; [|done]. apply Hk.
Qed.

Lemma total_try_catch {A} (m : M A) (h : Error → M A) :
  (∀ e, total (h e)) → total (try_catch m h).
Proof.
  intros Hh w. unfold try_catch.
  destruct (m w) as [[a|e] w1]; simpl; [by exists a | apply Hh].
Qed.

Lemma answers_ret {A} (P : A → Prop) (a : A) : P a → answers P (ret a).
Proof. intros H w a' [= <-]. done. Qed.

Lemma answers_bind {A B} (P : B → Prop) (m : M A) (k : A → M B) :
  (∀ a, answers P (k a)) → answers P (bind m k).
Proof.
  intros Hk w b. unfold bind.
  destruct (m w) as [[a|e] w1]; simpl; [apply Hk | done].
Qed.

Lemma answers_try_catch {A} (P : A → Prop) (m : M A) (h : Error → M A) :
  answers P m → (∀ e, answers P (h e)) → answers P (try_catch m h).
Proof.
  intros Hm Hh w a. unfold try_catch. specialize (Hm w).
  destruct (m w) as [[a'|e] w1]; simpl in *; [apply Hm | apply Hh].
Qed.

Lemma handlers_total (r : Req) :
  total (getPosts r) ∧ total (getPostById r) ∧ total (createPost r)
  ∧ total (updatePost r) ∧ total (deletePost r).
Proof.
  unfold getPosts, getPostById, createPost, updatePost, deletePost.
  repeat split; apply total_try_catch; intros e;
    (apply total_bind; [apply total_emit | intros; apply total_ret]).
Qed.

Lemma deleteImage_total (imageUrl : string) : total (deleteImage imageUrl).
Proof. apply total_try_catch. intros e. apply total_emit. Qed.

Ltac answers_step :=
  first [ apply answers_ret; by intros ? ?
        | apply answers_bind; intros ?
        | match goal with |- answers _ (match ?x with _ => _ end) => destruct x end ].

Lemma handlers_not_validation (r : Req) :
  answers not_validation (createPost r)
  ∧ answers not_validation (updatePost r)
  ∧ answers not_validation (deletePost r).
Proof.
  repeat split; apply answers_try_catch; try (intros e; repeat answers_step);
    cbv zeta; repeat answers_step.
Qed.

Lemma answer_not_validation (h : Req → M Response) (r : Req) (w : World) :
  total (h r) → answers not_validation (h r) → not_validation (answer (h r w)).1.
Proof.
  intros Ht Ha. destruct (Ht w) as [resp Hresp]. specialize (Ha w resp Hresp).
  unfold answer. destruct (h r w) as [[resp'|e] w']; simpl in *; [|done].
  by simplify_eq.
Qed.

Lemma errorHandler_not_validation (e : Error) : not_validation (errorHandler e).
Proof. intros msg errs. unfold errorHandler. repeat case_bool_decide; done. Qed.

(** ** Multipart handling before validation *)

Lemma upload_single_next (r r' : Req) (w w' : World) :
  upload_single r w = (Next r', w') →
  w' = match sent_image r with
       | Some img => after_upload img w
       | None => w
       end.
Proof.
  unfold upload_single, sent_image.
  destruct (payload r) as [| |fields [img|]]; try by intros [= _ <-].
  destruct (fileFilter img); [|done]. destruct (Z.ltb _ _); [done|].
  unfold lift, Cloudinary.upload, Cloudinary.call, after_upload.
  destruct w as [ps a h1 h2 h3 tr dbf cf]. simpl.
  destruct cf as [|[] cf]; simpl; try done; by intros [= _ <-].
Qed.

Lemma upload_single_respond (r : Req) (w w' : World) (resp : Response) :
  upload_single r w ≠ (Respond resp, w').
Proof.
  unfold upload_single.
  destruct (payload r) as [| |fields [img|]]; try congruence.
  destruct (fileFilter img); [|congruence].
  destruct (Z.ltb fileSize (size img)); [congruence|].
  unfold lift. destruct (Cloudinary.upload img w) as [[f|e] w1]; congruence.
Qed.

Lemma payload_parse_body (r : Req) : payload (parse_body r) = payload r.
Proof. unfold parse_body. by destruct (payload r) eqn:E. Qed.

Lemma identity_parse_body (r : Req) : identity (parse_body r) = identity r.
Proof. unfold parse_body. by destruct (payload r). Qed.

(** The world in which a guarded multipart route reports failed validation. *)
Lemma guarded_rejected_world (cs : list Chain.t) (h : Req → M Response)
      (r : Req) (w : World) (msg : string) (errs : list (string * list string)) :
  (∀ r' w', not_validation (answer (h r' w')).1) →
  json (pipeline [auth; rateLimit uploadLimiter; upload_single;
                  validators cs; validate; handler h] r w).1
  = JValidation msg errs →
  (pipeline [auth; rateLimit uploadLimiter; upload_single;
             validators cs; validate; handler h] r w).2
  = match sent_image r with
    | Some img => after_upload img (charge uploadLimiter (ip r) w)
    | None => charge uploadLimiter (ip r) w
    end.
Proof.
  intros Hh. rewrite pipeline_guarded.
  destruct (identity r); [|done].
  destruct (within uploadLimiter (ip r) w); [|done].
  rewrite pipeline_cons.
  destruct (upload_single r _) as [[r'|e|resp] w'] eqn:E.
  - apply upload_single_next in E as ->. rewrite pipeline_validation.
    destruct (errors _); [|done]. intros H. by apply Hh in H.
  - intros H. by apply errorHandler_not_validation in H.
  - by apply upload_single_respond in E.
Qed.

Lemma handlers_answer_not_validation (r : Req) (w : World) :
  not_validation (answer (createPost r w)).1
  ∧ not_validation (answer (updatePost r w)).1
  ∧ not_validation (answer (deletePost r w)).1.
Proof.
  destruct (handlers_total r) as (_ & _ & T1 & T2 & T3).
  destruct (handlers_not_validation r) as (A1 & A2 & A3).
  repeat split; by apply answer_not_validation.
Qed.

Lemma rejected_world (r : Req) (w : World) (msg : string)
      (errs : list (string * list string)) :
  route r = PostPost ∨ route r = PutPost ∨ route r = DeletePost →
  json (app r w).1 = JValidation msg errs →
  (app r w).2 =
    match route r with
    | DeletePost => charge apiLimiter (ip r) w
    | _ =>
        match sent_image r with
        | Some img =>
            after_upload img (charge uploadLimiter (ip r) (charge apiLimiter (ip r) w))
        | None => charge uploadLimiter (ip r) (charge apiLimiter (ip r) w)
        end
    end.
Proof.
  intros Hr. rewrite (app_posts_eq r w) by (by destruct Hr as [->|[->| ->]]).
  destruct (within apiLimiter (ip r) w); [|done].
  assert (Hs : sent_image (parse_body r) = sent_image r)
    by (unfold sent_image; by rewrite payload_parse_body).
  destruct Hr as [->|[->| ->]]; unfold router.
  - intros H. apply guarded_rejected_world in H;
      [by rewrite H, Hs, ip_parse_body |].
    intros r' w'. apply handlers_answer_not_validation.
  - intros H. apply guarded_rejected_world in H;
      [by rewrite H, Hs, ip_parse_body |].
    intros r' w'. apply handlers_answer_not_validation.
  - rewrite pipeline_cons. unfold auth. rewrite identity_parse_body.
    destruct (identity r); [|done]. rewrite pipeline_validation.
    destruct (errors _); [|done].
    intros H. by apply handlers_answer_not_validation in H.
Qed.

(** C3, amended: when the body fields of a mutating request fail
    validation, no record has been created, modified or deleted and no blob
    has been deleted; but the multipart stage runs before the validators, so
    the image attached to a create or update request has already been
    uploaded to the Asset Store, and stays there. *)
Theorem rejected_after_upload (r : Req) (w : World) (msg : string)
        (errs : list (string * list string)) :
  route r = PostPost ∨ route r = PutPost ∨ route r = DeletePost →
  json (app r w).1 = JValidation msg errs →
  let w' := (app r w).2 in
  posts w' = posts w
  ∧ match uploads r with
    | None => assets w' = assets w ∧ trace w' = trace w
    | Some img =>
        assets w' = {[ Cloudinary.full_public_id img ]} ∪ assets w
        ∧ trace w' = (trace w ++ [EvUpload (Cloudinary.full_public_id img)])%list
    end.
Proof.
  intros Hr H w'. subst w'. rewrite (rejected_world r w msg errs Hr H).
  unfold uploads.
  destruct Hr as [->|[->| ->]]; destruct (sent_image r); simpl; try done;
    unfold charge; by destruct w.
Qed.

(** The statement of [rejected_after_upload] on a creation with a heading
    of two characters and an image. *)
Lemma rejected_after_upload_witness :
  json (app (post_request (sample_fields "ab" "0123456789") (Some sample_image))
            empty_world).1
  = JValidation "Validation failed"
      [("heading", ["Heading must be between 3 and 200 characters"])]
  ∧ posts (app (post_request (sample_fields "ab" "0123456789") (Some sample_image))
               empty_world).2 = ∅
  ∧ assets (app (post_request (sample_fields "ab" "0123456789") (Some sample_image))
                empty_world).2 = {[ "blog-uploads/blog_1700000000000_42" ]} ∪ ∅.
Proof.
  assert (Hj : json (app (post_request (sample_fields "ab" "0123456789")
                                       (Some sample_image)) empty_world).1
               = JValidation "Validation failed"
                   [("heading", ["Heading must be between 3 and 200 characters"])])
    by (vm_compute; reflexivity).
  split; [exact Hj|].
  pose proof (rejected_after_upload
                (post_request (sample_fields "ab" "0123456789") (Some sample_image))
                empty_world _ _ (or_introl eq_refl) Hj) as [Hp Ha].
  split; [exact Hp | exact (proj1 Ha)].
Defined.

(** C3 as stated fails: a creation request with too short a heading is
    answered with the validation error after its image was stored. *)
Lemma upload_before_validation :
  ¬ rejected_without_effect
      (post_request (sample_fields "ab" "0123456789") (Some sample_image))
      empty_world.
Proof.
  intros H.
  assert (Hj : json (app (post_request (sample_fields "ab" "0123456789")
                                       (Some sample_image)) empty_world).1
               = JValidation "Validation failed"
                   [("heading", ["Heading must be between 3 and 200 characters"])])
    by (vm_compute; reflexivity).
  destruct (H _ _ Hj) as [_ Ha].
  assert (Hin : "blog-uploads/blog_1700000000000_42" ∈
                assets (app (post_request (sample_fields "ab" "0123456789")
                                          (Some sample_image)) empty_world).2)
    by (vm_compute; set_solver).
  rewrite Ha in Hin. set_solver.
Qed.

(** ** Asset cleanup is best effort *)

Lemma publicId_of_eq (imageUrl : string) :
  "blog-uploads/" ++ List.hd "" (Js.split "." (List.last (Js.split "/" imageUrl) ""))
  = publicId_of imageUrl.
Proof. reflexivity. Qed.

(** What [deleteImage] does, by the outcome of the asset store. *)
Lemma deleteImage_eq (imageUrl : string) (w : World) :
  deleteImage imageUrl w =
    if negb (Js.truthy imageUrl) then (Ok tt, w)
    else
      let pid := publicId_of imageUrl in
      match cdn_faults w with
      | true :: fs =>
          (Ok tt, set_trace (trace w ++ [EvDestroy pid;
                                         EvConsoleError "Error deleting image:"])%list
                    (set_cdn_faults fs w))
      | fs =>
          (Ok tt, set_trace (trace w ++ [EvDestroy pid;
                                         EvConsoleLog ("Deleted image: " ++ pid)])%list
                    (set_assets (assets w ∖ {[pid]}) (set_cdn_faults (tail fs) w)))
      end.
Proof.
  unfold deleteImage, try_catch. destruct (negb _); [done|].
  cbv zeta. rewrite publicId_of_eq.
  unfold bind, Cloudinary.destroy, Cloudinary.call, emit.
  destruct w as [ps a h1 h2 h3 tr dbf cf]. simpl.
  destruct cf as [|[] cf]; simpl; by rewrite <- ?app_assoc.
Qed.

Lemma record_bound_ret {A} (a : A) : record_bound (ret a).
Proof. by intros w1 w2 H. Qed.

Lemma record_bound_throw {A} (e : Error) : record_bound (@throw A e).
Proof. by intros w1 w2 H. Qed.

Lemma record_bound_bind {A B} (m : M A) (k : A → M B) :
  record_bound m → (∀ a, record_bound (k a)) → record_bound (bind m k).
Proof.
  intros Hm Hk w1 w2 H. unfold bind. destruct (Hm w1 w2 H) as [E S].
  destruct (m w1) as [[a1|e1] v1], (m w2) as [[a2|e2] v2]; simpl in *;
    simplify_eq; [by apply Hk | done].
Qed.

Lemma record_bound_try_catch {A} (m : M A) (h : Error → M A) :
  record_bound m → (∀ e, record_bound (h e)) → record_bound (try_catch m h).
Proof.
  intros Hm Hh w1 w2 H. unfold try_catch. destruct (Hm w1 w2 H) as [E S].
  destruct (m w1) as [[a1|e1] v1], (m w2) as [[a2|e2] v2]; simpl in *;
    simplify_eq; [done | by apply Hh].
Qed.

Lemma record_bound_emit (e : Event) : record_bound (emit e).
Proof. intros w1 w2 [Hp Hf]. by destruct w1, w2. Qed.

Lemma record_bound_deleteImage (imageUrl : string) :
  record_bound (deleteImage imageUrl).
Proof.
  intros w1 w2 [Hp Hf]. rewrite !deleteImage_eq.
  destruct (negb _); [done|]. cbv zeta.
  destruct w1 as [ps1 a1 ? ? ? tr1 dbf1 cf1], w2 as [ps2 a2 ? ? ? tr2 dbf2 cf2].
  simpl in *. by destruct cf1 as [|[] ?], cf2 as [|[] ?].
Qed.

Lemma record_bound_when (b : bool) (m : M unit) :
  record_bound m → record_bound (when b m).
Proof. destruct b; [done | intros _; apply record_bound_ret]. Qed.

Ltac record_bound_op :=
  let w1 := fresh "w" in
  let w2 := fresh "w" in
  intros w1 w2 [? ?]; unfold Mongoose.call;
  destruct w1 as [? ? ? ? ? ? ? ?], w2 as [? ? ? ? ? ? dbf ?];
  simpl in *; subst; destruct dbf as [|[] ?]; simpl; try done.

Lemma record_bound_findById (id : string) : record_bound (Mongoose.findById id).
Proof.
  unfold Mongoose.findById.
  destruct (Mongoose.castObjectId id); [|apply record_bound_throw].
  record_bound_op.
Qed.

Lemma record_bound_findByIdAndUpdate (id : string) (d : PostData) (t : Z) :
  record_bound (Mongoose.findByIdAndUpdate id d t).
Proof.
  unfold Mongoose.findByIdAndUpdate.
  destruct (Mongoose.castObjectId id) as [k|]; [|apply record_bound_throw].
  destruct (Mongoose.update_ok d); [|apply record_bound_throw].
  record_bound_op; by destruct (_ !! k).
Qed.

Lemma record_bound_findByIdAndDelete (id : string) :
  record_bound (Mongoose.findByIdAndDelete id).
Proof.
  unfold Mongoose.findByIdAndDelete.
  destruct (Mongoose.castObjectId id) as [k|]; [|apply record_bound_throw].
  record_bound_op.
Qed.

Lemma record_bound_updatePost (r : Req) : record_bound (updatePost r).
Proof.
  unfold updatePost. apply record_bound_try_catch.
  - cbv zeta. apply record_bound_bind; [apply record_bound_findById|].
    intros [[k e]|]; [|apply record_bound_ret].
    apply record_bound_bind.
    + destruct (file r); [|apply record_bound_ret].
      apply record_bound_bind;
        [apply record_bound_when, record_bound_deleteImage|].
      intros; apply record_bound_ret.
    + intros d. apply record_bound_bind; [apply record_bound_findByIdAndUpdate|].
      intros; apply record_bound_ret.
  - intros e. apply record_bound_bind;
      [apply record_bound_emit | intros; apply record_bound_ret].
Qed.

Lemma record_bound_deletePost (r : Req) : record_bound (deletePost r).
Proof.
  unfold deletePost. apply record_bound_try_catch.
  - cbv zeta. apply record_bound_bind; [apply record_bound_findById|].
    intros [[k e]|]; [|apply record_bound_ret].
    apply record_bound_bind;
      [apply record_bound_when, record_bound_deleteImage|]. intros _.
    apply record_bound_bind; [apply record_bound_findByIdAndDelete|].
    intros; apply record_bound_ret.
  - intros e. apply record_bound_bind;
      [apply record_bound_emit | intros; apply record_bound_ret].
Qed.

(** C9: [deleteImage] returns normally for every URL and every behaviour
    of the asset store.  Deleting a blob that is not there leaves the store
    as it is; a failure of the store is logged and swallowed.  The answer of
    an update or delete request and what it does to the Record Store are
    the same whatever the asset store does. *)
Theorem deleteImage_best_effort (imageUrl : string) (w : World) :
  let w' := (deleteImage imageUrl w).2 in
  let pid := publicId_of imageUrl in
  (deleteImage imageUrl w).1 = Ok tt
  ∧ posts w' = posts w
  ∧ db_faults w' = db_faults w
  ∧ (imageUrl = "" → w' = w)
  ∧ (imageUrl ≠ "" → head (cdn_faults w) ≠ Some true →
     assets w' = assets w ∖ {[pid]}
     ∧ trace w' = (trace w ++ [EvDestroy pid; EvConsoleLog ("Deleted image: " ++ pid)])%list)
  ∧ (imageUrl ≠ "" → head (cdn_faults w) ≠ Some true → pid ∉ assets w →
     assets w' = assets w)
  ∧ (imageUrl ≠ "" → head (cdn_faults w) = Some true →
     assets w' = assets w
     ∧ trace w' = (trace w ++ [EvDestroy pid;
                               EvConsoleError "Error deleting image:"])%list)
  ∧ (∀ r w1 w2, same_records w1 w2 →
     (updatePost r w1).1 = (updatePost r w2).1
     ∧ posts (updatePost r w1).2 = posts (updatePost r w2).2
     ∧ (deletePost r w1).1 = (deletePost r w2).1
     ∧ posts (deletePost r w1).2 = posts (deletePost r w2).2).
Proof.
  intros w' pid. subst w'. rewrite deleteImage_eq. fold pid.
  assert (Ht : imageUrl ≠ "" → negb (Js.truthy imageUrl) = false)
    by (by destruct imageUrl).
  split; [|split; [|split; [|split; [|split; [|split; [|split]]]]]].
  - destruct (negb _); [done|]. by destruct (cdn_faults w) as [|[] ?].
  - destruct (negb _); [done|].
    destruct w as [ps a h1 h2 h3 tr dbf cf]. by destruct cf as [|[] ?].
  - destruct (negb _); [done|].
    destruct w as [ps a h1 h2 h3 tr dbf cf]. by destruct cf as [|[] ?].
  - by intros ->.
  - intros Hu Hf. rewrite (Ht Hu).
    destruct w as [ps a h1 h2 h3 tr dbf cf]. simpl in *.
    by destruct cf as [|[] ?].
  - intros Hu Hf Hpid. rewrite (Ht Hu).
    destruct w as [ps a h1 h2 h3 tr dbf cf]. simpl in *.
    destruct cf as [|[] ?]; simpl; try done;
      by apply difference_disjoint_L, disjoint_singleton_r.
  - intros Hu Hf. rewrite (Ht Hu).
    destruct w as [ps a h1 h2 h3 tr dbf cf]. simpl in *.
    by destruct cf as [|[] ?].
  - intros r w1 w2 H.
    pose proof (record_bound_updatePost r w1 w2 H) as [E1 [E2 _]].
    pose proof (record_bound_deletePost r w1 w2 H) as [E3 [E4 _]].
    by rewrite E1, E2, E3, E4.
Qed.

(** The statement of [deleteImage_best_effort] when the asset store fails,
    and for a blob that does not exist. *)
Lemma deleteImage_best_effort_witness :
  (deleteImage (Cloudinary.secure_url sample_image)
               (set_cdn_faults [true] pictured_world)).1 = Ok tt
  ∧ assets (deleteImage (Cloudinary.secure_url sample_image)
                        (set_cdn_faults [true] pictured_world)).2
    = assets pictured_world
  ∧ assets (deleteImage (Cloudinary.secure_url other_image) pictured_world).2
    = assets pictured_world.
Proof.
  pose proof (deleteImage_best_effort (Cloudinary.secure_url sample_image)
                (set_cdn_faults [true] pictured_world))
    as (H1 & _ & _ & _ & _ & _ & H2 & _).
  pose proof (deleteImage_best_effort (Cloudinary.secure_url other_image)
                pictured_world) as (_ & _ & _ & _ & _ & H3 & _).
  split; [exact H1|]. split.
  - apply H2; [discriminate | reflexivity].
  - apply H3; [discriminate | discriminate |]. vm_compute. set_solver.
Defined.

(** ** Partial update *)

Lemma frames_bind_val {A B} (R : World → World → Prop) (P : A → Prop)
      (m : M A) (k : A → M B) :
  (∀ w1 w2 w3, R w1 w2 → R w2 w3 → R w1 w3) →
  frames R m → answers P m → (∀ a, P a → frames R (k a)) → frames R (bind m k).
Proof.
  intros Rt Hm Hp Hk w. unfold bind. specialize (Hm w). specialize (Hp w).
  destruct (m w) as [[a|e] w1]; simpl in *; [|done].
  eapply Rt; [exact Hm | by apply Hk, Hp].
Qed.

Section Keeps.

Variable k : string.
Variables H D I : Prop.

Lemma keeps_same_posts (w w' : World) : posts w' = posts w → keeps k H D I w w'.
Proof. intros E e He. exists e. by rewrite E. Qed.

Lemma keeps_refl (w : World) : keeps k H D I w w.
Proof. by apply keeps_same_posts. Qed.

Lemma keeps_trans (w1 w2 w3 : World) :
keeps k H D I w1 w2 → keeps k H D I w2 w3 → keeps k H D I w1 w3.
Proof.
intros H12 H23 e He.
destruct (H12 e He) as (e2 & He2 & C2 & Hh2 & Hd2 & Hi2).
destruct (H23 e2 He2) as (e3 & He3 & C3 & Hh3 & Hd3 & Hi3).
exists e3. repeat split; try done.
- congruence.
- intros h. rewrite Hh3, Hh2; done.
- intros d. rewrite Hd3, Hd2; done.
- intros i. rewrite Hi3, Hi2; done.
Qed.

Lemma keeps_findByIdAndUpdate (id : string) (d : PostData) (t : Z) :
(H → data_heading d = None) →
(D → data_description d = None) →
(I → data_image d = None) →
frames (keeps k H D I) (Mongoose.findByIdAndUpdate id d t).
Proof.
intros Hh Hd Hi. unfold Mongoose.findByIdAndUpdate.
destruct (Mongoose.castObjectId id) as [k'|];
  [|apply frames_throw, keeps_refl].
destruct (Mongoose.update_ok d); [|apply frames_throw, keeps_refl].
apply frames_db_call;
  [apply keeps_trans
   | intros; by apply keeps_same_posts | intros; by apply keeps_same_posts |].
intros w. destruct (posts w !! k') as [p|] eqn:Ep; [|apply keeps_refl].
intros e He. cbn [snd]. unfold set_posts. cbn [posts].
destruct (decide (k' = k)) as [->|Hne].
- rewrite lookup_insert_eq. eexists. split; [done|].
  assert (p = e) as -> by congruence.
  unfold Mongoose.apply_update. cbn [heading description image createdAt].
  repeat split.
  + intros h. by rewrite (Hh h).
  + intros h. by rewrite (Hd h).
  + intros h. by rewrite (Hi h).
- rewrite lookup_insert_ne by done. exists e. by repeat split.
Qed.

Lemma keeps_updatePost (r : Req) :
(H → body r !! "heading" = None) →
(D → body r !! "description" = None) →
(I → file r = None) →
frames (keeps k H D I) (updatePost r).
Proof.
intros Hh Hd Hi.
pose proof keeps_refl as Rr. pose proof keeps_trans as Rt.
assert (Rtr : ∀ w t, keeps k H D I w (set_trace t w))
  by (intros; by apply keeps_same_posts).
assert (Rdb : ∀ w f, keeps k H D I w (set_db_faults f w))
  by (intros; by apply keeps_same_posts).
assert (Rcdn : ∀ w f, keeps k H D I w (set_cdn_faults f w))
  by (intros; by apply keeps_same_posts).
assert (Ra : ∀ w a, keeps k H D I w (set_assets a w))
  by (intros; by apply keeps_same_posts).
unfold updatePost. apply frames_try_catch; [done | |].
- cbv zeta. apply frames_bind; [done | by apply frames_findById |].
  intros [[k0 e0]|]; [|by apply frames_ret].
  apply (frames_bind_val _
           (λ d, (H → data_heading d = None) ∧ (D → data_description d = None)
                 ∧ (I → data_image d = None))); [done | | |].
  + destruct (file r); [|by apply frames_ret].
    apply frames_bind; [done | | intros; by apply frames_ret].
    apply frames_when; [done|]. by apply frames_deleteImage.
  + destruct (file r) as [f|] eqn:Ef.
    * apply answers_bind. intros _ w0 d [= <-].
      split; [|split].
      -- intros h. rewrite (Hh h). simpl. destruct (Js.truthy_opt _); reflexivity.
      -- intros h. rewrite (Hd h). simpl. destruct (Js.truthy_opt _); reflexivity.
      -- intros h. by specialize (Hi h).
    * intros w0 d [= <-]. split; [|split].
      -- intros h. rewrite (Hh h). simpl. destruct (Js.truthy_opt _); reflexivity.
      -- intros h. rewrite (Hd h). simpl. destruct (Js.truthy_opt _); reflexivity.
      -- intros _. by do 2 destruct (Js.truthy_opt _).
  + intros d (Hdh & Hdd & Hdi).
    apply frames_bind; [done | by apply keeps_findByIdAndUpdate |].
    intros; by apply frames_ret.
- intros e. apply frames_bind; [done | by apply frames_emit |].
  intros; by apply frames_ret.
Qed.

End Keeps.

(** What the stages in front of the update handler do to the request. *)

Lemma run_file (c : Chain.t) (r : Req) : file (Chain.run c r) = file r.
Proof.
  unfold Chain.run. destruct (_ && _); [done|].
  destruct (Chain.run_items _ _) as [v es]. simpl.
  case_bool_decide; [done|]. by destruct (Chain.location c).
Qed.

Lemma run_body_other (c : Chain.t) (r : Req) (g : string) :
  Chain.location c ≠ Chain.InBody ∨ g ≠ Chain.field c →
  body (Chain.run c r) !! g = body r !! g.
Proof.
  intros Hg. unfold Chain.run. destruct (_ && _); [done|].
  destruct (Chain.run_items _ _) as [v es]. simpl.
  case_bool_decide; [done|].
  destruct (Chain.location c); simpl; try done.
  destruct Hg as [?|?]; [done|]. by rewrite lookup_insert_ne.
Qed.

Lemma run_body_omitted (c : Chain.t) (r : Req) :
  Chain.location c = Chain.InBody →
  Chain.has_optional c = true →
  body r !! Chain.field c = None →
  body (Chain.run c r) !! Chain.field c = None.
Proof.
  intros Hl Ho Hb. unfold Chain.run, Chain.get. rewrite Hl, Ho, Hb.
  by rewrite bool_decide_eq_true_2.
Qed.

Lemma update_validators_omitted (r : Req) :
  let r' := Chain.run_all postValidators.update r in
  file r' = file r
  ∧ (body r !! "heading" = None → body r' !! "heading" = None)
  ∧ (body r !! "description" = None → body r' !! "description" = None).
Proof.
  unfold Chain.run_all, postValidators.update. cbn [fold_left].
  set (c1 := Chain.param _ _). set (c2 := Chain.body "heading" _).
  set (c3 := Chain.body "description" _).
  split; [by rewrite !run_file|]. split; intros Hb.
  - rewrite (run_body_other c3) by (by right).
    apply (run_body_omitted c2); try done.
    by rewrite (run_body_other c1) by (by left).
  - apply (run_body_omitted c3); try done.
    rewrite (run_body_other c2) by (by right).
    by rewrite (run_body_other c1) by (by left).
Qed.

Lemma upload_single_request (r r' : Req) (w w' : World) :
  upload_single r w = (Next r', w') →
  body r' = match payload r with
            | Multipart fields _ => fields
            | _ => body r
            end
  ∧ (sent_image r = None → file r' = file r).
Proof.
  unfold upload_single, sent_image.
  destruct (payload r) as [| |fields [img|]]; try by intros [= <- _].
  destruct (fileFilter img); [|done]. destruct (Z.ltb _ _); [done|].
  unfold lift. destruct (Cloudinary.upload img w) as [[f|e] w1]; [|done].
  by intros [= <- _].
Qed.

Lemma body_parse_body (r : Req) :
  body (parse_body r) = match payload r with
                        | Parsed fields => fields
                        | _ => ∅
                        end
  ∧ file (parse_body r) = None.
Proof. unfold parse_body. by destruct (payload r). Qed.

Lemma posts_charge (l : Limiter) (addr : string) (w : World) :
  posts (charge l addr w) = posts w.
Proof. unfold charge. by destruct (store l). Qed.

Lemma same_posts_upload_single : frames_mw same_posts upload_single.
Proof. apply frames_upload_single; unfold same_posts; intros; congruence || done. Qed.

Lemma answer_world (h : Req → M Response) (r : Req) (w : World) :
  (answer (h r w)).2 = (h r w).2.
Proof. unfold answer. by destruct (h r w) as [[resp|e] w']. Qed.

(** C8: an update request leaves every field that it omits as it was:
    after the request the record is still stored, created when it was, with
    its heading, its description and its image unchanged unless the request
    carries the field, respectively an image part. *)
Theorem partial_update (r : Req) (w : World) (k : string) (e : Post) :
  route r = PutPost →
  posts w !! k = Some e →
  ∃ e', posts (app r w).2 !! k = Some e'
    ∧ createdAt e' = createdAt e
    ∧ (sent_fields r !! "heading" = None → heading e' = heading e)
    ∧ (sent_fields r !! "description" = None → description e' = description e)
    ∧ (sent_image r = None → image e' = image e).
Proof.
  intros Hr He.
  set (Hh := sent_fields r !! "heading" = None).
  set (Hd := sent_fields r !! "description" = None).
  set (Hi := sent_image r = None).
  cut (keeps k Hh Hd Hi w (app r w).2); [by intros Hk; apply Hk|].
  rewrite (app_posts_eq r w) by (by rewrite Hr). rewrite Hr.
  destruct (within apiLimiter (ip r) w);
    [|by apply keeps_same_posts, posts_charge].
  unfold router. rewrite pipeline_guarded, ip_parse_body.
  destruct (identity (parse_body r));
    [|by apply keeps_same_posts, posts_charge].
  destruct (within uploadLimiter _ _);
    [|by apply keeps_same_posts; cbn [snd]; rewrite !posts_charge].
  rewrite pipeline_cons.
  set (w2 := charge uploadLimiter _ _).
  assert (Hw2 : posts w2 = posts w) by (unfold w2; by rewrite !posts_charge).
  pose proof (same_posts_upload_single (parse_body r) w2) as Hup.
  unfold same_posts in Hup.
  destruct (upload_single (parse_body r) w2) as [[r3|err|resp] w3] eqn:E;
    simpl in Hup; try (apply keeps_same_posts; simpl; congruence).
  apply upload_single_request in E as [Hb Hf].
  rewrite pipeline_validation.
  pose proof (update_validators_omitted r3) as (Hf4 & Hh4 & Hd4). cbv zeta in *.
  destruct (body_parse_body r) as [Hpb Hpf].
  assert (Hb3 : body r3 = sent_fields r).
  { rewrite Hb, payload_parse_body, Hpb. unfold sent_fields.
    by destruct (payload r). }
  destruct (errors _); [|by apply keeps_same_posts; simpl; congruence].
  rewrite answer_world.
  apply (keeps_trans k Hh Hd Hi w w3);
    [by apply keeps_same_posts; congruence|].
  apply keeps_updatePost.
  - intros h. apply Hh4. by rewrite Hb3.
  - intros h. apply Hd4. by rewrite Hb3.
  - intros h. rewrite Hf4, Hf, Hpf; [done|].
    unfold sent_image. by rewrite payload_parse_body.
Qed.

(** The statement of [partial_update] on an update that carries a new
    heading only. *)
Lemma partial_update_witness :
  posts pictured_world !! sample_id 0 = Some pictured_post
  ∧ ∃ e', posts (app (put_request {[ "heading" := "New heading" ]} None)
                     pictured_world).2 !! sample_id 0 = Some e'
          ∧ description e' = "A description long enough"
          ∧ image e' = Some (Cloudinary.secure_url sample_image).
Proof.
  split; [vm_compute; reflexivity|].
  destruct (partial_update (put_request {[ "heading" := "New heading" ]} None)
              pictured_world (sample_id 0) pictured_post eq_refl
              ltac:(vm_compute; reflexivity))
    as (e' & He' & _ & _ & Hd & Hi).
  exists e'. split; [exact He'|]. split.
  - apply Hd. vm_compute. reflexivity.
  - apply Hi. reflexivity.
Defined.

(** ** The image field of stored records *)

Lemma keeps_images_same_posts (w w' : World) :
  posts w' = posts w → keeps_images w w'.
Proof. intros E Hw k p. rewrite E. apply Hw. Qed.

Lemma keeps_images_trans (w1 w2 w3 : World) :
  keeps_images w1 w2 → keeps_images w2 w3 → keeps_images w1 w3.
Proof. unfold keeps_images. tauto. Qed.

Ltac images_rel :=
  first [ exact keeps_images_trans
        | intros; apply keeps_images_same_posts; reflexivity ].

Lemma keeps_images_save (id : string) (t : Z) (d : PostData) :
  frames keeps_images (Mongoose.save id t d).
Proof.
  unfold Mongoose.save.
  destruct (Js.trim <$> data_heading d), (Js.trim <$> data_description d);
    try (apply frames_throw; images_rel).
  destruct (_ && _); [|apply frames_throw; images_rel].
  apply frames_db_call; try images_rel.
  intros w. destruct (posts w !! id) eqn:E; [images_rel|].
  intros Hw k p. cbn [snd]. unfold set_posts. cbn [posts].
  destruct (decide (id = k)) as [->|Hne].
  - rewrite lookup_insert_eq. intros [= <-]. by eexists.
  - rewrite lookup_insert_ne by done. apply Hw.
Qed.

Lemma keeps_images_findByIdAndUpdate (id : string) (d : PostData) (t : Z) :
  frames keeps_images (Mongoose.findByIdAndUpdate id d t).
Proof.
  unfold Mongoose.findByIdAndUpdate.
  destruct (Mongoose.castObjectId id) as [k'|]; [|apply frames_throw; images_rel].
  destruct (Mongoose.update_ok d); [|apply frames_throw; images_rel].
  apply frames_db_call; try images_rel.
  intros w. destruct (posts w !! k') as [p'|] eqn:E; [|images_rel].
  intros Hw k p. cbn [snd]. unfold set_posts. cbn [posts].
  destruct (decide (k' = k)) as [->|Hne].
  - rewrite lookup_insert_eq. intros [= <-]. unfold Mongoose.apply_update.
    cbn [image]. destruct (data_image d); [by eexists|]. by apply (Hw k).
  - rewrite lookup_insert_ne by done. apply Hw.
Qed.

Lemma keeps_images_findByIdAndDelete (id : string) :
  frames keeps_images (Mongoose.findByIdAndDelete id).
Proof.
  unfold Mongoose.findByIdAndDelete.
  destruct (Mongoose.castObjectId id) as [k'|]; [|apply frames_throw; images_rel].
  apply frames_db_call; try images_rel.
  intros w Hw k p. cbn [snd]. unfold set_posts. cbn [posts].
  intros [_ Hk]%lookup_delete_Some. by apply (Hw k).
Qed.

Lemma keeps_images_rateLimit (l : Limiter) : frames_mw keeps_images (rateLimit l).
Proof.
  intros r w. rewrite rateLimit_eq. apply keeps_images_same_posts.
  destruct (within l (ip r) w); apply posts_charge.
Qed.

Lemma keeps_images_app (r : Req) (w : World) : keeps_images w (app r w).2.
Proof.
  unfold app.
  assert (Hl : ∀ ms, Forall (frames_mw keeps_images) ms →
               ∀ r w, keeps_images w (pipeline ms r w).2).
  { intros ms Hms. apply (frames_pipeline keeps_images); try images_rel. done. }
  destruct (route r); apply Hl; unfold router;
    repeat (apply Forall_cons_2; [|]); try apply Forall_nil_2;
    first [ apply keeps_images_rateLimit
          | apply frames_auth; images_rel
          | apply frames_validators; images_rel
          | apply frames_validate; images_rel
          | apply frames_upload_single; images_rel
          | intros ? ?; images_rel
          | apply frames_handler; intros ?;
            first [ apply frames_getPosts; images_rel
                  | apply frames_getPostById; images_rel
                  | apply frames_createPost;
                    first [apply keeps_images_save | images_rel]
                  | apply frames_updatePost;
                    first [apply keeps_images_findByIdAndUpdate | images_rel]
                  | apply frames_deletePost;
                    first [apply keeps_images_findByIdAndDelete | images_rel] ] ].
Qed.

(** What the creation handler does to the Record Store: nothing, or the
    insertion of one document whose image is the uploaded file's URL, and
    the schema default [""] when there is no file. *)
Lemma createPost_posts (r : Req) (w : World) :
  posts (createPost r w).2 = posts w
  ∨ ∃ h d,
      posts w !! objectId r = None
      ∧ posts (createPost r w).2 =
          <[objectId r := mkPost h d (Some (default "" (path <$> file r)))
                                 (now r) (now r)]> (posts w).
Proof.
  unfold createPost, try_catch, bind, Mongoose.save, Mongoose.call, ret, throw, emit.
  cbv zeta.
  set (img := default "" (path <$> file r)).
  assert (Himg : ∀ h d, default "" (data_image
            match file r with
            | Some f => mkPostData (data_heading (mkPostData h d None))
                                   (data_description (mkPostData h d None))
                                   (Some (path f))
            | None => mkPostData h d None
            end) = img) by (intros; unfold img; by destruct (file r)).
  assert (Hh : ∀ h d, data_heading
            match file r with
            | Some f => mkPostData (data_heading (mkPostData h d None))
                                   (data_description (mkPostData h d None))
                                   (Some (path f))
            | None => mkPostData h d None
            end = h) by (intros; by destruct (file r)).
  assert (Hd : ∀ h d, data_description
            match file r with
            | Some f => mkPostData (data_heading (mkPostData h d None))
                                   (data_description (mkPostData h d None))
                                   (Some (path f))
            | None => mkPostData h d None
            end = d) by (intros; by destruct (file r)).
  rewrite Hh, Hd, Himg.
  destruct (Js.trim <$> body r !! "heading") as [h|]; [|by left].
  destruct (Js.trim <$> body r !! "description") as [d|]; [|by left].
  destruct (_ && _); [|by left].
  cbn [posts db_faults set_posts set_trace set_db_faults].
  destruct (db_faults w) as [|[] dbf];
    cbn [posts db_faults set_posts set_trace set_db_faults fst snd];
    try (by left);
    (destruct (posts w !! objectId r) eqn:E;
     cbn [posts db_faults set_posts set_trace set_db_faults fst snd];
     [by left | right; by exists h, d]).
Qed.

Lemma create_validators_file (r : Req) :
  file (Chain.run_all postValidators.create r) = file r.
Proof.
  unfold Chain.run_all, postValidators.create. cbn [fold_left].
  by rewrite !run_file.
Qed.

(** C10: a post created without an attached image is stored with the
    image field present and equal to the empty string; and no request makes
    the image field of any stored record absent, so that every record
    stored through the API has a string as its image. *)
Theorem image_default (r : Req) (w : World) :
  (images_present w → images_present (app r w).2)
  ∧ (route r = PostPost → sent_image r = None →
     ∀ k p, posts w !! k = None → posts (app r w).2 !! k = Some p →
            image p = Some "")
  ∧ (∀ rs, images_present (serve rs empty_world))
  ∧ posts (app (post_request (sample_fields "abc" "0123456789") None)
               empty_world).2
    = {[ sample_id 0 := mkPost "abc" "0123456789" (Some "") 5 5 ]}.
Proof.
  split; [apply keeps_images_app|]. split; [|split].
  - intros Hr Hi k p Hk.
    rewrite (app_posts_eq r w) by (by rewrite Hr). rewrite Hr.
    destruct (within apiLimiter (ip r) w);
      [|cbn [snd]; rewrite posts_charge; congruence].
    unfold router. rewrite pipeline_guarded, ip_parse_body.
    destruct (identity (parse_body r));
      [|cbn [snd]; rewrite posts_charge; congruence].
    destruct (within uploadLimiter _ _);
      [|cbn [snd]; rewrite !posts_charge; congruence].
    rewrite pipeline_cons.
    set (w2 := charge uploadLimiter _ _).
    assert (Hw2 : posts w2 = posts w) by (unfold w2; by rewrite !posts_charge).
    pose proof (same_posts_upload_single (parse_body r) w2) as Hup.
    unfold same_posts in Hup.
    destruct (upload_single (parse_body r) w2) as [[r3|err|resp] w3] eqn:E;
      cbn [snd] in *; try congruence.
    apply upload_single_request in E as [_ Hf].
    destruct (body_parse_body r) as [_ Hpf].
    rewrite Hpf in Hf.
    assert (Hf3 : file r3 = None)
      by (apply Hf; unfold sent_image; by rewrite payload_parse_body).
    rewrite pipeline_validation.
    destruct (errors _); [|cbn [snd]; congruence].
    rewrite answer_world.
    destruct (createPost_posts (Chain.run_all postValidators.create r3) w3)
      as [-> | (h & d & Hnew & ->)]; [congruence|].
    rewrite create_validators_file, Hf3.
    destruct (decide (objectId (Chain.run_all postValidators.create r3) = k))
      as [->|Hne].
    + rewrite lookup_insert_eq. by intros [= <-].
    + rewrite lookup_insert_ne by done. congruence.
  - intros rs. unfold serve.
    assert (H : ∀ w0, images_present w0 →
                images_present (fold_left (λ w r, (app r w).2) rs w0)).
    { induction rs as [|r0 rs IH]; intros w0 Hw0; simpl; [done|].
      apply IH. by apply keeps_images_app. }
    apply H. intros k p Hk.
    change (posts empty_world) with (∅ : gmap string Post) in Hk.
    by rewrite lookup_empty in Hk.
  - vm_compute. reflexivity.
Qed.

(** The statement of [image_default] on a creation without image. *)
Lemma image_default_witness :
  route (post_request (sample_fields "abc" "0123456789") None) = PostPost
  ∧ sent_image (post_request (sample_fields "abc" "0123456789") None) = None
  ∧ ∀ k p,
      posts (app (post_request (sample_fields "abc" "0123456789") None)
                 empty_world).2 !! k = Some p →
      image p = Some "".
Proof.
  split; [reflexivity|]. split; [reflexivity|]. intros k p.
  pose proof (image_default (post_request (sample_fields "abc" "0123456789") None)
                empty_world) as (_ & H & _).
  apply (H eq_refl eq_refl k p). apply lookup_empty.
Defined.

(** ** Order of cleanup and record mutation *)

Lemma findById_found (id k : string) (w : World) :
  Mongoose.castObjectId id = Some k →
  head (db_faults w) ≠ Some true →
  Mongoose.findById id w =
    (Ok (pair k <$> posts w !! k), after_db [EvFindById k] 1 w).
Proof.
  intros Hk Hf. unfold Mongoose.findById, Mongoose.call, after_db. rewrite Hk.
  destruct w as [ps a h1 h2 h3 tr dbf cf].
  cbn [posts db_faults trace set_trace set_db_faults] in *.
  by destruct dbf as [|[] dbf].
Qed.

(** The trace of [deleteImage] on a URL. *)
Lemma deleteImage_trace (u : string) (w : World) :
  u ≠ "" →
  ∃ l, cleanup_log (publicId_of u) l
    ∧ trace (deleteImage u w).2 = (trace w ++ [EvDestroy (publicId_of u); l])%list
    ∧ posts (deleteImage u w).2 = posts w
    ∧ db_faults (deleteImage u w).2 = db_faults w
    ∧ (deleteImage u w).1 = Ok tt
    ∧ (head (cdn_faults w) ≠ Some true →
       assets (deleteImage u w).2 = assets w ∖ {[publicId_of u]}).
Proof.
  intros Hu. rewrite deleteImage_eq.
  assert (negb (Js.truthy u) = false) as -> by (by destruct u).
  cbv zeta. destruct w as [ps a h1 h2 h3 tr dbf cf].
  destruct cf as [|[] cf]; cbn; eexists; (split; [|by repeat split]);
    by (left + right).
Qed.

(** The trace of the update operation of the Record Store. *)
Lemma findByIdAndUpdate_trace (id k : string) (d : PostData) (t : Z) (w : World) :
  Mongoose.castObjectId id = Some k →
  let x := Mongoose.findByIdAndUpdate id d t w in
  assets x.2 = assets w
  ∧ ((trace x.2 = trace w ∧ posts x.2 = posts w ∧ ∃ e, x.1 = Thrown e)
     ∨ (trace x.2 = (trace w ++ [EvFindByIdAndUpdate k])%list
        ∧ (head (db_faults w) = Some true →
           posts x.2 = posts w ∧ ∃ e, x.1 = Thrown e)
        ∧ (head (db_faults w) ≠ Some true → ∃ a, x.1 = Ok a))).
Proof.
  intros Hk. unfold Mongoose.findByIdAndUpdate. rewrite Hk.
  destruct (Mongoose.update_ok d); [|split; [done|left; cbn; eauto]].
  unfold Mongoose.call.
  destruct w as [ps a h1 h2 h3 tr dbf cf].
  cbn [posts db_faults trace set_trace set_db_faults set_posts fst snd].
  destruct dbf as [|[] dbf];
    cbn [posts db_faults trace set_trace set_db_faults set_posts fst snd head];
    try (destruct (ps !! k));
    cbn [assets posts db_faults trace set_trace set_db_faults set_posts fst snd head];
    (split; [done|right]); repeat split; try done; eauto.
Qed.

(** The trace of the delete operation of the Record Store. *)
Lemma findByIdAndDelete_trace (id k : string) (w : World) :
  Mongoose.castObjectId id = Some k →
  let x := Mongoose.findByIdAndDelete id w in
  assets x.2 = assets w
  ∧ trace x.2 = (trace w ++ [EvFindByIdAndDelete k])%list
  ∧ (head (db_faults w) = Some true → posts x.2 = posts w ∧ ∃ e, x.1 = Thrown e)
  ∧ (head (db_faults w) ≠ Some true →
     posts x.2 = delete k (posts w) ∧ ∃ a, x.1 = Ok a).
Proof.
  intros Hk. unfold Mongoose.findByIdAndDelete. rewrite Hk.
  unfold Mongoose.call.
  destruct w as [ps a h1 h2 h3 tr dbf cf].
  cbn [posts db_faults trace set_trace set_db_faults set_posts fst snd].
  destruct dbf as [|[] dbf];
    cbn [assets posts db_faults trace set_trace set_db_faults set_posts fst snd head];
    repeat split; try done; eauto.
Qed.

Lemma trace_after_db (es : list Event) (n : nat) (w : World) :
  trace (after_db es n w) = (trace w ++ es)%list
  ∧ posts (after_db es n w) = posts w
  ∧ assets (after_db es n w) = assets w
  ∧ cdn_faults (after_db es n w) = cdn_faults w
  ∧ db_faults (after_db es n w) = drop n (db_faults w).
Proof. by destruct w. Qed.

(** C1, amended: when an update replaces the image of a post, the handler
    makes the cleanup call for the previous image right after it has looked
    the post up, and before it issues the record update; the update call, if
    it is made, comes after the cleanup has returned.  The previous blob is
    therefore gone whether or not the update then succeeds. *)
Theorem cleanup_before_update (r : Req) (w : World) (k u : string) (e : Post)
        (f : StoredFile) :
  Mongoose.castObjectId (default "" (params r !! "id")) = Some k →
  posts w !! k = Some e →
  image e = Some u →
  u ≠ "" →
  file r = Some f →
  head (db_faults w) ≠ Some true →
  let w' := (updatePost r w).2 in
  let pid := publicId_of u in
  (∃ l rest,
     trace w' = (trace w ++ EvFindById k :: EvDestroy pid :: l :: rest)%list
     ∧ cleanup_log pid l
     ∧ (rest = [] ∨ rest = [EvConsoleError "Update post error:"]
        ∨ rest = [EvFindByIdAndUpdate k]
        ∨ rest = [EvFindByIdAndUpdate k; EvConsoleError "Update post error:"]))
  ∧ (head (cdn_faults w) ≠ Some true → assets w' = assets w ∖ {[pid]})
  ∧ (head (tail (db_faults w)) = Some true → posts w' = posts w).
Proof.
  intros Hk He Hi Hu Hf Hdb w' pid. subst w'.
  unfold updatePost, try_catch, bind. cbv zeta.
  rewrite (findById_found _ k w Hk Hdb), He. cbn [fmap option_fmap option_map].
  rewrite Hf, Hi. change (default "" (Some u)) with u. cbn [Js.truthy_opt].
  assert (Js.truthy u = true) as -> by (by destruct u).
  unfold when.
  set (w1 := after_db [EvFindById k] 1 w).
  destruct (trace_after_db [EvFindById k] 1 w) as (T1 & P1 & A1 & C1 & D1).
  fold w1 in T1, P1, A1, C1, D1.
  destruct (deleteImage_trace u w1 Hu) as (l & Hl & T2 & P2 & D2 & R2 & A2).
  fold pid in Hl, T2, A2.
  destruct (deleteImage u w1) as [[[]|err] w2]; cbn [fst snd] in *; [|done].
  cbn [ret].
  set (d := mkPostData _ _ _).
  assert (D2' : head (db_faults w2) = head (tail (db_faults w)))
    by (rewrite D2, D1; by destruct (db_faults w)).
  destruct (findByIdAndUpdate_trace _ k d (now r) w2 Hk)
    as (A3 & [(T3 & P3 & err & R3) | (T3 & F3 & O3)]); cbv zeta in *.
  - destruct (Mongoose.findByIdAndUpdate _ d (now r) w2) as [[a|err'] w3];
      cbn [fst snd] in *; [done|].
    unfold emit, ret. cbn [fst snd trace set_trace posts assets].
    split; [|split].
    + exists l, [EvConsoleError "Update post error:"].
      split; [|split; [done | by right; left]].
      rewrite T3, T2, T1, <- !app_assoc. done.
    + intros Hc. rewrite A3, A2, A1 by (by rewrite C1). done.
    + intros _. congruence.
  - destruct (Mongoose.findByIdAndUpdate _ d (now r) w2) as [[a|err'] w3];
      cbn [fst snd] in *.
    + unfold ret. cbn [fst snd].
      split; [|split].
      * exists l, [EvFindByIdAndUpdate k].
        split; [|split; [done | by right; right; left]].
        rewrite T3, T2, T1, <- !app_assoc. done.
      * intros Hc. rewrite A3, A2, A1 by (by rewrite C1). done.
      * intros Hd. rewrite <- D2' in Hd. by destruct (F3 Hd) as [_ [? ?]].
    + unfold emit, ret. cbn [fst snd trace set_trace posts assets].
      split; [|split].
      * exists l, [EvFindByIdAndUpdate k; EvConsoleError "Update post error:"].
        split; [|split; [done | by right; right; right]].
        rewrite T3, T2, T1, <- !app_assoc. done.
      * intros Hc. rewrite A3, A2, A1 by (by rewrite C1). done.
      * intros Hd. rewrite <- D2' in Hd. destruct (F3 Hd) as [-> _]. congruence.
Qed.

(** The statement of [cleanup_before_update] when the record update fails:
    the record still points to the previous image, whose blob is gone. *)
Lemma cleanup_before_update_witness :
  posts failing_world !! sample_id 0 = Some pictured_post
  ∧ posts (updatePost handled_put failing_world).2 !! sample_id 0
    = Some pictured_post
  ∧ assets (updatePost handled_put failing_world).2
    = assets failing_world ∖ {[ Cloudinary.full_public_id sample_image ]}.
Proof.
  assert (Hp : posts failing_world !! sample_id 0 = Some pictured_post)
    by (vm_compute; reflexivity).
  split; [exact Hp|].
  pose proof (cleanup_before_update handled_put failing_world (sample_id 0)
                (Cloudinary.secure_url sample_image) pictured_post
                (mkStoredFile (Cloudinary.secure_url other_image))
                ltac:(vm_compute; reflexivity) Hp eq_refl ltac:(discriminate)
                eq_refl ltac:(discriminate)) as (_ & Ha & Hposts).
  split.
  - rewrite (Hposts eq_refl). exact Hp.
  - apply Ha. discriminate.
Defined.

(** C1 as stated fails: in an update that replaces the image the cleanup
    call for the previous image is made before the record update. *)
Lemma destroy_before_update :
  ¬ cleanup_after_update (put_request ∅ (Some other_image)) pictured_world.
Proof.
  intros H.
  assert (Htr : new_events (put_request ∅ (Some other_image)) pictured_world
                = [ EvUpload "blog-uploads/blog_1700000000001_43";
                    EvFindById (sample_id 0);
                    EvDestroy "blog-uploads/blog_1700000000000_42";
                    EvConsoleLog "Deleted image: blog-uploads/blog_1700000000000_42";
                    EvFindByIdAndUpdate (sample_id 0) ])
    by (vm_compute; reflexivity).
  unfold cleanup_after_update in H. rewrite Htr in H.
  destruct (H 2 _ eq_refl eq_refl) as (j & x & Hj & Hx & Hu).
  destruct j as [|[|j]]; [| |lia]; simpl in Hx; injection Hx as <-; discriminate.
Qed.

(** C2, amended: when a post that has an image is deleted, the handler
    makes the cleanup call for the image right after it has looked the post
    up, and deletes the record only after the cleanup has returned.  If the
    record deletion then fails, the record is still stored and points to a
    blob that is gone. *)
Theorem cleanup_before_delete (r : Req) (w : World) (k u : string) (e : Post) :
  Mongoose.castObjectId (default "" (params r !! "id")) = Some k →
  posts w !! k = Some e →
  image e = Some u →
  u ≠ "" →
  head (db_faults w) ≠ Some true →
  let w' := (deletePost r w).2 in
  let pid := publicId_of u in
  (∃ l rest,
     trace w' = (trace w ++ EvFindById k :: EvDestroy pid :: l
                         :: EvFindByIdAndDelete k :: rest)%list
     ∧ cleanup_log pid l
     ∧ (rest = [] ∨ rest = [EvConsoleError "Delete post error:"]))
  ∧ (head (cdn_faults w) ≠ Some true → assets w' = assets w ∖ {[pid]})
  ∧ (head (tail (db_faults w)) = Some true → posts w' = posts w)
  ∧ (head (tail (db_faults w)) ≠ Some true → posts w' = delete k (posts w)).
Proof.
  intros Hk He Hi Hu Hdb w' pid. subst w'.
  unfold deletePost, try_catch, bind. cbv zeta.
  rewrite (findById_found _ k w Hk Hdb), He. cbn [fmap option_fmap option_map].
  rewrite Hi. change (default "" (Some u)) with u. cbn [Js.truthy_opt].
  assert (Js.truthy u = true) as -> by (by destruct u).
  unfold when.
  set (w1 := after_db [EvFindById k] 1 w).
  destruct (trace_after_db [EvFindById k] 1 w) as (T1 & P1 & A1 & C1 & D1).
  fold w1 in T1, P1, A1, C1, D1.
  destruct (deleteImage_trace u w1 Hu) as (l & Hl & T2 & P2 & D2 & R2 & A2).
  fold pid in Hl, T2, A2.
  destruct (deleteImage u w1) as [[[]|err] w2]; cbn [fst snd] in *; [|done].
  assert (D2' : head (db_faults w2) = head (tail (db_faults w)))
    by (rewrite D2, D1; by destruct (db_faults w)).
  destruct (findByIdAndDelete_trace _ k w2 Hk) as (A3 & T3 & F3 & O3);
    cbv zeta in *.
  rewrite D2' in F3, O3.
  destruct (Mongoose.findByIdAndDelete _ w2) as [[a|err'] w3];
    cbn [fst snd] in *.
  - unfold ret. cbn [fst snd].
    split; [|split; [|split]].
    + exists l, []. split; [|split; [done | by left]].
      rewrite T3, T2, T1, <- !app_assoc. done.
    + intros Hc. rewrite A3, A2, A1 by (by rewrite C1). done.
    + intros Hd. by destruct (F3 Hd) as [_ [? ?]].
    + intros Hd. destruct (O3 Hd) as [-> _]. congruence.
  - unfold emit, ret. cbn [fst snd trace set_trace posts assets].
    split; [|split; [|split]].
    + exists l, [EvConsoleError "Delete post error:"].
      split; [|split; [done | by right]].
      rewrite T3, T2, T1, <- !app_assoc. done.
    + intros Hc. rewrite A3, A2, A1 by (by rewrite C1). done.
    + intros Hd. destruct (F3 Hd) as [-> _]. congruence.
    + intros Hd. by destruct (O3 Hd) as [_ [? ?]].
Qed.

(** The statement of [cleanup_before_delete] when the record deletion
    fails: the record is still there, the blob of its image is gone. *)
Lemma cleanup_before_delete_witness :
  posts failing_world !! sample_id 0 = Some pictured_post
  ∧ posts (deletePost delete_request failing_world).2 !! sample_id 0
    = Some pictured_post
  ∧ assets (deletePost delete_request failing_world).2
    = assets failing_world ∖ {[ Cloudinary.full_public_id sample_image ]}.
Proof.
  assert (Hp : posts failing_world !! sample_id 0 = Some pictured_post)
    by (vm_compute; reflexivity).
  split; [exact Hp|].
  pose proof (cleanup_before_delete delete_request failing_world (sample_id 0)
                (Cloudinary.secure_url sample_image) pictured_post
                ltac:(vm_compute; reflexivity) Hp eq_refl ltac:(discriminate)
                ltac:(discriminate)) as (_ & Ha & Hposts & _).
  split.
  - rewrite (Hposts eq_refl). exact Hp.
  - apply Ha. discriminate.
Defined.

(** C2 as stated fails: in the deletion of a post with an image the
    cleanup call is made before the record is deleted. *)
Lemma destroy_before_delete :
  ¬ cleanup_after_delete delete_request pictured_world.
Proof.
  intros H.
  assert (Htr : new_events delete_request pictured_world
                = [ EvFindById (sample_id 0);
                    EvDestroy "blog-uploads/blog_1700000000000_42";
                    EvConsoleLog "Deleted image: blog-uploads/blog_1700000000000_42";
                    EvFindByIdAndDelete (sample_id 0) ])
    by (vm_compute; reflexivity).
  unfold cleanup_after_delete in H. rewrite Htr in H.
  destruct (H 1 _ eq_refl eq_refl) as (j & x & Hj & Hx & Hu).
  destruct j as [|j]; [|lia]. simpl in Hx. injection Hx as <-. discriminate.
Qed.

(** * Further properties *)

(** ** Reversal and trimming *)

Lemma string_app_cons (x : ascii) (a b : string) :
  String x a ++ b = String x (a ++ b).
Proof. reflexivity. Qed.

Lemma string_app_nil_l (b : string) : "" ++ b = b.
Proof. reflexivity. Qed.

Lemma string_app_assoc (a b c : string) : (a ++ b) ++ c = a ++ b ++ c.
Proof.
  induction a as [|x a IH]; [done|]. by rewrite !string_app_cons, IH.
Qed.

Lemma string_app_nil_r (s : string) : s ++ "" = s.
Proof. induction s as [|x s IH]; [done|]. by rewrite string_app_cons, IH. Qed.

Lemma rev_app_append (s t : string) : String.rev_app s t = String.rev s ++ t.
Proof.
  unfold String.rev. revert t. induction s as [|c s IH]; intros t; [done|].
  cbn [String.rev_app]. rewrite IH, (IH (String c "")).
  by rewrite string_app_assoc.
Qed.

Lemma rev_cons (c : ascii) (s : string) :
  String.rev (String c s) = String.rev s ++ String c "".
Proof. unfold String.rev at 1. cbn [String.rev_app]. apply rev_app_append. Qed.

Lemma rev_append (s t : string) :
  String.rev (s ++ t) = String.rev t ++ String.rev s.
Proof.
  induction s as [|c s IH].
  - by rewrite string_app_nil_l, string_app_nil_r.
  - by rewrite string_app_cons, !rev_cons, IH, string_app_assoc.
Qed.

Lemma rev_involutive (s : string) : String.rev (String.rev s) = s.
Proof.
  induction s as [|c s IH]; [done|].
  by rewrite rev_cons, rev_append, IH.
Qed.

Lemma ltrim_no_lead (s : string) : no_lead (Js.ltrim s).
Proof.
  induction s as [|c s IH]; simpl; [done|].
  by destruct (Js.is_space c) eqn:E.
Qed.

Lemma ltrim_id (s : string) : no_lead s → Js.ltrim s = s.
Proof. destruct s as [|c s]; simpl; [done|]. by intros ->. Qed.

(** [ltrim] removes a prefix of whitespace. *)
Lemma ltrim_prefix (s : string) :
  ∃ sp, s = sp ++ Js.ltrim s ∧ Chain.all_chars Js.is_space sp = true.
Proof.
  induction s as [|c s (sp & IH & Hsp)]; simpl.
  - by exists "".
  - destruct (Js.is_space c) eqn:E.
    + exists (String c sp). rewrite string_app_cons, <- IH. simpl.
      by rewrite E, Hsp.
    + by exists "".
Qed.

(** [rtrim] removes a suffix of whitespace. *)
Lemma rtrim_suffix (s : string) :
  ∃ sp, s = Js.rtrim s ++ sp.
Proof.
  unfold Js.rtrim. destruct (ltrim_prefix (String.rev s)) as (sp & E & _).
  exists (String.rev sp).
  by rewrite <- rev_append, <- E, rev_involutive.
Qed.

Lemma rtrim_no_lead (s : string) : no_lead s → no_lead (Js.rtrim s).
Proof.
  intros Hs. destruct (rtrim_suffix s) as (sp & E).
  destruct (Js.rtrim s) as [|c r]; [done|].
  rewrite E in Hs. exact Hs.
Qed.

Lemma trim_trimmed (s : string) : trimmed (Js.trim s).
Proof.
  split.
  - apply rtrim_no_lead, ltrim_no_lead.
  - unfold Js.trim, Js.rtrim. rewrite rev_involutive. apply ltrim_no_lead.
Qed.

Lemma trim_id (s : string) : trimmed s → Js.trim s = s.
Proof.
  intros [Hl Hr]. unfold Js.trim, Js.rtrim.
  by rewrite (ltrim_id s Hl), (ltrim_id _ Hr), rev_involutive.
Qed.

Lemma trim_idempotent (s : string) : Js.trim (Js.trim s) = Js.trim s.
Proof. apply trim_id, trim_trimmed. Qed.

(** ** Splitting *)

Lemma split_go_lacks (sep : ascii) (cur s : string) :
  lacks sep s = true → Js.split_go sep cur s = [String.rev cur ++ s].
Proof.
  revert cur. induction s as [|c s IH]; intros cur Hs.
  - cbn [Js.split_go]. by rewrite string_app_nil_r.
  - cbn [lacks Chain.all_chars] in Hs. apply andb_true_iff in Hs as [Hc Hs].
    apply negb_true_iff, bool_decide_eq_false in Hc.
    cbn [Js.split_go]. rewrite bool_decide_eq_false_2 by done.
    rewrite (IH _ Hs), rev_cons, string_app_assoc. reflexivity.
Qed.

Lemma split_lacks (sep : ascii) (s : string) :
  lacks sep s = true → Js.split sep s = [s].
Proof. intros Hs. unfold Js.split. by rewrite split_go_lacks. Qed.

Lemma split_go_nonempty (sep : ascii) (cur s : string) :
  Js.split_go sep cur s ≠ [].
Proof.
  revert cur. induction s as [|c s IH]; intros cur; cbn [Js.split_go]; [done|].
  case_bool_decide; [done | apply IH].
Qed.

Lemma last_cons_nonempty {A} (x d : A) (l : list A) :
  l ≠ [] → List.last (x :: l) d = List.last l d.
Proof. by destruct l. Qed.

(** The last piece of a string that ends in [sep] followed by [s]. *)
Lemma split_go_last (sep : ascii) (cur p s : string) :
  lacks sep s = true →
  List.last (Js.split_go sep cur (p ++ String sep s)) "" = s.
Proof.
  intros Hs. revert cur. induction p as [|c p IH]; intros cur.
  - rewrite string_app_nil_l. cbn [Js.split_go].
    rewrite bool_decide_eq_true_2 by done.
    by rewrite (split_go_lacks sep "" s Hs).
  - rewrite string_app_cons. cbn [Js.split_go]. case_bool_decide.
    + rewrite last_cons_nonempty by apply split_go_nonempty. apply IH.
    + apply IH.
Qed.

(** The first piece of a string that starts with [n] followed by [sep]. *)
Lemma split_go_head (sep : ascii) (cur n e : string) :
  lacks sep n = true →
  List.hd "" (Js.split_go sep cur (n ++ String sep e)) = String.rev cur ++ n.
Proof.
  revert cur. induction n as [|c n IH]; intros cur Hn.
  - rewrite string_app_nil_l, string_app_nil_r. cbn [Js.split_go].
    by rewrite bool_decide_eq_true_2.
  - cbn [lacks Chain.all_chars] in Hn. apply andb_true_iff in Hn as [Hc Hn].
    apply negb_true_iff, bool_decide_eq_false in Hc.
    rewrite string_app_cons. cbn [Js.split_go].
    rewrite bool_decide_eq_false_2 by done.
    rewrite (IH _ Hn), rev_cons, string_app_assoc. reflexivity.
Qed.

Lemma lacks_append (c : ascii) (s t : string) :
  lacks c (s ++ t) = lacks c s && lacks c t.
Proof.
  induction s as [|x s IH]; [done|].
  rewrite string_app_cons. cbn [lacks Chain.all_chars]. fold (lacks c (s ++ t)).
  fold (lacks c s). by rewrite IH, andb_assoc.
Qed.

Lemma digits_lack (c : ascii) (s : string) :
  Chain.is_digit c = false →
  Chain.all_chars Chain.is_digit s = true → lacks c s = true.
Proof.
  intros Hc. induction s as [|x s IH]; [done|].
  cbn [lacks Chain.all_chars]. intros [Hx Hs]%andb_true_iff.
  fold (lacks c s). rewrite (IH Hs), andb_true_r.
  apply negb_true_iff, bool_decide_eq_false. intros ->. congruence.
Qed.

(** The public id derived from a URL whose last segment is [name.ext]. *)
Lemma publicId_of_url (prefix name ext : string) :
  lacks "/" name = true → lacks "." name = true → lacks "/" ext = true →
  publicId_of (prefix ++ "/" ++ name ++ "." ++ ext) = "blog-uploads/" ++ name.
Proof.
  intros Hn Hd He. unfold publicId_of, Js.split.
  change ("/" ++ name ++ "." ++ ext) with (String "/" (name ++ "." ++ ext)).
  rewrite split_go_last.
  - change ("." ++ ext) with (String "." ext). by rewrite split_go_head.
  - rewrite lacks_append, Hn. by change ("." ++ ext) with (String "." ext).
Qed.

Lemma public_id_lacks (c : ascii) (img : ImagePart) :
  Chain.is_digit c = false → lacks c "blog_" = true →
  Chain.all_chars Chain.is_digit (stamp img) = true →
  Chain.all_chars Chain.is_digit (random img) = true →
  lacks c (Cloudinary.public_id img) = true.
Proof.
  intros Hc Hb Hs Hr. unfold Cloudinary.public_id.
  rewrite !lacks_append, Hb, (digits_lack c _ Hc Hs), (digits_lack c _ Hc Hr).
  cbn [andb]. rewrite andb_true_r.
  cbn [lacks Chain.all_chars]. rewrite andb_true_r.
  apply negb_true_iff, bool_decide_eq_false. intros <-. by vm_compute in Hb.
Qed.

Lemma secure_url_public_id (img : ImagePart) :
  Chain.all_chars Chain.is_digit (stamp img) = true →
  Chain.all_chars Chain.is_digit (random img) = true →
  lacks "/" (format img) = true →
  publicId_of (Cloudinary.secure_url img) = Cloudinary.full_public_id img.
Proof.
  intros Hs Hr Hf.
  pose proof (publicId_of_url "https://res.cloudinary.com/blog/image/upload/v1/blog-uploads"
                (Cloudinary.public_id img) (format img)) as H.
  specialize (H ltac:(by apply public_id_lacks) ltac:(by apply public_id_lacks) Hf).
  unfold Cloudinary.secure_url, Cloudinary.full_public_id, Cloudinary.folder.
  etrans; [|exact H]. f_equal; by rewrite ?string_app_assoc.
Qed.

Lemma secure_url_truthy (img : ImagePart) :
  negb (Js.truthy (Cloudinary.secure_url img)) = false.
Proof. reflexivity. Qed.

Lemma upload_ok (img : ImagePart) (w : World) :
  head (cdn_faults w) ≠ Some true →
  Cloudinary.upload img w =
    (Ok (mkStoredFile (Cloudinary.secure_url img)),
     set_assets ({[ Cloudinary.full_public_id img ]} ∪ assets w)
       (set_cdn_faults (tail (cdn_faults w))
          (set_trace (trace w ++ [EvUpload (Cloudinary.full_public_id img)])%list w))).
Proof.
  intros H. unfold Cloudinary.upload, Cloudinary.call.
  destruct w as [ps a h1 h2 h3 tr dbf cf].
  cbn [cdn_faults trace assets set_trace set_cdn_faults set_assets head tail] in *.
  by destruct cf as [|[] cf].
Qed.

(** X1: [deleteImage] derives from the URL of an uploaded image exactly the
    public id that the storage engine gave it, so that deleting the image
    of a post removes the blob that was uploaded for it.  Of any URL only
    the last segment up to its first dot is used, under the fixed folder. *)
Theorem deleteImage_inverts_upload (img : ImagePart) (w : World) :
  Chain.all_chars Chain.is_digit (stamp img) = true →
  Chain.all_chars Chain.is_digit (random img) = true →
  lacks "/" (format img) = true →
  publicId_of (Cloudinary.secure_url img) = Cloudinary.full_public_id img
  ∧ (head (cdn_faults w) ≠ Some true →
     head (tail (cdn_faults w)) ≠ Some true →
     Cloudinary.full_public_id img ∉ assets w →
     ∃ f w1,
       Cloudinary.upload img w = (Ok f, w1)
       ∧ assets w1 = {[ Cloudinary.full_public_id img ]} ∪ assets w
       ∧ assets (deleteImage (path f) w1).2 = assets w)
  ∧ (∀ prefix name rest,
       lacks "/" name = true → lacks "." name = true → lacks "/" rest = true →
       publicId_of (prefix ++ "/" ++ name ++ "." ++ rest) = "blog-uploads/" ++ name).
Proof.
  intros Hs Hr Hf. pose proof (secure_url_public_id img Hs Hr Hf) as Hid.
  split; [done|]. split; [|intros; by apply publicId_of_url].
  intros H1 H2 Hnew. do 2 eexists. split; [by apply upload_ok|].
  split; [by destruct w|].
  rewrite deleteImage_eq. cbn [path]. rewrite secure_url_truthy, Hid. cbv zeta.
  destruct w as [ps a h1 h2 h3 tr dbf cf].
  cbn [cdn_faults trace assets set_trace set_cdn_faults set_assets head tail] in *.
  destruct cf as [|c1 [|[] cf]];
    cbn [tail head snd assets set_trace set_assets set_cdn_faults] in *;
    try done;
    apply leibniz_equiv; intros x;
    rewrite elem_of_difference, elem_of_union, elem_of_singleton;
    (split; [by intros [[?|?] ?] | intros ?; split; [by right | by intros ->]]).
Qed.

Lemma deleteImage_inverts_upload_witness :
  publicId_of (Cloudinary.secure_url sample_image) =
    Cloudinary.full_public_id sample_image.
Proof.
  refine (proj1 (deleteImage_inverts_upload sample_image empty_world _ _ _));
    vm_compute; reflexivity.
Defined.

(** ** Grouping of validation errors *)

Lemma formattedErrors_snoc (errs : list FieldError) (e : FieldError) :
  formattedErrors (errs ++ [e]) =
    push_error (err_path e) (err_msg e) (formattedErrors errs).
Proof. unfold formattedErrors. by rewrite fold_left_app. Qed.

Lemma push_error_keys (p m : string) (acc : list (string * list string)) :
  (push_error p m acc).*1 =
    if bool_decide (p ∈ acc.*1) then acc.*1 else (acc.*1 ++ [p])%list.
Proof.
  induction acc as [|[k ms] acc IH]; [done|].
  cbn [push_error]. destruct (decide (k = p)) as [->|Hk].
  - rewrite (bool_decide_eq_true_2 (p = p)) by done.
    rewrite !fmap_cons. cbn [fst].
    rewrite bool_decide_eq_true_2; [done | left].
  - rewrite (bool_decide_eq_false_2 (k = p)) by done.
    rewrite !fmap_cons, IH. cbn [fst].
    destruct (decide (p ∈ acc.*1)) as [Hin|Hin].
    + rewrite !bool_decide_eq_true_2; [done | by right | done].
    + rewrite !bool_decide_eq_false_2; [done | | done].
      intros [?|?]%elem_of_cons; by simplify_eq.
Qed.

Lemma push_error_NoDup (p m : string) (acc : list (string * list string)) :
  NoDup acc.*1 → NoDup (push_error p m acc).*1.
Proof.
  intros Hnd. rewrite push_error_keys. case_bool_decide as Hin; [done|].
  apply NoDup_app. split; [done|]. split; [|apply NoDup_singleton].
  intros x Hx ->%list_elem_of_singleton. done.
Qed.

Lemma push_error_lookup (p m q : string) (acc : list (string * list string)) :
  (list_to_map (push_error p m acc) : gmap string (list string)) !! q =
    if bool_decide (q = p)
    then Some (default [] ((list_to_map acc : gmap string (list string)) !! p) ++ [m])%list
    else (list_to_map acc : gmap string (list string)) !! q.
Proof.
  induction acc as [|[k ms] acc IH].
  - cbn [push_error]. rewrite list_to_map_cons, list_to_map_nil. cbn [fst snd].
    rewrite lookup_empty.
    case_bool_decide as Hq; simplify_eq.
    + by rewrite lookup_insert_eq.
    + rewrite lookup_insert_ne by congruence. by rewrite lookup_empty.
  - cbn [push_error]. destruct (decide (k = p)) as [->|Hk].
    + rewrite (bool_decide_eq_true_2 (p = p)) by done.
      rewrite !list_to_map_cons. cbn [fst snd].
      destruct (decide (q = p)) as [->|Hq].
      * rewrite (bool_decide_eq_true_2 (p = p)) by done.
        by rewrite !lookup_insert_eq.
      * rewrite (bool_decide_eq_false_2 (q = p)) by done.
        by rewrite !lookup_insert_ne by congruence.
    + rewrite (bool_decide_eq_false_2 (k = p)) by done.
      rewrite !list_to_map_cons. cbn [fst snd].
      destruct (decide (q = k)) as [->|Hqk].
      * rewrite !lookup_insert_eq. by rewrite bool_decide_eq_false_2 by done.
      * rewrite lookup_insert_ne by congruence. rewrite IH.
        destruct (decide (q = p)) as [->|Hq].
        -- rewrite (bool_decide_eq_true_2 (p = p)) by done.
           by rewrite lookup_insert_ne by congruence.
        -- rewrite (bool_decide_eq_false_2 (q = p)) by done.
           by rewrite lookup_insert_ne by congruence.
Qed.

Lemma messages_at_snoc (p : string) (errs : list FieldError) (e : FieldError) :
  messages_at p (errs ++ [e]) =
    (messages_at p errs ++ if bool_decide (err_path e = p) then [err_msg e] else [])%list.
Proof.
  unfold messages_at. rewrite List.filter_app, map_app. f_equal.
  cbn [List.filter]. by destruct (bool_decide _).
Qed.

Lemma formattedErrors_lookup (errs : list FieldError) (p : string) :
  NoDup (formattedErrors errs).*1
  ∧ (list_to_map (formattedErrors errs) : gmap string (list string)) !! p =
      match messages_at p errs with
      | [] => None
      | ms => Some ms
      end.
Proof.
  induction errs as [|e errs [IH1 IH2]] using rev_ind.
  - split; [apply NoDup_nil_2 | done].
  - rewrite formattedErrors_snoc. split; [by apply push_error_NoDup|].
    rewrite push_error_lookup, messages_at_snoc.
    case_bool_decide as Hp; simplify_eq.
    + rewrite bool_decide_eq_true_2 by done. rewrite IH2.
      by destruct (messages_at (err_path e) errs).
    + rewrite bool_decide_eq_false_2 by done. by rewrite app_nil_r.
Qed.

(** X2: the [errors] object that [validate] sends has one key for each
    field with a failure, and under it the messages reported for that field
    in the order they were reported; no field is listed twice, and no field
    is listed without a message. *)
Theorem formattedErrors_groups (errs : list FieldError) :
  NoDup (formattedErrors errs).*1
  ∧ (∀ p ms, (p, ms) ∈ formattedErrors errs ↔
       ms = messages_at p errs ∧ ms ≠ [])
  ∧ (∀ p, p ∈ (formattedErrors errs).*1 ↔ p ∈ map err_path errs).
Proof.
  assert (Hnd : NoDup (formattedErrors errs).*1)
    by apply (formattedErrors_lookup errs "").
  assert (Hiff : ∀ p ms, (p, ms) ∈ formattedErrors errs ↔
                   ms = messages_at p errs ∧ ms ≠ []).
  { intros p ms. rewrite elem_of_list_to_map by done.
    rewrite (proj2 (formattedErrors_lookup errs p)).
    destruct (messages_at p errs) as [|m l]; split.
    - done.
    - by intros [-> ?].
    - by intros [= <-].
    - by intros [-> _]. }
  split; [done|]. split; [done|].
  intros p. rewrite list_elem_of_fmap. split.
  - intros ([q ms] & -> & [Hms Hne]%Hiff). cbn [fst].
    destruct ms as [|m l]; [done|].
    assert (Hin : m ∈ messages_at q errs) by (rewrite <- Hms; left).
    unfold messages_at in Hin.
    apply list_elem_of_fmap in Hin as (e & _ & He).
    apply list_elem_of_In, filter_In in He as [He Hq].
    apply bool_decide_eq_true in Hq as <-.
    apply list_elem_of_In, in_map, He.
  - intros Hin. apply list_elem_of_In, in_map_iff in Hin as (e & <- & He).
    exists (err_path e, messages_at (err_path e) errs). split; [done|].
    apply Hiff. split; [done|].
    assert (Hm : err_msg e ∈ messages_at (err_path e) errs).
    { unfold messages_at. apply list_elem_of_fmap. exists e. split; [done|].
      apply list_elem_of_In, filter_In. split; [done|].
      by apply bool_decide_eq_true. }
    intros Hnil. rewrite Hnil in Hm. by apply elem_of_nil in Hm.
Qed.

(** ** The validators of the update, lookup and delete routes *)

(** The chain [isMongoId] on the [id] parameter: it reports the
    parameter when it is not an identifier, and leaves the value as sent. *)
Lemma run_param_id (msg : string) (r : Req) :
  let c := Chain.param "id" [Chain.isMongoId msg] in
  let id := default "" (params r !! "id") in
  body (Chain.run c r) = body r
  ∧ default "" (params (Chain.run c r) !! "id") = id
  ∧ errors (Chain.run c r) =
      (errors r ++ if Chain.is_mongo_id id then [] else [mkFieldError "id" msg])%list.
Proof.
  intros c id. unfold Chain.run, c, Chain.param, id. simpl.
  destruct (params r !! "id") as [s|] eqn:E; simpl.
  - rewrite bool_decide_eq_true_2 by done.
    rewrite E. by destruct (Chain.is_mongo_id s).
  - by rewrite lookup_insert_eq.
Qed.

(** A chain [optional; trim; isLength] on a body field: the field is
    checked, and trimmed, only when it was sent. *)
Lemma run_body_optional (f msg : string) (lo : nat) (hi : option nat) (r : Req) :
  let c := Chain.body f [Chain.optional; Chain.trim; Chain.isLength lo hi msg] in
  body (Chain.run c r) !! f = Js.trim <$> body r !! f
  ∧ (∀ g, g ≠ f → body (Chain.run c r) !! g = body r !! g)
  ∧ params (Chain.run c r) = params r
  ∧ errors (Chain.run c r) =
      (errors r ++
       match Js.trim <$> body r !! f with
       | Some v => if Chain.is_length lo hi v then [] else [mkFieldError f msg]
       | None => []
       end)%list.
Proof.
  intros c. unfold Chain.run, c, Chain.body. simpl.
  destruct (body r !! f) as [s|] eqn:E; simpl.
  - destruct (Chain.is_length lo hi (Js.trim s)); simpl;
      case_bool_decide as Hs; simpl; simplify_eq;
      repeat split; try done;
      try (by rewrite ?lookup_insert_eq);
      try (by rewrite E; f_equal);
      try (intros g Hg; by rewrite lookup_insert_ne by congruence).
  - rewrite E. by rewrite app_nil_r.
Qed.

(** The update validators on a request without earlier failures. *)
Lemma update_validators_run (r : Req) :
  errors r = [] →
  let r' := Chain.run_all postValidators.update r in
  (errors r' = [] ↔
   valid_update (default "" (params r !! "id")) (body r) = true)
  ∧ default "" (params r' !! "id") = default "" (params r !! "id")
  ∧ body r' !! "heading" = Js.trim <$> body r !! "heading"
  ∧ body r' !! "description" = Js.trim <$> body r !! "description".
Proof.
  intros He. unfold Chain.run_all, postValidators.update. cbn [fold_left].
  pose proof (run_param_id "Invalid post ID" r) as (B1 & P1 & E1).
  set (r1 := Chain.run _ r) in *.
  pose proof (run_body_optional "heading"
    "Heading must be between 3 and 200 characters" 3 (Some 200) r1)
    as (B2 & B2' & P2 & E2).
  set (r2 := Chain.run _ r1) in *.
  pose proof (run_body_optional "description"
    "Description must be at least 10 characters" 10 None r2)
    as (B3 & B3' & P3 & E3).
  cbv zeta in *.
  rewrite B3, (B3' "heading"), (B2' "description"), B2, B1, P3, P2, P1 by done.
  split; [|done].
  rewrite E3, E2, E1, He, (B2' "description"), B1 by done.
  unfold valid_update.
  destruct (Chain.is_mongo_id _); simpl;
    destruct (body r !! "heading") as [h|]; simpl;
    try destruct (Chain.is_length 3 (Some 200) (Js.trim h)); simpl;
    destruct (body r !! "description") as [d|]; simpl;
    try destruct (Chain.is_length 10 None (Js.trim d)); simpl; done.
Qed.

Lemma params_parse_body (r : Req) : params (parse_body r) = params r.
Proof. unfold parse_body. by destruct (payload r). Qed.

Lemma within_charge_other (l l' : Limiter) (a a' : string) (w : World) :
  store l ≠ store l' → within l a (charge l' a' w) = within l a w.
Proof. intros Hs. unfold within. by rewrite hits_charge_other. Qed.

(** The multipart stage on a request without an image part. *)
Lemma upload_single_plain (r : Req) (w : World) :
  sent_image r = None →
  upload_single (parse_body r) w =
    (Next (set_body (sent_fields r) (parse_body r)), w).
Proof.
  unfold upload_single, sent_image, sent_fields, parse_body.
  destruct (payload r) as [|fields|fields [img|]] eqn:E; simpl; try done;
    rewrite ?E; done.
Qed.

Lemma invalid_id_pipeline (h : Req → M Response) (cs : list Chain.t)
      (r : Req) (w : World) :
  cs = [Chain.param "id" [Chain.isMongoId "Invalid post ID"]] →
  errors r = [] →
  Chain.is_mongo_id (default "" (params r !! "id")) = false →
  pipeline [validators cs; validate; handler h] r w = (invalidId, w).
Proof.
  intros -> He Hid. rewrite pipeline_validation.
  unfold Chain.run_all. cbn [fold_left].
  pose proof (run_param_id "Invalid post ID" r) as (_ & _ & E).
  cbv zeta in E. rewrite Hid, He in E.
  unfold validationFailed. by rewrite E.
Qed.

(** X3: a lookup, or an authenticated deletion, whose [id] is not a
    MongoDB identifier is answered with 400 and the message
    [Invalid post ID] under the key [id]; the Record Store is not called,
    and nothing but the hit counter of the address changes. *)
Theorem invalid_id_rejected (r : Req) (w : World) :
  route r = GetPostById ∨ (route r = DeletePost ∧ is_Some (identity r)) →
  within apiLimiter (ip r) w = true →
  Chain.is_mongo_id (default "" (params r !! "id")) = false →
  app r w = (invalidId, charge apiLimiter (ip r) w).
Proof.
  intros Hr Hw Hid.
  rewrite app_posts_eq by (by destruct Hr as [->|[-> _]]). rewrite Hw.
  destruct Hr as [->|[-> [u Hu]]]; unfold router.
  - apply (invalid_id_pipeline getPostById); [done | apply errors_parse_body |].
    by rewrite params_parse_body.
  - rewrite pipeline_cons. unfold auth. rewrite identity_parse_body, Hu.
    apply (invalid_id_pipeline deletePost); [done | apply errors_parse_body |].
    by rewrite params_parse_body.
Qed.

Lemma invalid_id_rejected_witness :
  app (mkReq GetPostById "203.0.113.7" None {[ "id" := "42" ]} ∅ NoBody ∅ None
             [] "" 0) empty_world
  = (invalidId,
     charge apiLimiter "203.0.113.7" empty_world).
Proof.
  apply (invalid_id_rejected
           (mkReq GetPostById "203.0.113.7" None {[ "id" := "42" ]} ∅ NoBody ∅
                  None [] "" 0) empty_world).
  - by left.
  - vm_compute; reflexivity.
  - vm_compute; reflexivity.
Defined.

(** X4: an authenticated update request without an image part is
    answered with [Validation failed] exactly when its [id] is not a MongoDB
    identifier, or a [heading] it sends has once trimmed fewer than 3 or
    more than 200 characters, or a [description] it sends has once trimmed
    fewer than 10; a field that is not sent is not checked, an empty one is.
    The rejected request leaves everything but the hit counters as it was. *)
Theorem update_validation (r : Req) (w : World) :
  route r = PutPost →
  is_Some (identity r) →
  within apiLimiter (ip r) w = true →
  within uploadLimiter (ip r) w = true →
  sent_image r = None →
  let ok := valid_update (default "" (params r !! "id")) (sent_fields r) in
  is_validation (app r w).1 = negb ok
  ∧ (ok = false →
     status (app r w).1 = 400
     ∧ (app r w).2 = charge uploadLimiter (ip r) (charge apiLimiter (ip r) w)).
Proof.
  intros Hr [u Hu] Hw Hw' Hi ok.
  rewrite app_posts_eq by (by rewrite Hr). rewrite Hw, Hr. unfold router.
  rewrite pipeline_guarded, identity_parse_body, Hu, ip_parse_body.
  rewrite within_charge_other, Hw' by done.
  rewrite pipeline_cons, upload_single_plain by done.
  rewrite pipeline_validation.
  set (r1 := set_body _ _).
  assert (He : errors r1 = []) by apply errors_parse_body.
  pose proof (update_validators_run r1 He) as (Hv & _). cbv zeta in Hv.
  assert (Hok : valid_update (default "" (params r1 !! "id")) (body r1) = ok).
  { unfold ok, r1. cbn [params body set_body]. by rewrite params_parse_body. }
  rewrite Hok in Hv.
  destruct (errors (Chain.run_all postValidators.update r1)) as [|e es].
  - rewrite (proj1 Hv eq_refl). cbn [negb]. split; [|done].
    pose proof (handlers_answer_not_validation
                  (Chain.run_all postValidators.update r1)
                  (charge uploadLimiter (ip r) (charge apiLimiter (ip r) w)))
      as (_ & Hn & _).
    unfold is_validation. destruct (json _) eqn:Ej; try done.
    by apply Hn in Ej.
  - destruct ok; [by destruct Hv as [_ Hv]; specialize (Hv eq_refl)|].
    done.
Qed.

Lemma update_validation_witness :
  is_validation
    (app (put_request {[ "heading" := "" ]} None) pictured_world).1 = true.
Proof.
  assert (H1 : within apiLimiter
                 (ip (put_request {[ "heading" := "" ]} None)) pictured_world = true)
    by (vm_compute; reflexivity).
  assert (H2 : within uploadLimiter
                 (ip (put_request {[ "heading" := "" ]} None)) pictured_world = true)
    by (vm_compute; reflexivity).
  exact (proj1 (update_validation (put_request {[ "heading" := "" ]} None)
                  pictured_world eq_refl (ex_intro _ "author" eq_refl) H1 H2 eq_refl)).
Defined.

(** ** Outcomes of the routes *)

Lemma charge_frame (l : Limiter) (a : string) (w : World) :
  posts (charge l a w) = posts w
  ∧ assets (charge l a w) = assets w
  ∧ trace (charge l a w) = trace w
  ∧ db_faults (charge l a w) = db_faults w
  ∧ cdn_faults (charge l a w) = cdn_faults w.
Proof. unfold charge. by destruct (store l). Qed.

Lemma cast_is_mongo_id (s k : string) :
  Mongoose.castObjectId s = Some k → Chain.is_mongo_id s = true.
Proof.
  unfold Mongoose.castObjectId, Chain.is_mongo_id, Chain.is_hexadecimal.
  destruct (Nat.eqb (String.length s) 24) eqn:El; [|done].
  destruct (Chain.all_chars Chain.is_hex s) eqn:Eh; [|done].
  intros _. assert (Js.truthy s = true) as ->; [|done].
  apply truthy_length. apply Nat.eqb_eq in El. lia.
Qed.

(** The validators of the lookup and delete routes on an identifier. *)
Lemma id_validators_run (r : Req) :
  errors r = [] →
  Chain.is_mongo_id (default "" (params r !! "id")) = true →
  let r' := Chain.run_all
              [Chain.param "id" [Chain.isMongoId "Invalid post ID"]] r in
  errors r' = []
  ∧ default "" (params r' !! "id") = default "" (params r !! "id").
Proof.
  intros He Hid. unfold Chain.run_all. cbn [fold_left].
  pose proof (run_param_id "Invalid post ID" r) as (_ & P & E).
  cbv zeta in *. by rewrite E, P, He, Hid.
Qed.

Lemma getPostById_eq (r : Req) (w : World) (k : string) :
  named_id r = Some k →
  getPostById r w =
    match head (db_faults w) with
    | Some true =>
        (Ok serverError,
         set_trace (trace w ++ [EvFindById k; EvConsoleError "Get post error:"])%list
                   (set_db_faults (tail (db_faults w)) w))
    | _ =>
        (Ok match posts w !! k with
            | Some p => found (k, p)
            | None => notFound
            end,
         after_db [EvFindById k] 1 w)
    end.
Proof.
  unfold named_id. intros Hk.
  unfold getPostById, try_catch, bind, Mongoose.findById. rewrite Hk.
  unfold Mongoose.call, ret, emit, after_db.
  destruct w as [ps a h1 h2 h3 tr dbf cf].
  cbn [posts db_faults trace set_trace set_db_faults head tail].
  destruct dbf as [|[] dbf];
    cbn [posts db_faults trace set_trace set_db_faults head tail drop];
    rewrite <- ?app_assoc; try done;
    by destruct (ps !! k).
Qed.

Lemma app_lookup_eq (r : Req) (w : World) (k : string) :
  route r = GetPostById →
  within apiLimiter (ip r) w = true →
  named_id r = Some k →
  ∃ r', named_id r' = Some k
    ∧ app r w = answer (getPostById r' (charge apiLimiter (ip r) w)).
Proof.
  intros Hr Hw Hk. rewrite app_posts_eq by (by rewrite Hr). rewrite Hw, Hr.
  unfold router. rewrite pipeline_validation.
  pose proof (id_validators_run (parse_body r) (errors_parse_body r)) as Hv.
  rewrite params_parse_body in Hv.
  specialize (Hv (cast_is_mongo_id _ _ Hk)). cbv zeta in Hv.
  destruct Hv as [He Hp]. unfold postValidators.getById. rewrite He.
  eexists. split; [|reflexivity]. unfold named_id. by rewrite Hp.
Qed.

(** X5: a lookup by a well-formed identifier is answered with the stored
    post when there is one, with 404 [Post not found] when there is none,
    and with 500 [Server error] when the Record Store fails; in each case
    the Record Store and the Asset Store are left as they were. *)
Theorem lookup_outcomes (r : Req) (w : World) (k : string) :
  route r = GetPostById →
  within apiLimiter (ip r) w = true →
  named_id r = Some k →
  (head (db_faults w) ≠ Some true →
   (app r w).1 = match posts w !! k with
                 | Some p => found (k, p)
                 | None => notFound
                 end)
  ∧ (head (db_faults w) = Some true → (app r w).1 = serverError)
  ∧ posts (app r w).2 = posts w
  ∧ assets (app r w).2 = assets w.
Proof.
  intros Hr Hw Hk.
  destruct (app_lookup_eq r w k Hr Hw Hk) as (r' & Hk' & ->).
  rewrite (getPostById_eq r' _ k Hk').
  destruct (charge_frame apiLimiter (ip r) w) as (Hp & Ha & _ & Hd & _).
  rewrite Hd, Hp.
  destruct (head (db_faults w)) as [[]|]; cbn [answer fst snd];
    repeat split; try done;
    destruct (trace_after_db [EvFindById k] 1 (charge apiLimiter (ip r) w))
      as (_ & Hp' & Ha' & _); by rewrite ?Hp', ?Ha'.
Qed.

Lemma lookup_outcomes_witness :
  (app (lookup_request "203.0.113.7" (sample_id 0)) pictured_world).1
  = found (sample_id 0, pictured_post).
Proof.
  assert (Hw : within apiLimiter (ip (lookup_request "203.0.113.7" (sample_id 0)))
                 pictured_world = true) by (vm_compute; reflexivity).
  assert (Hk : named_id (lookup_request "203.0.113.7" (sample_id 0))
               = Some (sample_id 0)) by (vm_compute; reflexivity).
  assert (Hf : head (db_faults pictured_world) ≠ Some true) by done.
  pose proof (proj1 (lookup_outcomes (lookup_request "203.0.113.7" (sample_id 0))
                       pictured_world (sample_id 0) eq_refl Hw Hk) Hf) as H.
  assert (Hp : posts pictured_world !! sample_id 0 = Some pictured_post)
    by (vm_compute; reflexivity).
  rewrite Hp in H. exact H.
Defined.

(** ** Creation *)

Lemma run_meta (c : Chain.t) (r : Req) :
  objectId (Chain.run c r) = objectId r
  ∧ now (Chain.run c r) = now r
  ∧ file (Chain.run c r) = file r.
Proof.
  unfold Chain.run. destruct (_ && _); [done|].
  destruct (Chain.run_items _ _) as [v es]. simpl.
  case_bool_decide; [done|]. by destruct (Chain.location c).
Qed.

Lemma run_body_value (f m1 m2 : string) (lo : nat) (hi : option nat) (r : Req) :
  let c := Chain.body f [Chain.trim; Chain.notEmpty m1; Chain.isLength lo hi m2] in
  body (Chain.run c r) !! f = Some (Js.trim (default "" (body r !! f))).
Proof.
  intros c. unfold Chain.run, c, Chain.body. simpl.
  set (v := Js.trim (default "" (body r !! f))).
  destruct (Js.truthy v), (Chain.is_length lo hi v);
    case_bool_decide as Hs; simpl; try done;
    by rewrite lookup_insert_eq.
Qed.

Lemma create_validators_ok (r : Req) :
  errors r = [] →
  valid_create (body r) →
  let r' := Chain.run_all postValidators.create r in
  errors r' = []
  ∧ body r' !! "heading" = Some (Js.trim (default "" (body r !! "heading")))
  ∧ body r' !! "description" = Some (Js.trim (default "" (body r !! "description")))
  ∧ file r' = file r ∧ objectId r' = objectId r ∧ now r' = now r.
Proof.
  intros He Hv r'.
  pose proof (create_errors_run r He) as Herr. cbv zeta in Herr.
  apply create_messages_nil in Hv as [Hh Hd].
  fold r' in Herr. rewrite Hh, Hd in Herr. split; [done|].
  unfold r', Chain.run_all, postValidators.create. cbn [fold_left].
  pose proof (run_body_chain "heading" "Heading is required"
    "Heading must be between 3 and 200 characters" 3 (Some 200) r) as (_ & B1).
  pose proof (run_body_value "heading" "Heading is required"
    "Heading must be between 3 and 200 characters" 3 (Some 200) r) as V1.
  cbv zeta in B1, V1.
  set (r1 := Chain.run _ r) in *.
  pose proof (run_body_chain "description" "Description is required"
    "Description must be at least 10 characters" 10 None r1) as (_ & B2).
  pose proof (run_body_value "description" "Description is required"
    "Description must be at least 10 characters" 10 None r1) as V2.
  cbv zeta in *.
  rewrite (B2 "heading"), V1, V2, (B1 "description") by done.
  destruct (run_meta (Chain.body "description"
              [Chain.trim; Chain.notEmpty "Description is required";
               Chain.isLength 10 None "Description must be at least 10 characters"])
              r1) as (O2 & N2 & F2).
  destruct (run_meta (Chain.body "heading"
              [Chain.trim; Chain.notEmpty "Heading is required";
               Chain.isLength 3 (Some 200)
                 "Heading must be between 3 and 200 characters"]) r)
    as (O1 & N1 & F1).
  fold r1 in O1, N1, F1.
  by rewrite O2, N2, F2, O1, N1, F1.
Qed.

Lemma schema_ok_lengths (h d : string) :
  (3 ≤ String.length h ≤ 200)%nat → (10 ≤ String.length d)%nat →
  Mongoose.heading_ok h && Mongoose.description_ok d = true.
Proof.
  intros Hh Hd. unfold Mongoose.heading_ok, Mongoose.description_ok.
  rewrite !andb_true_iff, !Nat.leb_le, !truthy_length. lia.
Qed.

(** The creation handler on validated input, when the Record Store
    answers and the identifier is new. *)
Lemma createPost_ok (r : Req) (w : World) (h d : string) :
  body r !! "heading" = Some h →
  body r !! "description" = Some d →
  Mongoose.heading_ok (Js.trim h) && Mongoose.description_ok (Js.trim d) = true →
  head (db_faults w) ≠ Some true →
  posts w !! objectId r = None →
  let p := mkPost (Js.trim h) (Js.trim d) (Some (default "" (path <$> file r)))
                  (now r) (now r) in
  createPost r w =
    (Ok (created (objectId r, p)),
     set_posts (<[objectId r := p]> (posts w)) (after_db [EvSave (objectId r)] 1 w)).
Proof.
  intros Hh Hd Hok Hf Hnew p.
  unfold createPost, try_catch, bind, Mongoose.save. cbv zeta. rewrite Hh, Hd.
  assert (Hdata : match file r with
                  | Some f => mkPostData (data_heading (mkPostData (Some h) (Some d) None))
                                (data_description (mkPostData (Some h) (Some d) None))
                                (Some (path f))
                  | None => mkPostData (Some h) (Some d) None
                  end = mkPostData (Some h) (Some d) (path <$> file r))
    by (by destruct (file r)).
  rewrite Hdata. cbn [data_heading data_description data_image fmap option_fmap option_map].
  rewrite Hok. unfold Mongoose.call, ret, after_db, created.
  destruct w as [ps a h1 h2 h3 tr dbf cf].
  cbn [posts db_faults trace set_trace set_db_faults set_posts head] in *.
  destruct dbf as [|[] dbf];
    cbn [posts db_faults trace set_trace set_db_faults set_posts drop];
    try done; by rewrite Hnew.
Qed.

Lemma meta_parse_body (r : Req) :
  objectId (parse_body r) = objectId r ∧ now (parse_body r) = now r.
Proof. unfold parse_body. by destruct (payload r). Qed.

Lemma after_upload_frame (img : ImagePart) (w : World) :
  posts (after_upload img w) = posts w
  ∧ db_faults (after_upload img w) = db_faults w
  ∧ assets (after_upload img w) = {[ Cloudinary.full_public_id img ]} ∪ assets w
  ∧ trace (after_upload img w) =
      (trace w ++ [EvUpload (Cloudinary.full_public_id img)])%list.
Proof. by destruct w. Qed.

(** The multipart stage on a request whose image part, if it has one, is
    accepted and stored. *)
Lemma upload_single_ok (r : Req) (w : World) :
  accepted_upload r w →
  upload_single (parse_body r) w =
    (Next (set_file (mkStoredFile <$> (Cloudinary.secure_url <$> sent_image r))
             (set_body (sent_fields r) (parse_body r))),
     match sent_image r with
     | Some img => after_upload img w
     | None => w
     end).
Proof.
  unfold accepted_upload. destruct (sent_image r) as [img|] eqn:Ei.
  - intros (Hf & Hs & Hc). unfold upload_single. rewrite payload_parse_body.
    unfold sent_image, sent_fields in *.
    destruct (payload r) as [| |fields part]; try done. simplify_eq.
    rewrite Hf. assert (Z.ltb fileSize (size img) = false) as ->
      by (apply Z.ltb_ge; lia).
    unfold lift. by rewrite upload_ok.
  - intros _. rewrite upload_single_plain by done. do 2 f_equal.
    unfold set_file, set_body, parse_body.
    by destruct (payload r).
Qed.

(** The creation route on an accepted request. *)
Lemma app_create_ok (r : Req) (w : World) :
  route r = PostPost →
  is_Some (identity r) →
  within apiLimiter (ip r) w = true →
  within uploadLimiter (ip r) w = true →
  accepted_upload r w →
  valid_create (sent_fields r) →
  head (db_faults w) ≠ Some true →
  posts w !! objectId r = None →
  let w1 := charge uploadLimiter (ip r) (charge apiLimiter (ip r) w) in
  let w2 := match sent_image r with
            | Some img => after_upload img w1
            | None => w1
            end in
  app r w =
    (created (objectId r, requested_post r),
     set_posts (<[objectId r := requested_post r]> (posts w2))
               (after_db [EvSave (objectId r)] 1 w2)).
Proof.
  intros Hr [u Hu] Hw Hw' Ha Hv Hf Hnew w1 w2.
  destruct (charge_frame uploadLimiter (ip r) (charge apiLimiter (ip r) w))
    as (P1 & _ & _ & D1 & C1).
  destruct (charge_frame apiLimiter (ip r) w) as (P0 & _ & _ & D0 & C0).
  fold w1 in P1, D1, C1.
  assert (Hw2 : posts w2 = posts w ∧ db_faults w2 = db_faults w).
  { unfold w2. destruct (sent_image r) as [img|].
    - destruct (after_upload_frame img w1) as (-> & -> & _). by rewrite P1, D1, P0, D0.
    - by rewrite P1, D1, P0, D0. }
  destruct Hw2 as [P2 D2].
  rewrite app_posts_eq by (by rewrite Hr). rewrite Hw, Hr. unfold router.
  rewrite pipeline_guarded, identity_parse_body, Hu, ip_parse_body.
  rewrite within_charge_other, Hw' by done. fold w1.
  rewrite pipeline_cons, upload_single_ok
    by (unfold accepted_upload in *; destruct (sent_image r); [by rewrite C1, C0|done]).
  fold w2. rewrite pipeline_validation.
  set (r1 := set_file _ _).
  assert (He : errors r1 = []) by apply errors_parse_body.
  pose proof (create_validators_ok r1 He Hv) as (E & Bh & Bd & Fl & Oi & Nw).
  rewrite E. cbn [body set_file set_body r1] in Bh, Bd.
  destruct (meta_parse_body r) as [Ho Hn].
  cbn [objectId now file set_file set_body r1] in Fl, Oi, Nw.
  rewrite Ho in Oi. rewrite Hn in Nw.
  destruct Hv as [Hh Hd].
  rewrite (createPost_ok _ w2 _ _ Bh Bd); rewrite ?trim_idempotent, ?Oi, ?Nw, ?Fl.
  - cbn [answer]. f_equal; [f_equal; f_equal|f_equal; f_equal];
      unfold requested_post, stored_url; by destruct (sent_image r).
  - by apply schema_ok_lengths.
  - by rewrite D2.
  - by rewrite P2.
Qed.

(** X6: an authenticated creation request with valid fields, whose image
    part (if any) is accepted, is answered with 201 and the new post: the
    trimmed heading and description, the URL of the stored image or the
    empty string, and the time of the request as both timestamps.  The post
    is stored under the new identifier, the image under its public id, and a
    lookup of the identifier that follows is answered with the same post. *)
Theorem create_then_read (r g : Req) (w : World) :
  route r = PostPost →
  is_Some (identity r) →
  within apiLimiter (ip r) w = true →
  within uploadLimiter (ip r) w = true →
  accepted_upload r w →
  valid_create (sent_fields r) →
  head (db_faults w) ≠ Some true →
  posts w !! objectId r = None →
  let w' := (app r w).2 in
  (app r w).1 = created (objectId r, requested_post r)
  ∧ posts w' = <[objectId r := requested_post r]> (posts w)
  ∧ assets w' = match sent_image r with
                | Some img => {[ Cloudinary.full_public_id img ]} ∪ assets w
                | None => assets w
                end
  ∧ (route g = GetPostById →
     named_id g = Some (objectId r) →
     within apiLimiter (ip g) w' = true →
     head (db_faults w') ≠ Some true →
     (app g w').1 = found (objectId r, requested_post r)).
Proof.
  intros Hr Hu Hw Hw' Ha Hv Hf Hnew w'.
  pose proof (app_create_ok r w Hr Hu Hw Hw' Ha Hv Hf Hnew) as Happ.
  cbv zeta in Happ. unfold w'. rewrite Happ. cbn [fst snd].
  set (w1 := charge uploadLimiter (ip r) (charge apiLimiter (ip r) w)).
  destruct (charge_frame uploadLimiter (ip r) (charge apiLimiter (ip r) w))
    as (P1 & A1 & _).
  destruct (charge_frame apiLimiter (ip r) w) as (P0 & A0 & _).
  fold w1 in P1, A1.
  set (w2 := match sent_image r with
             | Some img => after_upload img w1
             | None => w1
             end).
  assert (P2 : posts w2 = posts w).
  { unfold w2. destruct (sent_image r) as [img|]; [|by rewrite P1, P0].
    destruct (after_upload_frame img w1) as (-> & _). by rewrite P1, P0. }
  assert (A2 : assets w2 = match sent_image r with
                           | Some img => {[ Cloudinary.full_public_id img ]} ∪ assets w
                           | None => assets w
                           end).
  { unfold w2. destruct (sent_image r) as [img|]; [|by rewrite A1, A0].
    destruct (after_upload_frame img w1) as (_ & _ & -> & _). by rewrite A1, A0. }
  set (w3 := set_posts _ _).
  assert (P3 : posts w3 = <[objectId r := requested_post r]> (posts w))
    by (unfold w3; by rewrite <- P2).
  assert (A3 : assets w3 = assets w2).
  { unfold w3. cbn [assets set_posts].
    by destruct (trace_after_db [EvSave (objectId r)] 1 w2) as (_ & _ & -> & _). }
  split; [done|]. split; [done|]. split; [by rewrite A3|].
  intros Hg Hk Hgw Hgf.
  destruct (app_lookup_eq g w3 (objectId r) Hg Hgw Hk) as (g' & Hk' & ->).
  rewrite (getPostById_eq g' _ _ Hk').
  destruct (charge_frame apiLimiter (ip g) w3) as (Pg & _ & _ & Dg & _).
  rewrite Dg, Pg, P3, lookup_insert_eq.
  by destruct (head (db_faults w3)) as [[]|].
Qed.

Lemma create_then_read_witness :
  (app (post_request (sample_fields "  Hello World " "A description long enough")
                     (Some sample_image)) empty_world).1
  = created (sample_id 0,
             mkPost "Hello World" "A description long enough"
                    (Some (Cloudinary.secure_url sample_image)) 5 5).
Proof.
  set (r := post_request (sample_fields "  Hello World " "A description long enough")
                         (Some sample_image)).
  assert (H1 : within apiLimiter (ip r) empty_world = true) by (vm_compute; reflexivity).
  assert (H2 : within uploadLimiter (ip r) empty_world = true)
    by (vm_compute; reflexivity).
  assert (H3 : accepted_upload r empty_world).
  { unfold accepted_upload. cbn. split; [vm_compute; reflexivity|].
    split; [vm_compute; discriminate | discriminate]. }
  assert (H4 : valid_create (sent_fields r)) by (vm_compute; lia).
  assert (H5 : head (db_faults empty_world) ≠ Some true) by discriminate.
  assert (H6 : posts empty_world !! objectId r = None) by (vm_compute; reflexivity).
  assert (H7 : requested_post r =
               mkPost "Hello World" "A description long enough"
                      (Some (Cloudinary.secure_url sample_image)) 5 5)
    by (vm_compute; reflexivity).
  pose proof (proj1 (create_then_read r r empty_world eq_refl
                       (ex_intro _ "author" eq_refl) H1 H2 H3 H4 H5 H6)) as H.
  rewrite H7 in H. exact H.
Defined.

(** ** Deletion *)

Lemma db_ok_heads (w : World) :
  db_ok 2 w = true →
  head (db_faults w) ≠ Some true ∧ head (drop 1 (db_faults w)) ≠ Some true.
Proof.
  unfold db_ok. destruct (db_faults w) as [|[] [|[] l]]; simpl; try done.
Qed.

Lemma findByIdAndDelete_ok (id k : string) (w : World) :
  Mongoose.castObjectId id = Some k →
  head (db_faults w) ≠ Some true →
  Mongoose.findByIdAndDelete id w =
    (Ok (pair k <$> posts w !! k),
     set_posts (delete k (posts w)) (after_db [EvFindByIdAndDelete k] 1 w)).
Proof.
  intros Hk Hf. unfold Mongoose.findByIdAndDelete, Mongoose.call, after_db.
  rewrite Hk. destruct w as [ps a h1 h2 h3 tr dbf cf].
  cbn [posts db_faults trace set_trace set_db_faults set_posts head] in *.
  by destruct dbf as [|[] dbf].
Qed.

(** The deletion handler on a stored post, when the Record Store answers. *)
Lemma deletePost_found (r : Req) (w : World) (k : string) (e : Post) :
  named_id r = Some k →
  posts w !! k = Some e →
  db_ok 2 w = true →
  let x := deletePost r w in
  x.1 = Ok deleted
  ∧ posts x.2 = delete k (posts w)
  ∧ (Js.truthy_opt (image e) = false →
     assets x.2 = assets w
     ∧ trace x.2 = (trace w ++ [EvFindById k; EvFindByIdAndDelete k])%list)
  ∧ (∀ u, image e = Some u → u ≠ "" → head (cdn_faults w) ≠ Some true →
       assets x.2 = assets w ∖ {[ publicId_of u ]}).
Proof.
  unfold named_id. intros Hk He Hdb.
  apply db_ok_heads in Hdb as [Hf1 Hf2].
  unfold deletePost, try_catch, bind.
  rewrite (findById_found _ k w Hk Hf1), He. cbn [fmap option_fmap option_map].
  destruct (trace_after_db [EvFindById k] 1 w) as (T1 & P1 & A1 & C1 & D1).
  set (w1 := after_db [EvFindById k] 1 w) in *.
  destruct (Js.truthy_opt (image e)) eqn:Et; cbn [when].
  - destruct (image e) as [u|] eqn:Eu; [|done]. cbn [Js.truthy_opt] in Et.
    change (default "" (Some u)) with u.
    assert (Hu : u ≠ "") by (by intros ->).
    destruct (deleteImage_trace u w1 Hu) as (l & _ & T2 & P2 & D2 & R2 & A2).
    destruct (deleteImage u w1) as [res w2] eqn:Ed. cbn [fst snd] in *.
    subst res.
    rewrite (findByIdAndDelete_ok _ k w2 Hk) by (by rewrite D2, D1).
    cbn [ret fst snd posts assets set_posts].
    destruct (trace_after_db [EvFindByIdAndDelete k] 1 w2) as (_ & _ & A3 & _).
    split; [done|]. split; [by rewrite P2, P1|]. split; [done|].
    intros u' [= <-] _ Hc. rewrite A3, A2, A1 by (by rewrite C1). done.
  - unfold ret. rewrite (findByIdAndDelete_ok _ k w1 Hk) by (by rewrite D1).
    cbn [ret fst snd posts assets trace set_posts].
    destruct (trace_after_db [EvFindByIdAndDelete k] 1 w1) as (T3 & _ & A3 & _).
    split; [done|]. split; [by rewrite P1|]. split.
    + intros _. rewrite A3, A1, T3, T1, <- app_assoc. done.
    + intros u Hu Hne. rewrite Hu in Et. cbn [Js.truthy_opt] in Et.
      by destruct u.
Qed.

Lemma app_delete_eq (r : Req) (w : World) (k : string) :
  route r = DeletePost →
  is_Some (identity r) →
  within apiLimiter (ip r) w = true →
  named_id r = Some k →
  ∃ r', named_id r' = Some k
    ∧ app r w = answer (deletePost r' (charge apiLimiter (ip r) w)).
Proof.
  intros Hr [u Hu] Hw Hk. rewrite app_posts_eq by (by rewrite Hr). rewrite Hw, Hr.
  unfold router. rewrite pipeline_cons. unfold auth.
  rewrite identity_parse_body, Hu. rewrite pipeline_validation.
  pose proof (id_validators_run (parse_body r) (errors_parse_body r)) as Hv.
  rewrite params_parse_body in Hv.
  specialize (Hv (cast_is_mongo_id _ _ Hk)). cbv zeta in Hv.
  destruct Hv as [He Hp]. unfold postValidators.delete. rewrite He.
  eexists. split; [|reflexivity]. unfold named_id. by rewrite Hp.
Qed.

Lemma db_ok_charge (n : nat) (l : Limiter) (a : string) (w : World) :
  db_ok n (charge l a w) = db_ok n w.
Proof.
  unfold db_ok. by destruct (charge_frame l a w) as (_ & _ & _ & -> & _).
Qed.

(** X7: an authenticated deletion of a stored post, when the Record Store
    answers, is answered with 200 and removes the post, so that a lookup
    that follows is answered with 404.  The image of the post is removed
    from the Asset Store under the public id derived from its URL; for a
    post without an image the Asset Store is not called at all. *)
Theorem delete_then_read (r g : Req) (w : World) (k : string) (e : Post) :
  route r = DeletePost →
  is_Some (identity r) →
  within apiLimiter (ip r) w = true →
  named_id r = Some k →
  posts w !! k = Some e →
  db_ok 2 w = true →
  let w' := (app r w).2 in
  (app r w).1 = deleted
  ∧ posts w' = delete k (posts w)
  ∧ (Js.truthy_opt (image e) = false →
     assets w' = assets w
     ∧ trace w' = (trace w ++ [EvFindById k; EvFindByIdAndDelete k])%list)
  ∧ (∀ u, image e = Some u → u ≠ "" → head (cdn_faults w) ≠ Some true →
       assets w' = assets w ∖ {[ publicId_of u ]})
  ∧ (route g = GetPostById →
     named_id g = Some k →
     within apiLimiter (ip g) w' = true →
     head (db_faults w') ≠ Some true →
     (app g w').1 = notFound).
Proof.
  intros Hr Hu Hw Hk He Hdb w'.
  destruct (app_delete_eq r w k Hr Hu Hw Hk) as (r' & Hk' & Happ).
  destruct (charge_frame apiLimiter (ip r) w) as (P0 & A0 & T0 & D0 & C0).
  pose proof (deletePost_found r' (charge apiLimiter (ip r) w) k e Hk') as Hd.
  rewrite P0, db_ok_charge, A0, T0, C0 in Hd.
  specialize (Hd He Hdb). cbv zeta in Hd. destruct Hd as (R & P & A & A').
  unfold w'. rewrite Happ, answer_world.
  unfold answer. destruct (deletePost r' _) as [res w1] eqn:Ed.
  cbn [fst snd] in *. subst res.
  split; [done|]. split; [done|]. split; [done|]. split; [done|].
  intros Hg Hgk Hgw Hgf.
  destruct (app_lookup_eq g w1 k Hg Hgw Hgk) as (g' & Hk'' & ->).
  rewrite (getPostById_eq g' _ _ Hk'').
  destruct (charge_frame apiLimiter (ip g) w1) as (Pg & _ & _ & Dg & _).
  rewrite Dg, Pg, P, lookup_delete_eq.
  by destruct (head (db_faults w1)) as [[]|].
Qed.

Lemma delete_then_read_witness :
  (app delete_request pictured_world).1 = deleted.
Proof.
  assert (H1 : within apiLimiter (ip delete_request) pictured_world = true)
    by (vm_compute; reflexivity).
  assert (H2 : named_id delete_request = Some (sample_id 0))
    by (vm_compute; reflexivity).
  assert (H3 : posts pictured_world !! sample_id 0 = Some pictured_post)
    by (vm_compute; reflexivity).
  assert (H4 : db_ok 2 pictured_world = true) by (vm_compute; reflexivity).
  exact (proj1 (delete_then_read delete_request delete_request pictured_world
                  (sample_id 0) pictured_post eq_refl
                  (ex_intro _ "author" eq_refl) H1 H2 H3 H4)).
Defined.

(** ** Update *)

Lemma run_all_meta (cs : list Chain.t) (r : Req) :
  objectId (Chain.run_all cs r) = objectId r
  ∧ now (Chain.run_all cs r) = now r
  ∧ file (Chain.run_all cs r) = file r.
Proof.
  unfold Chain.run_all. revert r.
  induction cs as [|c cs IH]; intros r; [done|].
  cbn [fold_left]. destruct (IH (Chain.run c r)) as (-> & -> & ->).
  apply run_meta.
Qed.

Lemma when_deleteImage (b : bool) (u : string) (w : World) :
  ∃ w', when b (deleteImage u) w = (Ok tt, w')
    ∧ posts w' = posts w ∧ db_faults w' = db_faults w.
Proof.
  destruct b; [|by eexists]. cbn [when]. rewrite deleteImage_eq.
  destruct (negb _); [by eexists|]. cbv zeta.
  destruct w as [ps a h1 h2 h3 tr dbf cf].
  destruct cf as [|[] cf]; by eexists.
Qed.

Lemma findByIdAndUpdate_ok (id k : string) (d : PostData) (t : Z) (w : World)
      (e : Post) :
  Mongoose.castObjectId id = Some k →
  Mongoose.update_ok d = true →
  head (db_faults w) ≠ Some true →
  posts w !! k = Some e →
  Mongoose.findByIdAndUpdate id d t w =
    (Ok (Some (k, Mongoose.apply_update d t e)),
     set_posts (<[k := Mongoose.apply_update d t e]> (posts w))
               (after_db [EvFindByIdAndUpdate k] 1 w)).
Proof.
  intros Hk Hok Hf He. unfold Mongoose.findByIdAndUpdate, Mongoose.call, after_db.
  rewrite Hk, Hok. destruct w as [ps a h1 h2 h3 tr dbf cf].
  cbn [posts db_faults trace set_trace set_db_faults set_posts head] in *.
  destruct dbf as [|[] dbf];
    cbn [posts db_faults trace set_trace set_db_faults set_posts drop];
    try done; by rewrite He.
Qed.

Lemma trim_truthy (s : string) : Js.truthy (Js.trim s) = true → Js.truthy s = true.
Proof. by destruct s. Qed.

Lemma heading_ok_truthy (h : string) :
  Mongoose.heading_ok (Js.trim h) = true → Js.truthy h = true.
Proof.
  unfold Mongoose.heading_ok. intros [[H _]%andb_true_iff _]%andb_true_iff.
  by apply trim_truthy.
Qed.

Lemma description_ok_truthy (d : string) :
  Mongoose.description_ok (Js.trim d) = true → Js.truthy d = true.
Proof.
  unfold Mongoose.description_ok. intros [H _]%andb_true_iff.
  by apply trim_truthy.
Qed.

(** The update handler on a stored post and validated fields, when the
    Record Store answers. *)
Lemma updatePost_found (r : Req) (w : World) (k : string) (e : Post) :
  named_id r = Some k →
  posts w !! k = Some e →
  db_ok 2 w = true →
  (∀ h, body r !! "heading" = Some h → Mongoose.heading_ok (Js.trim h) = true) →
  (∀ d, body r !! "description" = Some d →
        Mongoose.description_ok (Js.trim d) = true) →
  ∃ w',
    updatePost r w =
      (Ok (updated (k, Mongoose.apply_update
                         (mkPostData (body r !! "heading") (body r !! "description")
                                     (path <$> file r)) (now r) e)), w')
    ∧ posts w' =
        <[k := Mongoose.apply_update
                 (mkPostData (body r !! "heading") (body r !! "description")
                             (path <$> file r)) (now r) e]> (posts w).
Proof.
  unfold named_id. intros Hk He Hdb Hh Hd.
  apply db_ok_heads in Hdb as [Hf1 Hf2].
  unfold updatePost, try_catch, bind.
  rewrite (findById_found _ k w Hk Hf1), He. cbn [fmap option_fmap option_map].
  destruct (trace_after_db [EvFindById k] 1 w) as (T1 & P1 & A1 & C1 & D1).
  set (w1 := after_db [EvFindById k] 1 w) in *.
  set (d0 := mkPostData (body r !! "heading") (body r !! "description") None).
  assert (Hd0 :
    (if Js.truthy_opt (body r !! "description")
     then mkPostData
            (data_heading
               (if Js.truthy_opt (body r !! "heading")
                then mkPostData (body r !! "heading")
                       (data_description (mkPostData None None None))
                       (data_image (mkPostData None None None))
                else mkPostData None None None))
            (body r !! "description")
            (data_image
               (if Js.truthy_opt (body r !! "heading")
                then mkPostData (body r !! "heading")
                       (data_description (mkPostData None None None))
                       (data_image (mkPostData None None None))
                else mkPostData None None None))
     else
       if Js.truthy_opt (body r !! "heading")
       then mkPostData (body r !! "heading")
              (data_description (mkPostData None None None))
              (data_image (mkPostData None None None))
       else mkPostData None None None) = d0).
  { unfold d0.
    destruct (body r !! "heading") as [h|] eqn:Eh;
      destruct (body r !! "description") as [d|] eqn:Ed;
      cbn [Js.truthy_opt];
      rewrite ?(heading_ok_truthy h (Hh h eq_refl)),
              ?(description_ok_truthy d (Hd d eq_refl)); done. }
  cbv zeta. rewrite Hd0.
  assert (Hok : ∀ i, Mongoose.update_ok
                       (mkPostData (body r !! "heading") (body r !! "description") i)
                     = true).
  { intros i. unfold Mongoose.update_ok. cbn [data_heading data_description].
    destruct (body r !! "heading") as [h|] eqn:Eh;
      destruct (body r !! "description") as [d|] eqn:Ed; cbn;
      rewrite ?(Hh h eq_refl), ?(Hd d eq_refl); done. }
  destruct (file r) as [f|] eqn:Ef; cbn [fmap option_fmap option_map].
  - destruct (when_deleteImage (Js.truthy_opt (image e))
                (default "" (image e)) w1) as (w2 & -> & P2 & D2).
    unfold ret at 1. cbn [data_heading data_description d0].
    rewrite (findByIdAndUpdate_ok _ k _ _ w2 e Hk (Hok _))
      by (by rewrite ?D2, ?D1, ?P2, ?P1).
    unfold ret. eexists. split; [reflexivity|].
    cbn [posts set_posts]. by rewrite P2, P1.
  - unfold ret at 1. unfold d0.
    rewrite (findByIdAndUpdate_ok _ k _ _ w1 e Hk (Hok _))
      by (by rewrite ?D1, ?P1).
    unfold ret. eexists. split; [reflexivity|].
    cbn [posts set_posts]. by rewrite P1.
Qed.

(** The update route on a request that passes the guards, the multipart
    stage and the validators. *)
Lemma app_update_eq (r : Req) (w : World) :
  route r = PutPost →
  is_Some (identity r) →
  within apiLimiter (ip r) w = true →
  within uploadLimiter (ip r) w = true →
  accepted_upload r w →
  valid_update (default "" (params r !! "id")) (sent_fields r) = true →
  let w1 := charge uploadLimiter (ip r) (charge apiLimiter (ip r) w) in
  let w2 := match sent_image r with
            | Some img => after_upload img w1
            | None => w1
            end in
  ∃ r', named_id r' = named_id r
    ∧ body r' !! "heading" = Js.trim <$> sent_fields r !! "heading"
    ∧ body r' !! "description" = Js.trim <$> sent_fields r !! "description"
    ∧ file r' = mkStoredFile <$> (Cloudinary.secure_url <$> sent_image r)
    ∧ now r' = now r
    ∧ app r w = answer (updatePost r' w2).
Proof.
  intros Hr [u Hu] Hw Hw' Ha Hv w1 w2.
  destruct (charge_frame uploadLimiter (ip r) (charge apiLimiter (ip r) w))
    as (_ & _ & _ & _ & C1).
  destruct (charge_frame apiLimiter (ip r) w) as (_ & _ & _ & _ & C0).
  fold w1 in C1.
  rewrite app_posts_eq by (by rewrite Hr). rewrite Hw, Hr. unfold router.
  rewrite pipeline_guarded, identity_parse_body, Hu, ip_parse_body.
  rewrite within_charge_other, Hw' by done. fold w1.
  rewrite pipeline_cons, upload_single_ok
    by (unfold accepted_upload in *; destruct (sent_image r);
        [by rewrite C1, C0|done]).
  fold w2. rewrite pipeline_validation.
  set (r1 := set_file _ _).
  assert (He : errors r1 = []) by apply errors_parse_body.
  pose proof (update_validators_run r1 He) as (E & Pi & Bh & Bd).
  cbn [params body set_file set_body r1] in E, Pi, Bh, Bd.
  rewrite params_parse_body in E, Pi.
  rewrite (proj2 E Hv).
  destruct (run_all_meta postValidators.update r1) as (_ & Nw & Fl).
  cbn [now file set_file set_body r1] in Nw, Fl.
  rewrite (proj2 (meta_parse_body r)) in Nw.
  exists (Chain.run_all postValidators.update r1).
  split; [unfold named_id; by rewrite Pi|]. by repeat split.
Qed.

Lemma sample_world_frame (w : World) (img : option ImagePart) :
  let w2 := match img with
            | Some i => after_upload i w
            | None => w
            end in
  posts w2 = posts w ∧ db_faults w2 = db_faults w
  ∧ assets w2 = match img with
                | Some i => {[ Cloudinary.full_public_id i ]} ∪ assets w
                | None => assets w
                end.
Proof. destruct img as [i|]; [by destruct w | done]. Qed.

(** X8: an authenticated update of a stored post with valid fields, when
    the Record Store answers, is answered with 200 and the revised post:
    each field that was sent has its trimmed new value, an attached image
    replaces the image URL, the time of the request becomes [updatedAt], and
    what was not sent, with [createdAt], is as it was.  The revised post is
    what the Record Store then holds under the identifier. *)
Theorem update_effect (r : Req) (w : World) (k : string) (e : Post) :
  route r = PutPost →
  is_Some (identity r) →
  within apiLimiter (ip r) w = true →
  within uploadLimiter (ip r) w = true →
  accepted_upload r w →
  valid_update (default "" (params r !! "id")) (sent_fields r) = true →
  named_id r = Some k →
  posts w !! k = Some e →
  db_ok 2 w = true →
  (app r w).1 = updated (k, revised_post r e)
  ∧ posts (app r w).2 = <[k := revised_post r e]> (posts w).
Proof.
  intros Hr Hu Hw Hw' Ha Hv Hk He Hdb.
  destruct (app_update_eq r w Hr Hu Hw Hw' Ha Hv)
    as (r' & Hk' & Bh & Bd & Fl & Nw & ->).
  set (w1 := charge uploadLimiter (ip r) (charge apiLimiter (ip r) w)).
  destruct (charge_frame uploadLimiter (ip r) (charge apiLimiter (ip r) w))
    as (P1 & _ & _ & D1 & _).
  destruct (charge_frame apiLimiter (ip r) w) as (P0 & _ & _ & D0 & _).
  fold w1 in P1, D1.
  destruct (sample_world_frame w1 (sent_image r)) as (P2 & D2 & _).
  cbv zeta in P2, D2.
  set (w2 := match sent_image r with
             | Some img => after_upload img w1
             | None => w1
             end) in *.
  apply andb_true_iff in Hv as [Hv Hvd]. apply andb_true_iff in Hv as [_ Hvh].
  destruct (updatePost_found r' w2 k e) as (w3 & Hup & P3).
  - by rewrite Hk'.
  - by rewrite P2, P1, P0.
  - unfold db_ok. by rewrite D2, D1, D0.
  - intros h Hh. rewrite Bh in Hh.
    destruct (sent_fields r !! "heading") as [h0|]; [|done].
    cbn in Hh, Hvh. simplify_eq. rewrite trim_idempotent.
    apply is_length_bounds in Hvh.
    unfold Mongoose.heading_ok.
    rewrite !andb_true_iff, !Nat.leb_le, truthy_length. lia.
  - intros d Hd. rewrite Bd in Hd.
    destruct (sent_fields r !! "description") as [d0|]; [|done].
    cbn in Hd, Hvd. simplify_eq. rewrite trim_idempotent.
    apply is_length_min in Hvd.
    unfold Mongoose.description_ok.
    rewrite !andb_true_iff, !Nat.leb_le, truthy_length. lia.
  - rewrite Hup. cbn [answer fst snd].
    assert (Hrev : Mongoose.apply_update
                     (mkPostData (body r' !! "heading") (body r' !! "description")
                                 (path <$> file r')) (now r') e
                   = revised_post r e).
    { unfold Mongoose.apply_update, revised_post.
      cbn [data_heading data_description data_image].
      rewrite Bh, Bd, Fl, Nw. f_equal.
      - destruct (sent_fields r !! "heading"); [|done]. cbn.
        by rewrite trim_idempotent.
      - destruct (sent_fields r !! "description"); [|done]. cbn.
        by rewrite trim_idempotent.
      - by destruct (sent_image r). }
    rewrite P3, Hrev, P2, P1, P0. done.
Qed.

Lemma update_effect_witness :
  (app (put_request {[ "heading" := " New heading " ]} None) pictured_world).1
  = updated (sample_id 0,
             mkPost "New heading" "A description long enough"
                    (Some (Cloudinary.secure_url sample_image)) 5 9).
Proof.
  set (r := put_request {[ "heading" := " New heading " ]} None).
  assert (H1 : within apiLimiter (ip r) pictured_world = true)
    by (vm_compute; reflexivity).
  assert (H2 : within uploadLimiter (ip r) pictured_world = true)
    by (vm_compute; reflexivity).
  assert (H3 : accepted_upload r pictured_world) by exact I.
  assert (H4 : valid_update (default "" (params r !! "id")) (sent_fields r) = true)
    by (vm_compute; reflexivity).
  assert (H5 : named_id r = Some (sample_id 0)) by (vm_compute; reflexivity).
  assert (H6 : posts pictured_world !! sample_id 0 = Some pictured_post)
    by (vm_compute; reflexivity).
  assert (H7 : db_ok 2 pictured_world = true) by (vm_compute; reflexivity).
  assert (H8 : revised_post r pictured_post =
               mkPost "New heading" "A description long enough"
                      (Some (Cloudinary.secure_url sample_image)) 5 9)
    by (vm_compute; reflexivity).
  pose proof (proj1 (update_effect r pictured_world (sample_id 0) pictured_post
                       eq_refl (ex_intro _ "author" eq_refl) H1 H2 H3 H4 H5 H6 H7))
    as H.
  rewrite H8 in H. exact H.
Defined.

(** ** Requests for a post that is not stored *)

Lemma handlers_absent (r : Req) (w : World) (k : string) :
  named_id r = Some k →
  posts w !! k = None →
  head (db_faults w) ≠ Some true →
  updatePost r w = (Ok notFound, after_db [EvFindById k] 1 w)
  ∧ deletePost r w = (Ok notFound, after_db [EvFindById k] 1 w).
Proof.
  unfold named_id. intros Hk Hn Hf.
  unfold updatePost, deletePost, try_catch, bind.
  by rewrite (findById_found _ k w Hk Hf), Hn.
Qed.

(** X9: an authenticated update or deletion that names a post which is
    not stored is answered with 404 [Post not found] and leaves the Record
    Store as it was.  The Asset Store is left as it was by a deletion; but
    the image attached to such an update has been stored by then, and
    stays. *)
Theorem missing_post (r : Req) (w : World) (k : string) :
  route r = PutPost ∨ route r = DeletePost →
  is_Some (identity r) →
  within apiLimiter (ip r) w = true →
  (route r = PutPost →
   within uploadLimiter (ip r) w = true
   ∧ accepted_upload r w
   ∧ valid_update (default "" (params r !! "id")) (sent_fields r) = true) →
  named_id r = Some k →
  posts w !! k = None →
  head (db_faults w) ≠ Some true →
  (app r w).1 = notFound
  ∧ posts (app r w).2 = posts w
  ∧ assets (app r w).2 =
      match uploads r with
      | Some img => {[ Cloudinary.full_public_id img ]} ∪ assets w
      | None => assets w
      end.
Proof.
  intros Hr Hu Hw Hput Hk Hn Hf.
  destruct (charge_frame apiLimiter (ip r) w) as (P0 & A0 & _ & D0 & _).
  destruct Hr as [Hr|Hr].
  - destruct (Hput Hr) as (Hw' & Ha & Hv).
    destruct (app_update_eq r w Hr Hu Hw Hw' Ha Hv)
      as (r' & Hk' & _ & _ & _ & _ & ->).
    set (w1 := charge uploadLimiter (ip r) (charge apiLimiter (ip r) w)).
    destruct (charge_frame uploadLimiter (ip r) (charge apiLimiter (ip r) w))
      as (P1 & A1 & _ & D1 & _).
    fold w1 in P1, A1, D1.
    destruct (sample_world_frame w1 (sent_image r)) as (P2 & D2 & A2).
    cbv zeta in P2, D2, A2.
    set (w2 := match sent_image r with
               | Some img => after_upload img w1
               | None => w1
               end) in *.
    destruct (handlers_absent r' w2 k) as [-> _];
      [by rewrite Hk' | by rewrite P2, P1, P0 | by rewrite D2, D1, D0 |].
    cbn [answer fst snd].
    destruct (trace_after_db [EvFindById k] 1 w2) as (_ & -> & -> & _).
    rewrite P2, P1, P0, A2, A1, A0. unfold uploads. by rewrite Hr.
  - destruct (app_delete_eq r w k Hr Hu Hw Hk) as (r' & Hk' & ->).
    destruct (handlers_absent r' (charge apiLimiter (ip r) w) k) as [_ ->];
      [done | by rewrite P0 | by rewrite D0 |].
    cbn [answer fst snd].
    destruct (trace_after_db [EvFindById k] 1 (charge apiLimiter (ip r) w))
      as (_ & -> & -> & _).
    rewrite P0, A0. unfold uploads. by rewrite Hr.
Qed.

Lemma missing_post_witness :
  (app delete_request empty_world).1 = notFound.
Proof.
  assert (H1 : within apiLimiter (ip delete_request) empty_world = true)
    by (vm_compute; reflexivity).
  assert (H2 : named_id delete_request = Some (sample_id 0))
    by (vm_compute; reflexivity).
  assert (H3 : posts empty_world !! sample_id 0 = None)
    by (vm_compute; reflexivity).
  assert (H4 : head (db_faults empty_world) ≠ Some true) by discriminate.
  assert (H5 : route delete_request = PutPost →
               within uploadLimiter (ip delete_request) empty_world = true
               ∧ accepted_upload delete_request empty_world
               ∧ valid_update (default "" (params delete_request !! "id"))
                              (sent_fields delete_request) = true)
    by discriminate.
  exact (proj1 (missing_post delete_request empty_world (sample_id 0)
                  (or_intror eq_refl) (ex_intro _ "author" eq_refl)
                  H1 H5 H2 H3 H4)).
Defined.

(** ** Failures of the multipart stage and of the Record Store *)




Lemma createPost_failed (r : Req) (w : World) (h d : string) :
  body r !! "heading" = Some h →
  body r !! "description" = Some d →
  Mongoose.heading_ok (Js.trim h) && Mongoose.description_ok (Js.trim d) = true →
  head (db_faults w) = Some true →
  createPost r w =
    (Ok (mkResponse 400 (JError "Error creating post"
                           (message Mongoose.networkError))),
     set_trace (trace w ++ [EvSave (objectId r);
                            EvConsoleError "Create post error:"])%list
               (set_db_faults (tail (db_faults w)) w)).
Proof.
  intros Hh Hd Hok Hf.
  unfold createPost, try_catch, bind, Mongoose.save. cbv zeta. rewrite Hh, Hd.
  assert (Hdata : match file r with
                  | Some f => mkPostData (data_heading (mkPostData (Some h) (Some d) None))
                                (data_description (mkPostData (Some h) (Some d) None))
                                (Some (path f))
                  | None => mkPostData (Some h) (Some d) None
                  end = mkPostData (Some h) (Some d) (path <$> file r))
    by (by destruct (file r)).
  rewrite Hdata. cbn [data_heading data_description data_image fmap option_fmap option_map].
  rewrite Hok. unfold Mongoose.call, ret, emit.
  destruct w as [ps a h1 h2 h3 tr dbf cf].
  cbn [posts db_faults trace set_trace set_db_faults set_posts head tail] in *.
  destruct dbf as [|[] dbf]; try done.
  cbn [posts db_faults trace set_trace set_db_faults set_posts message].
  by rewrite <- app_assoc.
Qed.

(** X11: when the Record Store fails while a valid creation request is
    saved, the request is answered with 400 [Error creating post] and no
    post is stored; the image that came with the request has been stored by
    then, and is left in the Asset Store: the handler makes no call to
    remove it. *)
Theorem create_store_failure (r : Req) (w : World) :
  route r = PostPost →
  is_Some (identity r) →
  within apiLimiter (ip r) w = true →
  within uploadLimiter (ip r) w = true →
  accepted_upload r w →
  valid_create (sent_fields r) →
  head (db_faults w) = Some true →
  (app r w).1 = mkResponse 400 (JError "Error creating post"
                                  (message Mongoose.networkError))
  ∧ posts (app r w).2 = posts w
  ∧ assets (app r w).2 =
      match sent_image r with
      | Some img => {[ Cloudinary.full_public_id img ]} ∪ assets w
      | None => assets w
      end
  ∧ Forall (fun ev => is_destroy ev = false) (new_events r w).
Proof.
  intros Hr [u Hu] Hw Hw' Ha Hv Hf.
  set (w1 := charge uploadLimiter (ip r) (charge apiLimiter (ip r) w)).
  destruct (charge_frame uploadLimiter (ip r) (charge apiLimiter (ip r) w))
    as (P1 & A1 & T1 & D1 & C1).
  destruct (charge_frame apiLimiter (ip r) w) as (P0 & A0 & T0 & D0 & C0).
  fold w1 in P1, A1, T1, D1, C1.
  destruct (sample_world_frame w1 (sent_image r)) as (P2 & D2 & A2).
  cbv zeta in P2, D2, A2.
  assert (T2 : trace (match sent_image r with
                      | Some img => after_upload img w1
                      | None => w1
                      end) =
               (trace w ++ match sent_image r with
                           | Some img => [EvUpload (Cloudinary.full_public_id img)]
                           | None => []
                           end)%list).
  { destruct (sent_image r) as [img|]; [|by rewrite app_nil_r, T1, T0].
    destruct (after_upload_frame img w1) as (_ & _ & _ & ->). by rewrite T1, T0. }
  set (w2 := match sent_image r with
             | Some img => after_upload img w1
             | None => w1
             end) in *.
  assert (Happ : app r w =
            (mkResponse 400 (JError "Error creating post"
                               (message Mongoose.networkError)),
             set_trace (trace w2 ++ [EvSave (objectId r);
                                     EvConsoleError "Create post error:"])%list
                       (set_db_faults (tail (db_faults w2)) w2))).
  { rewrite app_posts_eq by (by rewrite Hr). rewrite Hw, Hr. unfold router.
    rewrite pipeline_guarded, identity_parse_body, Hu, ip_parse_body.
    rewrite within_charge_other, Hw' by done. fold w1.
    rewrite pipeline_cons, upload_single_ok
      by (unfold accepted_upload in *; destruct (sent_image r);
          [by rewrite C1, C0|done]).
    fold w2. rewrite pipeline_validation.
    set (r1 := set_file _ _).
    assert (He : errors r1 = []) by apply errors_parse_body.
    pose proof (create_validators_ok r1 He Hv) as (E & Bh & Bd & Fl & Oi & Nw).
    rewrite E. destruct Hv as [Hvh Hvd].
    cbn [objectId set_file set_body r1] in Oi.
    rewrite (proj1 (meta_parse_body r)) in Oi.
    rewrite (createPost_failed _ w2 _ _ Bh Bd).
    - cbn [answer]. by rewrite Oi.
    - rewrite !trim_idempotent. by apply schema_ok_lengths.
    - by rewrite D2, D1, D0. }
  rewrite Happ. cbn [fst snd posts assets set_trace set_db_faults].
  split; [done|]. split; [by rewrite P2, P1, P0|].
  split; [by rewrite A2, A1, A0|].
  unfold new_events. rewrite Happ. cbn [snd trace set_trace]. rewrite T2.
  rewrite <- app_assoc, drop_app_length.
  destruct (sent_image r); by repeat constructor.
Qed.

Lemma create_store_failure_witness :
  Cloudinary.full_public_id sample_image ∈
    assets (app (post_request (sample_fields "Hello World" "A description long enough")
                   (Some sample_image))
              (set_db_faults [true] empty_world)).2.
Proof.
  set (r := post_request (sample_fields "Hello World" "A description long enough")
                         (Some sample_image)).
  set (w := set_db_faults [true] empty_world).
  assert (H1 : within apiLimiter (ip r) w = true) by (vm_compute; reflexivity).
  assert (H2 : within uploadLimiter (ip r) w = true) by (vm_compute; reflexivity).
  assert (H3 : accepted_upload r w).
  { unfold accepted_upload. cbn. split; [vm_compute; reflexivity|].
    split; [vm_compute; discriminate | discriminate]. }
  assert (H4 : valid_create (sent_fields r)) by (vm_compute; lia).
  destruct (create_store_failure r w eq_refl (ex_intro _ "author" eq_refl)
              H1 H2 H3 H4 eq_refl) as (_ & _ & H & _).
  rewrite H. apply elem_of_union_l, elem_of_singleton. reflexivity.
Defined.

(** ** Frames of the routes *)

(** A relation between worlds that the steps of a route keep is kept by
    every request to that route. *)
Lemma route_frames (R : World → World → Prop) (rt : Route) :
  (∀ w, R w w) →
  (∀ w1 w2 w3, R w1 w2 → R w2 w3 → R w1 w3) →
  (∀ w t, R w (set_trace t w)) →
  (∀ w f, R w (set_db_faults f w)) →
  (∀ l a w, R w (charge l a w)) →
  (rt = PostPost ∨ rt = PutPost ∨ rt = DeletePost →
   (∀ w f, R w (set_cdn_faults f w)) ∧ (∀ w a, R w (set_assets a w))) →
  (rt = PostPost → ∀ id t d, frames R (Mongoose.save id t d)) →
  (rt = PutPost → ∀ id d t, frames R (Mongoose.findByIdAndUpdate id d t)) →
  (rt = DeletePost → ∀ id, frames R (Mongoose.findByIdAndDelete id)) →
  ∀ r w, route r = rt → R w (app r w).2.
Proof.
  intros Hrefl Htrans Htrace Hdb Hhits Hcdn Hsave Hupd Hdel r w Hr.
  assert (Hl : ∀ ms, Forall (frames_mw R) ms →
               ∀ r w, R w (pipeline ms r w).2)
    by (intros ms Hms; by apply (frames_pipeline R)).
  assert (Hrl : ∀ l, frames_mw R (rateLimit l)).
  { intros l r' w'. rewrite rateLimit_eq.
    destruct (within l (ip r') w'); apply Hhits. }
  unfold app. rewrite Hr.
  destruct rt; apply Hl; unfold router;
    repeat (apply Forall_cons_2; [|]); try apply Forall_nil_2;
    try apply Hrl; try (by apply frames_auth);
    try (by apply frames_validators); try (by apply frames_validate);
    try (intros ? ?; apply Hrefl);
    try (apply frames_upload_single; try done; apply Hcdn; auto);
    apply frames_handler; intros ?.
  - by apply frames_getPosts.
  - by apply frames_getPostById.
  - apply frames_createPost; auto.
  - apply frames_updatePost; try done; try (apply Hcdn; auto). by apply Hupd.
  - apply frames_deletePost; try done; try (apply Hcdn; auto). by apply Hdel.
Qed.

Lemma posts_set (w : World) :
  (∀ t, posts (set_trace t w) = posts w)
  ∧ (∀ f, posts (set_db_faults f w) = posts w)
  ∧ (∀ f, posts (set_cdn_faults f w) = posts w)
  ∧ (∀ a, posts (set_assets a w) = posts w).
Proof. done. Qed.

(** ** The schema's bounds as an invariant *)

Lemma keeps_schema_same_posts (w w' : World) :
  posts w' = posts w → keeps_schema w w'.
Proof. intros E Hw k p. rewrite E. apply Hw. Qed.

Lemma keeps_schema_trans (w1 w2 w3 : World) :
  keeps_schema w1 w2 → keeps_schema w2 w3 → keeps_schema w1 w3.
Proof. unfold keeps_schema. tauto. Qed.

Ltac schema_rel :=
  first [ exact keeps_schema_trans
        | intros; apply keeps_schema_same_posts; reflexivity ].

Lemma keeps_schema_save (id : string) (t : Z) (d : PostData) :
  frames keeps_schema (Mongoose.save id t d).
Proof.
  unfold Mongoose.save.
  destruct (data_heading d) as [h|], (data_description d) as [ds|];
    cbn [fmap option_fmap option_map];
    try (apply frames_throw; schema_rel).
  destruct (_ && _) eqn:Hok; [|apply frames_throw; schema_rel].
  apply andb_true_iff in Hok as [Hh Hd].
  apply frames_db_call; try schema_rel.
  intros w. destruct (posts w !! id) eqn:E; [schema_rel|].
  intros Hw k p. cbn [snd]. unfold set_posts. cbn [posts].
  destruct (decide (id = k)) as [->|Hne].
  - rewrite lookup_insert_eq. intros [= <-]. unfold schema_ok.
    cbn [heading description]. by rewrite !trim_idempotent.
  - rewrite lookup_insert_ne by done. apply Hw.
Qed.

Lemma keeps_schema_findByIdAndUpdate (id : string) (d : PostData) (t : Z) :
  frames keeps_schema (Mongoose.findByIdAndUpdate id d t).
Proof.
  unfold Mongoose.findByIdAndUpdate.
  destruct (Mongoose.castObjectId id) as [k'|]; [|apply frames_throw; schema_rel].
  destruct (Mongoose.update_ok d) eqn:Hok; [|apply frames_throw; schema_rel].
  apply andb_true_iff in Hok as [Hh Hd].
  apply frames_db_call; try schema_rel.
  intros w. destruct (posts w !! k') as [p'|] eqn:E; [|schema_rel].
  intros Hw k p. cbn [snd]. unfold set_posts. cbn [posts].
  destruct (decide (k' = k)) as [->|Hne].
  - rewrite lookup_insert_eq. intros [= <-].
    destruct (Hw k p' E) as (S1 & S2 & S3 & S4).
    unfold schema_ok, Mongoose.apply_update. cbn [heading description].
    destruct (data_heading d) as [h|], (data_description d) as [ds|];
      cbn [fmap option_fmap option_map default] in *.
    all: unfold Datatypes.id in *; by rewrite ?trim_idempotent.
  - rewrite lookup_insert_ne by done. apply Hw.
Qed.

Lemma keeps_schema_findByIdAndDelete (id : string) :
  frames keeps_schema (Mongoose.findByIdAndDelete id).
Proof.
  unfold Mongoose.findByIdAndDelete.
  destruct (Mongoose.castObjectId id) as [k'|]; [|apply frames_throw; schema_rel].
  apply frames_db_call; try schema_rel.
  intros w Hw k p. cbn [snd]. unfold set_posts. cbn [posts].
  intros [_ Hk]%lookup_delete_Some. by apply (Hw k).
Qed.

Lemma keeps_schema_app (r : Req) (w : World) : keeps_schema w (app r w).2.
Proof.
  apply (route_frames keeps_schema (route r)); try schema_rel; try done.
  - intros l a w'. apply keeps_schema_same_posts, posts_charge.
  - intros _. split; schema_rel.
  - intros _. apply keeps_schema_save.
  - intros _. apply keeps_schema_findByIdAndUpdate.
  - intros _. apply keeps_schema_findByIdAndDelete.
Qed.

(** X12: the bounds of the schema are an invariant of the Record Store:
    if every stored post has a trimmed heading of 3 to 200 characters and a
    trimmed description of at least 10, then so it is after any sequence of
    requests, whatever they are and however the stores fail. *)
Theorem schema_invariant (rs : list Req) (w : World) :
  well_formed w → well_formed (serve rs w).
Proof.
  revert w. induction rs as [|r rs IH]; intros w Hw; [done|].
  cbn [serve fold_left]. apply IH. by apply keeps_schema_app.
Qed.

Lemma schema_invariant_witness :
  well_formed
    (serve [post_request (sample_fields "  Hello World " "A description long enough")
                         (Some sample_image);
            put_request {[ "heading" := " New heading " ]} None]
           empty_world).
Proof.
  apply (schema_invariant
           [post_request (sample_fields "  Hello World " "A description long enough")
                         (Some sample_image);
            put_request {[ "heading" := " New heading " ]} None]
           empty_world).
  intros k p Hk. cbn in Hk. by rewrite lookup_empty in Hk.
Defined.

(** ** What each route may do to the stores *)

Lemma footprint_refl (rt : Route) (w : World) : footprint rt w w.
Proof. destruct rt; cbn [footprint]; done || reflexivity. Qed.

Lemma footprint_trans (rt : Route) (w1 w2 w3 : World) :
  footprint rt w1 w2 → footprint rt w2 w3 → footprint rt w1 w3.
Proof.
  destruct rt; unfold footprint;
    try (intros [-> ->] [-> ->]; done);
    try (intros -> ->; done);
    try (intros H1 H2; by etrans);
    done.
Qed.

Lemma footprint_same (rt : Route) (w w' : World) :
  posts w' = posts w → assets w' = assets w → footprint rt w w'.
Proof. intros Hp Ha. destruct rt; unfold footprint; by rewrite ?Hp, ?Ha. Qed.

Lemma footprint_same_posts (rt : Route) (w w' : World) :
  rt = PostPost ∨ rt = PutPost ∨ rt = DeletePost →
  posts w' = posts w → footprint rt w w'.
Proof. intros [->|[->| ->]] Hp; unfold footprint; by rewrite Hp. Qed.

Lemma footprint_save (id : string) (t : Z) (d : PostData) :
  frames (footprint PostPost) (Mongoose.save id t d).
Proof.
  unfold Mongoose.save.
  destruct (Js.trim <$> data_heading d), (Js.trim <$> data_description d);
    try (apply frames_throw; apply footprint_refl).
  destruct (_ && _); [|apply frames_throw; apply footprint_refl].
  apply frames_db_call;
    try (intros; apply footprint_same_posts; [by left | done]);
    try apply footprint_trans.
  intros w. destruct (posts w !! id) eqn:E; [apply footprint_refl|].
  cbn [snd footprint posts set_posts]. by apply insert_subseteq.
Qed.

Lemma footprint_findByIdAndUpdate (id : string) (d : PostData) (t : Z) :
  frames (footprint PutPost) (Mongoose.findByIdAndUpdate id d t).
Proof.
  unfold Mongoose.findByIdAndUpdate.
  destruct (Mongoose.castObjectId id) as [k|];
    [|apply frames_throw; apply footprint_refl].
  destruct (Mongoose.update_ok d); [|apply frames_throw; apply footprint_refl].
  apply frames_db_call;
    try (intros; apply footprint_same_posts; [by right; left | done]);
    try apply footprint_trans.
  intros w. destruct (posts w !! k) eqn:E; [|apply footprint_refl].
  cbn [snd footprint posts set_posts]. apply dom_insert_lookup_L. by eexists.
Qed.

Lemma footprint_findByIdAndDelete (id : string) :
  frames (footprint DeletePost) (Mongoose.findByIdAndDelete id).
Proof.
  unfold Mongoose.findByIdAndDelete.
  destruct (Mongoose.castObjectId id) as [k|];
    [|apply frames_throw; apply footprint_refl].
  apply frames_db_call;
    try (intros; apply footprint_same_posts; [by right; right | done]);
    try apply footprint_trans.
  intros w. cbn [snd footprint posts set_posts]. apply delete_subseteq.
Qed.

(** X13: what a request can do to the stores is bounded by its route,
    whatever the request carries and however it is answered: a listing and
    a lookup change neither the Record Store nor the Asset Store; a creation
    leaves every stored post as it is and can only add one; a deletion leaves
    every remaining post as it is and can only remove; an update neither adds
    nor removes a post. *)
Theorem route_footprint (r : Req) (w : World) :
  footprint (route r) w (app r w).2.
Proof.
  apply (route_frames (footprint (route r)) (route r));
    try apply footprint_refl; try apply footprint_trans;
    try (intros; apply footprint_same; by destruct w);
    try done.
  - intros l a w'. destruct (charge_frame l a w') as (Hp & Ha & _).
    by apply footprint_same.
  - intros Hrt. split; intros; by apply footprint_same_posts.
  - intros ->. apply footprint_save.
  - intros ->. apply footprint_findByIdAndUpdate.
  - intros ->. apply footprint_findByIdAndDelete.
Qed.

(** ** Changes of the Record Store and the answer *)

Lemma commits_quiet {A} (P : A → Prop) (m : M A) :
  frames same_posts m → commits P m.
Proof.
  intros Hm w. specialize (Hm w). unfold same_posts in Hm.
  destruct (m w).1; auto.
Qed.

Lemma commits_bind_quiet {A B} (P : B → Prop) (m : M A) (k : A → M B) :
  frames same_posts m → (∀ a, commits P (k a)) → commits P (bind m k).
Proof.
  intros Hm Hk w. specialize (Hm w). unfold same_posts, bind in *.
  destruct (m w) as [[a|e] w1]; cbn [fst snd] in *; [|done].
  specialize (Hk a w1). destruct (k a w1) as [[b|e] w2]; cbn [fst snd] in *.
  - destruct Hk as [Hk|Hk]; [left; congruence | by right].
  - congruence.
Qed.

Lemma commits_bind_final {A B} (P : B → Prop) (m : M A) (k : A → B) :
  commits (fun _ => True) m → (∀ a, P (k a)) →
  commits P (bind m (fun a => ret (k a))).
Proof.
  intros Hm Hk w. specialize (Hm w). unfold bind, ret.
  destruct (m w) as [[a|e] w1]; cbn [fst snd] in *; [by right | done].
Qed.

Lemma commits_try_catch {A} (P : A → Prop) (m : M A) (h : Error → M A) :
  commits P m → (∀ e, frames same_posts (h e)) → commits P (try_catch m h).
Proof.
  intros Hm Hh w. specialize (Hm w). unfold try_catch.
  destruct (m w) as [[a|e] w1]; cbn [fst snd] in *; [done|].
  specialize (Hh e w1). unfold same_posts in Hh.
  destruct (h e w1) as [[a|e'] w2]; cbn [fst snd] in *; [left|]; congruence.
Qed.

Ltac posts_rel :=
  unfold same_posts; intros; try congruence; done.

Lemma same_posts_log (e : Event) (resp : Response) :
  frames same_posts (do! emit e in ret resp).
Proof.
  apply (frames_bind same_posts); posts_rel.
Qed.

Lemma same_posts_cleanup (b : bool) (u : string) :
  frames same_posts (when b (deleteImage u)).
Proof. apply frames_when, frames_deleteImage; posts_rel. Qed.

Lemma commits_save (id : string) (t : Z) (d : PostData) :
  commits (fun _ => True) (Mongoose.save id t d).
Proof.
  intros w. unfold Mongoose.save.
  destruct (Js.trim <$> data_heading d), (Js.trim <$> data_description d);
    try done.
  destruct (_ && _); [|done]. unfold Mongoose.call.
  destruct w as [ps a h1 h2 h3 tr dbf cf].
  destruct dbf as [|[] dbf]; cbn; try done;
    destruct (ps !! id); cbn; auto.
Qed.

Lemma commits_findByIdAndUpdate (id : string) (d : PostData) (t : Z) :
  commits (fun _ => True) (Mongoose.findByIdAndUpdate id d t).
Proof.
  intros w. unfold Mongoose.findByIdAndUpdate.
  destruct (Mongoose.castObjectId id) as [k|]; [|done].
  destruct (Mongoose.update_ok d); [|done]. unfold Mongoose.call.
  destruct w as [ps a h1 h2 h3 tr dbf cf].
  destruct dbf as [|[] dbf]; cbn; try done;
    destruct (ps !! k); cbn; auto.
Qed.

Lemma commits_findByIdAndDelete (id : string) :
  commits (fun _ => True) (Mongoose.findByIdAndDelete id).
Proof.
  intros w. unfold Mongoose.findByIdAndDelete.
  destruct (Mongoose.castObjectId id) as [k|]; [|done]. unfold Mongoose.call.
  destruct w as [ps a h1 h2 h3 tr dbf cf].
  destruct dbf as [|[] dbf]; cbn; auto.
Qed.

Lemma commits_createPost (r : Req) : commits (succeeded PostPost) (createPost r).
Proof.
  unfold createPost. apply commits_try_catch; [|intros e; apply same_posts_log].
  cbv zeta. apply (commits_bind_final (succeeded PostPost)); [|done].
  apply commits_save.
Qed.

Lemma commits_updatePost (r : Req) : commits (succeeded PutPost) (updatePost r).
Proof.
  unfold updatePost. apply commits_try_catch; [|intros e; apply same_posts_log].
  cbv zeta. apply commits_bind_quiet; [apply frames_findById; posts_rel|].
  intros [[k e]|]; [|apply commits_quiet, frames_ret; posts_rel].
  apply commits_bind_quiet.
  - destruct (file r); [|apply frames_ret; posts_rel].
    apply (frames_bind same_posts); try posts_rel.
    apply same_posts_cleanup.
  - intros d.
    apply (commits_bind_final (succeeded PutPost)); [|done].
    apply commits_findByIdAndUpdate.
Qed.

Lemma commits_deletePost (r : Req) : commits (succeeded DeletePost) (deletePost r).
Proof.
  unfold deletePost. apply commits_try_catch; [|intros e; apply same_posts_log].
  cbv zeta. apply commits_bind_quiet; [apply frames_findById; posts_rel|].
  intros [[k e]|]; [|apply commits_quiet, frames_ret; posts_rel].
  apply commits_bind_quiet; [apply same_posts_cleanup|]. intros _.
  apply (commits_bind_final (succeeded DeletePost)); [|done].
  apply commits_findByIdAndDelete.
Qed.

(** A pipeline of steps that leave the Record Store alone, ended by a
    handler. *)
Lemma pipeline_commits (P : Response → Prop) (ms : list Middleware)
      (h : Req → M Response) :
  Forall (frames_mw same_posts) ms →
  (∀ r, commits P (h r)) →
  ∀ r w, posts (pipeline (ms ++ [handler h]) r w).2 = posts w
         ∨ P (pipeline (ms ++ [handler h]) r w).1.
Proof.
  intros Hms Hh. induction Hms as [|m ms Hm _ IH]; intros r w.
  - rewrite app_nil_l, handler_last. specialize (Hh r w). unfold answer.
    destruct (h r w) as [[resp|e] w1]; cbn [fst snd] in *; auto.
  - rewrite <- app_comm_cons, pipeline_cons. specialize (Hm r w).
    unfold same_posts in Hm.
    destruct (m r w) as [[r1|e|resp] w1]; cbn [fst snd] in *; auto.
    destruct (IH r1 w1) as [H|H]; [left; congruence | by right].
Qed.

(** X14: a request to the posts routes has changed the Record Store only
    if it is answered with the success status of its route: 201 for a
    creation, 200 for an update or a deletion.  Whenever a request is
    answered otherwise, with a validation failure, an authorization or
    rate-limit refusal, 404 or an error, every stored post is as it was. *)
Theorem change_implies_success (r : Req) (w : World) :
  posts (app r w).2 = posts w ∨ succeeded (route r) (app r w).1.
Proof.
  assert (Hq : ∀ l, frames_mw same_posts (rateLimit l)).
  { intros l r' w'. rewrite rateLimit_eq. unfold same_posts.
    destruct (within l (ip r') w'); apply posts_charge. }
  assert (Ha : frames_mw same_posts auth) by (apply frames_auth; posts_rel).
  assert (Hv : ∀ cs, frames_mw same_posts (validators cs))
    by (intros cs; apply frames_validators; posts_rel).
  assert (Hvl : frames_mw same_posts validate) by (apply frames_validate; posts_rel).
  assert (Hu : frames_mw same_posts upload_single)
    by apply same_posts_upload_single.
  destruct (route r) eqn:Hr; unfold app; rewrite Hr; unfold router.
  - left. apply (frames_pipeline same_posts); try posts_rel.
    repeat apply Forall_cons_2; try apply Forall_nil_2; try done.
    apply frames_handler. intros r'. apply frames_getPosts; posts_rel.
  - left. apply (frames_pipeline same_posts); try posts_rel.
    repeat apply Forall_cons_2; try apply Forall_nil_2; try done.
    apply frames_handler. intros r'. apply frames_getPostById; posts_rel.
  - apply (pipeline_commits (succeeded PostPost)
             [rateLimit apiLimiter; auth; rateLimit uploadLimiter; upload_single;
              validators postValidators.create; validate] createPost);
      [|apply commits_createPost].
    repeat apply Forall_cons_2; try apply Forall_nil_2; done.
  - apply (pipeline_commits (succeeded PutPost)
             [rateLimit apiLimiter; auth; rateLimit uploadLimiter; upload_single;
              validators postValidators.update; validate] updatePost);
      [|apply commits_updatePost].
    repeat apply Forall_cons_2; try apply Forall_nil_2; done.
  - apply (pipeline_commits (succeeded DeletePost)
             [rateLimit apiLimiter; auth;
              validators postValidators.delete; validate] deletePost);
      [|apply commits_deletePost].
    repeat apply Forall_cons_2; try apply Forall_nil_2; done.
  - by right.
Qed.

(** ** The budget of the general limiter *)

Lemma general_hits_app (r : Req) (w : World) :
  hits General (app r w).2 =
    match route r with
    | AuthRoutes => hits General w
    | _ => <[ip r := S (general_count (ip r) w)]> (hits General w)
    end.
Proof.
  assert (Hp : route r ≠ AuthRoutes →
               hits General (app r w).2 =
                 <[ip r := S (general_count (ip r) w)]> (hits General w)).
  { intros Hr. rewrite (app_posts_eq r w Hr).
    destruct (within apiLimiter (ip r) w); cbn [fst snd];
      rewrite ?router_same_hits by done;
      by rewrite (hits_charge_same apiLimiter). }
  destruct (route r) eqn:Hr; try (by apply Hp).
  rewrite (app_auth_eq r w Hr).
  destruct (within authLimiter (ip r) w); cbn [fst snd];
    by rewrite (hits_charge_other authLimiter).
Qed.

Lemma general_count_app (a : string) (r : Req) (w : World) :
  general_count a (app r w).2 =
    (general_count a w + if to_posts a r then 1 else 0)%nat.
Proof.
  unfold general_count at 1. rewrite general_hits_app. unfold to_posts.
  destruct (decide (ip r = a)) as [->|Ha].
  - rewrite bool_decide_eq_true_2 by done.
    destruct (route r); rewrite ?lookup_insert_eq; unfold general_count; cbn; lia.
  - rewrite bool_decide_eq_false_2 by done.
    destruct (route r); rewrite ?lookup_insert_ne by done;
      unfold general_count; cbn; lia.
Qed.

Lemma general_count_serve (a : string) (rs : list Req) (w : World) :
  general_count a (serve rs w) =
    (general_count a w + length (List.filter (to_posts a) rs))%nat.
Proof.
  revert w. induction rs as [|r rs IH]; intros w; [cbn; lia|].
  cbn [serve fold_left List.filter]. fold (serve rs (app r w).2).
  rewrite IH, general_count_app. destruct (to_posts a r); cbn [length]; lia.
Qed.

(** X15: the general limiter counts, for each client address, the
    requests to the posts routes, whatever their route and outcome, and no
    others.  Once an address has made 100 of them, every further request
    from it to the posts routes is answered with 429 and the limiter's
    message, and changes nothing but that counter: no store is called. *)
Theorem general_budget (rs : list Req) (r : Req) (w : World) :
  route r ≠ AuthRoutes →
  (100 ≤ general_count (ip r) w + length (List.filter (to_posts (ip r)) rs))%nat →
  general_count (ip r) (serve rs w) =
    (general_count (ip r) w + length (List.filter (to_posts (ip r)) rs))%nat
  ∧ app r (serve rs w) =
      (mkResponse 429
         (JText "Too many requests from this IP, please try again later"),
       charge apiLimiter (ip r) (serve rs w)).
Proof.
  intros Hr Hn. split; [apply general_count_serve|].
  rewrite app_posts_eq by done.
  assert (within apiLimiter (ip r) (serve rs w) = false) as ->; [|done].
  unfold within. apply Nat.leb_gt.
  pose proof (general_count_serve (ip r) rs w) as Hc.
  unfold general_count in *. cbn [store apiLimiter hits max] in *. lia.
Qed.

Lemma general_budget_witness :
  status (app (list_request ∅)
              (serve (replicate 100 (list_request ∅)) empty_world)).1 = 429.
Proof.
  assert (Hr : route (list_request ∅) ≠ AuthRoutes) by discriminate.
  assert (Hn : (100 ≤ general_count (ip (list_request ∅)) empty_world
                + length (List.filter (to_posts (ip (list_request ∅)))
                            (replicate 100 (list_request ∅))))%nat)
    by (vm_compute; lia).
  destruct (general_budget (replicate 100 (list_request ∅)) (list_request ∅)
              empty_world Hr Hn) as [_ H].
  rewrite H. reflexivity.
Defined.

(** ** Validation of the list query *)

(** X16: a list request within the rate limit is answered with
    [Validation failed] exactly when its [page] is sent and is not an
    integer from 1 on, or its [limit] is sent and is not an integer from 1
    to 100, or its [search] is sent and has once trimmed more than 100
    characters.  The rejected request is answered with 400 before the Record
    Store is called, and changes nothing but the hit counter. *)
Theorem list_validation (r : Req) (w : World) :
  route r = GetPosts →
  within apiLimiter (ip r) w = true →
  is_validation (app r w).1 = negb (valid_list_query (query r))
  ∧ (valid_list_query (query r) = false →
     status (app r w).1 = 400
     ∧ (app r w).2 = charge apiLimiter (ip r) w).
Proof.
  intros Hr Hw. rewrite (app_list_eq r w Hr). cbv zeta. rewrite Hw.
  pose proof (list_validators_run (parse_body r)) as (_ & _ & _ & _ & He).
  cbv zeta in He. rewrite errors_parse_body, query_parse_body in He.
  set (r' := Chain.run_all postValidators.list (parse_body r)) in *.
  destruct (errors r') as [|e es].
  - destruct He as [He _]. destruct (He eq_refl) as [_ ->]. cbn [negb].
    split; [|done].
    destruct (getPosts_shape r' (charge apiLimiter (ip r) w))
      as (resp & w' & -> & [-> | (its & T & _ & ->)]); done.
  - destruct (valid_list_query (query r)); [|done].
    by destruct He as [_ He]; specialize (He (conj eq_refl eq_refl)).
Qed.

Lemma list_validation_witness :
  is_validation (app (list_request {[ "limit" := "101" ]}) empty_world).1 = true.
Proof.
  assert (Hw : within apiLimiter (ip (list_request {[ "limit" := "101" ]}))
                 empty_world = true) by (vm_compute; reflexivity).
  exact (proj1 (list_validation (list_request {[ "limit" := "101" ]}) empty_world
                  eq_refl Hw)).
Defined.

(** ** Walking the pages of a listing *)








(** ** A search of whitespace only *)

Lemma run_query_int_errors (f msg : string) (lo : Z) (hi : option Z) (r : Req) :
  let c := Chain.query f [Chain.optional; Chain.isInt lo hi msg] in
  errors (Chain.run c r) =
    (errors r ++ match query r !! f with
                 | Some s => if Chain.is_int lo hi s then [] else [mkFieldError f msg]
                 | None => []
                 end)%list.
Proof.
  intros c. unfold Chain.run, c, Chain.query. simpl.
  destruct (query r !! f) as [s|] eqn:E; simpl; [|by rewrite app_nil_r].
  rewrite bool_decide_eq_true_2 by done.
  by destruct (Chain.is_int lo hi s).
Qed.

Lemma run_query_search_errors (r : Req) :
  let c := Chain.query "search"
             [Chain.optional; Chain.trim;
              Chain.isLength 0 (Some 100) "Search query too long"] in
  errors (Chain.run c r) =
    (errors r ++ match query r !! "search" with
                 | Some s => if Chain.is_length 0 (Some 100) (Js.trim s) then []
                             else [mkFieldError "search" "Search query too long"]
                 | None => []
                 end)%list.
Proof.
  intros c. unfold Chain.run, c, Chain.query. simpl.
  destruct (query r !! "search") as [s|] eqn:E; simpl; [|by rewrite app_nil_r].
  destruct (Chain.is_length 0 (Some 100) (Js.trim s)); simpl;
    by case_bool_decide.
Qed.

(** The failures that the list validators report. *)
Lemma list_validators_errors (r : Req) :
  errors (Chain.run_all postValidators.list r) =
    (errors r
     ++ match query r !! "page" with
        | Some s => if Chain.is_int 1 None s then []
                    else [mkFieldError "page" "Page must be a positive integer"]
        | None => []
        end
     ++ match query r !! "limit" with
        | Some s => if Chain.is_int 1 (Some 100%Z) s then []
                    else [mkFieldError "limit" "Limit must be between 1 and 100"]
        | None => []
        end
     ++ match query r !! "search" with
        | Some s => if Chain.is_length 0 (Some 100) (Js.trim s) then []
                    else [mkFieldError "search" "Search query too long"]
        | None => []
        end)%list.
Proof.
  unfold Chain.run_all, postValidators.list. cbn [fold_left].
  pose proof (run_query_int "page" "Page must be a positive integer" 1 None r)
    as (Q1 & _).
  pose proof (run_query_int_errors "page" "Page must be a positive integer" 1 None r)
    as E1.
  cbv zeta in Q1, E1.
  set (r1 := Chain.run _ r) in *.
  pose proof (run_query_int "limit" "Limit must be between 1 and 100" 1
                (Some 100%Z) r1) as (Q2 & _).
  pose proof (run_query_int_errors "limit" "Limit must be between 1 and 100" 1
                (Some 100%Z) r1) as E2.
  cbv zeta in Q2, E2.
  set (r2 := Chain.run _ r1) in *.
  pose proof (run_query_search_errors r2) as E3. cbv zeta in E3.
  rewrite E3, E2, E1, Q2, Q1. by rewrite <- !app_assoc.
Qed.

(** The list handler reads four keys of the query, and of [search] only
    whether it is empty. *)
Lemma getPosts_ext (r1 r2 : Req) (w : World) :
  query r1 !! "page" = query r2 !! "page" →
  query r1 !! "limit" = query r2 !! "limit" →
  query r1 !! "sort" = query r2 !! "sort" →
  (query r1 !! "search" = query r2 !! "search"
   ∨ (Js.truthy_opt (query r1 !! "search") = false
      ∧ Js.truthy_opt (query r2 !! "search") = false)) →
  getPosts r1 w = getPosts r2 w.
Proof.
  intros Hp Hl Hs Hq. unfold getPosts. cbv zeta. rewrite Hp, Hl, Hs.
  destruct Hq as [->|[H1 H2]]; [done|].
  destruct (query r1 !! "search") as [s1|], (query r2 !! "search") as [s2|];
    cbn [Js.truthy_opt] in H1, H2; by rewrite ?H1, ?H2.
Qed.

(** X18: a [search] parameter of whitespace only is no search: the list
    request is answered, and leaves the world, exactly as the same request
    without the parameter. *)
Theorem blank_search (r : Req) (w : World) (s : string) :
  route r = GetPosts →
  query r !! "search" = Some s →
  Js.trim s = "" →
  app r w = app (set_query (delete "search" (query r)) r) w.
Proof.
  intros Hr Hs Ht.
  set (r2 := set_query (delete "search" (query r)) r).
  assert (Hr2 : route r2 = GetPosts) by exact Hr.
  rewrite (app_list_eq r w Hr), (app_list_eq r2 w Hr2). cbv zeta.
  change (ip r2) with (ip r).
  destruct (within apiLimiter (ip r) w); [|done].
  pose proof (list_validators_run (parse_body r)) as (Qp & Ql & Qs & Qq & _).
  pose proof (list_validators_run (parse_body r2)) as (Qp2 & Ql2 & Qs2 & Qq2 & _).
  cbv zeta in *. rewrite query_parse_body in *.
  assert (Hq2 : ∀ g, g ≠ "search" → query r2 !! g = query r !! g)
    by (intros g Hg; unfold r2; cbn [query set_query]; by rewrite lookup_delete_ne).
  assert (Hs2 : query r2 !! "search" = None)
    by (unfold r2; cbn [query set_query]; by rewrite lookup_delete_eq).
  rewrite !Hq2 in * by done. rewrite Hs2 in Qq2. rewrite Hs in Qq.
  cbn [fmap option_fmap option_map] in Qq, Qq2. rewrite Ht in Qq.
  assert (He : errors (Chain.run_all postValidators.list (parse_body r)) =
               errors (Chain.run_all postValidators.list (parse_body r2))).
  { rewrite !list_validators_errors, !errors_parse_body, !query_parse_body.
    rewrite !Hq2 by done. rewrite Hs, Hs2, Ht. reflexivity. }
  unfold validationFailed. rewrite He.
  destruct (errors (Chain.run_all postValidators.list (parse_body r2))); [|reflexivity]. f_equal.
  apply getPosts_ext; try congruence.
  right. by rewrite Qq, Qq2.
Qed.

Lemma blank_search_witness :
  app (list_request {[ "search" := "   " ]}) hello_world
  = app (list_request ∅) hello_world.
Proof.
  exact (blank_search (list_request {[ "search" := "   " ]}) hello_world "   "
           eq_refl eq_refl eq_refl).
Defined.

(** ** The items of a list response *)

Lemma select_sublist (f : Filter) (docs ds : list (string * Post)) :
  Mongoose.select f docs = Some ds → ds `sublist_of` docs.
Proof.
  revert ds. induction docs as [|d docs IH]; intros ds; cbn [Mongoose.select].
  - by intros [= <-].
  - destruct (Mongoose.matches f d.2) as [b|]; [|done]. cbn.
    destruct (Mongoose.select f docs) as [ds'|]; [|done]. cbn.
    intros [= <-]. destruct b; [apply sublist_skip | apply sublist_cons]; by apply IH.
Qed.

Lemma find_items (f : Filter) (s : string) (l k : Z) (w w' : World)
      (items : list (string * Post)) :
  Mongoose.find f s l k w = (Ok items, w') →
  posts w' = posts w
  ∧ ∃ ds, ds `sublist_of` map_to_list (posts w)
      ∧ items = take (Z.to_nat l)
                  (drop (Z.to_nat k) (Mongoose.sort_docs (Mongoose.sort_keys s) ds)).
Proof.
  unfold Mongoose.find, Mongoose.call.
  destruct w as [ps a h1 h2 h3 tr dbf cf].
  cbn [posts db_faults trace set_trace set_db_faults].
  destruct dbf as [|[] dbf]; try done;
    cbn [posts db_faults trace set_trace set_db_faults];
    destruct (Mongoose.select f (map_to_list ps)) as [ds|] eqn:E; try done;
    intros [= <- <-]; (split; [done|]); exists ds;
    (split; [by apply (select_sublist f) | done]).
Qed.

Lemma getPosts_items (r : Req) (w : World) (items : list (string * Post))
      (pg : Pagination) :
  json (answer (getPosts r w)).1 = JPosts items pg →
  ∃ ds, ds `sublist_of` map_to_list (posts w)
    ∧ items = take (Z.to_nat (Number (query r !! "limit") 10))
                (drop (Z.to_nat ((Number (query r !! "page") 1 - 1)
                                 * Number (query r !! "limit") 10))
                   (Mongoose.sort_docs
                      (Mongoose.sort_keys (default "-createdAt" (query r !! "sort")))
                      ds)).
Proof.
  unfold getPosts, try_catch, bind. cbv zeta.
  destruct (Mongoose.find _ _ _ _ w) as [[its|e] w1] eqn:Ef.
  - apply find_items in Ef as (_ & ds & Hds & ->).
    destruct (Mongoose.countDocuments _ w1) as [[n|e] w2]; cbn.
    + intros [= <- _]. by exists ds.
    + done.
  - cbn. done.
Qed.

Lemma compare_created (a b : string * Post) :
  Mongoose.compare_docs (Mongoose.sort_keys "-createdAt") a b =
    CompOpp (Z.compare (createdAt a.2) (createdAt b.2)).
Proof.
  change (Mongoose.sort_keys "-createdAt") with [("createdAt", true)].
  cbn [Mongoose.compare_docs].
  change (Mongoose.compare_path "createdAt" a b)
    with (Z.compare (createdAt a.2) (createdAt b.2)).
  by destruct (Z.compare _ _).
Qed.

Lemma insert_doc_newest (d : string * Post) (l : list (string * Post)) :
  StronglySorted (fun a b => createdAt b.2 ≤ createdAt a.2)%Z l →
  StronglySorted (fun a b => createdAt b.2 ≤ createdAt a.2)%Z
                 (Mongoose.insert_doc (Mongoose.sort_keys "-createdAt") d l).
Proof.
  induction l as [|x l IH]; intros Hl; cbn [Mongoose.insert_doc].
  - by repeat constructor.
  - rewrite compare_created.
    apply StronglySorted_inv in Hl as [Hl Hx].
    destruct (Z.compare_spec (createdAt d.2) (createdAt x.2)) as [He|Hlt|Hgt];
      cbn [CompOpp].
    + constructor; [by constructor|]. constructor; [lia|].
      eapply Forall_impl; [exact Hx|]. cbn. intros y Hy. lia.
    + constructor; [by apply IH|].
      rewrite (insert_doc_perm _ d l). constructor; [lia | done].
    + constructor; [by constructor|]. constructor; [lia|].
      eapply Forall_impl; [exact Hx|]. cbn. intros y Hy. lia.
Qed.

Lemma sort_docs_newest (l : list (string * Post)) :
  StronglySorted (fun a b => createdAt b.2 ≤ createdAt a.2)%Z
                 (Mongoose.sort_docs (Mongoose.sort_keys "-createdAt") l).
Proof.
  induction l as [|x l IH]; cbn [Mongoose.sort_docs foldr]; [constructor|].
  by apply insert_doc_newest.
Qed.

Lemma StronglySorted_sublist {A} (R : A → A → Prop) (l k : list A) :
  l `sublist_of` k → StronglySorted R k → StronglySorted R l.
Proof.
  induction 1 as [|x l k Hs IH|x l k Hs IH]; intros Hk; [done| |].
  - apply StronglySorted_inv in Hk as [Hk Hx]. constructor; [by apply IH|].
    rewrite Forall_forall in Hx. apply Forall_forall. intros y Hy.
    apply Hx. by apply (elem_of_sublist l).
  - apply StronglySorted_inv in Hk as [Hk _]. by apply IH.
Qed.

(** X19: the posts of a list response are stored posts, each at most
    once and at most [limit] of them, which is at most 100 (10 when no limit
    is sent); and when no [sort] is sent they come newest first, in the order
    of their creation times. *)
Theorem list_items (r : Req) (w : World) (items : list (string * Post))
        (pg : Pagination) :
  route r = GetPosts →
  json (app r w).1 = JPosts items pg →
  (∀ d, d ∈ items → posts w !! d.1 = Some d.2)
  ∧ NoDup items
  ∧ (Z.of_nat (length items) ≤ limit pg ≤ 100)%Z
  ∧ (query r !! "limit" = None → limit pg = 10%Z)
  ∧ (query r !! "sort" = None →
     StronglySorted (fun a b => createdAt b.2 ≤ createdAt a.2)%Z items).
Proof.
  intros Hr. rewrite (app_list_eq r w Hr). cbv zeta.
  destruct (within apiLimiter (ip r) w); [|done].
  pose proof (list_validators_run (parse_body r)) as (Qp & Ql & Qs & Qq & He).
  cbv zeta in *. rewrite errors_parse_body, query_parse_body in *.
  set (r' := Chain.run_all postValidators.list (parse_body r)) in *.
  destruct (errors r') eqn:E; [|done].
  destruct He as [He _]. specialize (He eq_refl) as [_ Hv].
  apply valid_list_query_bounds in Hv as [Hp HL].
  intros Hj.
  destruct (getPosts_items r' _ items pg Hj) as (ds & Hds & Hitems).
  rewrite (proj1 (charge_frame apiLimiter (ip r) w)) in Hds.
  rewrite Qp, Ql, Qs in Hitems.
  destruct (getPosts_shape r' (charge apiLimiter (ip r) w))
    as (resp & w' & Hg & [-> | (its & T & HT & ->)]);
    rewrite Hg in Hj; cbn [answer json fst] in Hj; [done|].
  injection Hj as -> <-. cbn [limit]. rewrite Ql.
  set (sorted := Mongoose.sort_docs _ ds) in *.
  assert (Hsub : items `sublist_of` sorted).
  { rewrite Hitems. etrans; [apply sublist_take | apply sublist_drop]. }
  assert (Hperm : sorted ≡ₚ ds) by apply sort_docs_perm.
  assert (Hnd : NoDup ds).
  { apply (sublist_NoDup ds (map_to_list (posts w))); [apply NoDup_map_to_list | done]. }
  split; [|split; [|split; [|split]]].
  - intros [k p] Hd. cbn [fst snd]. apply elem_of_map_to_list.
    apply (elem_of_sublist ds); [|done].
    rewrite <- Hperm. by apply (elem_of_sublist items).
  - apply (sublist_NoDup items sorted); [by rewrite Hperm | done].
  - split; [|lia]. rewrite Hitems, length_take. lia.
  - intros Hn. by rewrite Hn.
  - intros Hn. eapply StronglySorted_sublist; [exact Hsub|].
    unfold sorted. rewrite Hn. apply sort_docs_newest.
Qed.

Lemma list_items_witness :
  StronglySorted (fun a b => createdAt b.2 ≤ createdAt a.2)%Z
                 (page_of ∅ (matching ∅ (sample_world 3))).
Proof.
  assert (H : json (app (list_request ∅) (sample_world 3)).1
              = JPosts (page_of ∅ (matching ∅ (sample_world 3))) (block_of ∅ 3))
    by (vm_compute; reflexivity).
  destruct (list_items (list_request ∅) (sample_world 3) _ _ eq_refl H)
    as (_ & _ & _ & _ & Hs).
  exact (Hs eq_refl).
Defined.

(** ** The database connection *)

Lemma connect_spec (p : Process) :
  connects (connect p).2 = S (connects p)
  ∧ readyStates (connect p).2 = readyStates p
  ∧ outcomes (connect p).2 = tail (outcomes p)
  ∧ match (connect p).1 with
    | Ok c => cachedDb (connect p).2 = Some c ∧ reachable p
    | Thrown _ => cachedDb (connect p).2 = None ∧ ¬ reachable p
    end.
Proof.
  unfold connect, reachable.
  destruct (head (outcomes p)) as [[c|msg]|]; cbn; repeat split; auto.
Qed.

(** X20: [connectDB] keeps one connection for the process.  A call
    returns the cached connection without calling [mongoose.connect] exactly
    when there is one and it is connected ([readyState] 1); otherwise it
    calls [mongoose.connect] once.  After a call the cache holds the
    connection that was returned, and nothing when the call threw, so that
    the request after a failure connects again. *)
Theorem connection_cache (p : Process) :
  let res := (connectDB p).1 in
  let p' := (connectDB p).2 in
  let warm := match cachedDb p with
              | Some _ => Z.eqb (default 1%Z (head (readyStates p))) 1
              | None => false
              end in
  connects p' = (if warm then connects p else S (connects p))
  ∧ (warm = true → res = Ok (default (mkConnection "") (cachedDb p))
                   ∧ cachedDb p' = cachedDb p)
  ∧ match res with
    | Ok c => cachedDb p' = Some c
    | Thrown _ => cachedDb p' = None ∧ warm = false
    end.
Proof.
  unfold connectDB. destruct (cachedDb p) as [c|] eqn:Ec.
  - destruct (Z.eqb _ 1) eqn:Er; cbn [fst snd connects cachedDb].
    + done.
    + set (p1 := mkProcess _ _ _ _ _).
      destruct (connect_spec p1) as (Hc & _ & _ & Hres).
      split; [done|]. split; [done|].
      destruct (connect p1).1; by destruct Hres.
  - destruct (connect_spec p) as (Hc & _ & _ & Hres).
    split; [done|]. split; [done|].
    destruct (connect p).1; by destruct Hres.
Qed.





(** X22: when no connection is cached, or the cached one is not
    connected, and [mongoose.connect] fails, the request is answered with
    503 [Database connection failed], with the message of the error in
    development only; it does not reach the rate limiters or the routes:
    no hit is counted and no store is called.  The cache is left empty, and
    one call of [mongoose.connect] has been made. *)
Theorem database_unavailable (env : string) (r : Req) (p : Process) (w : World) :
  (cachedDb p = None ∨ default 1%Z (head (readyStates p)) ≠ 1%Z) →
  ¬ reachable p →
  let out := server env r (p, w) in
  status out.1 = 503
  ∧ (env ≠ "development" → json out.1 = JText "Database connection failed")
  ∧ (env = "development" →
     ∃ msg, head (outcomes p) = Some (inr msg)
       ∧ json out.1 = JError "Database connection failed" msg)
  ∧ out.2.2 = w
  ∧ cachedDb out.2.1 = None
  ∧ connects out.2.1 = S (connects p).
Proof.
  intros Hcold Hdown out.
  assert (Hc : ∃ p1, connectDB p = connect p1
                 ∧ outcomes p1 = outcomes p ∧ connects p1 = connects p).
  { unfold connectDB. destruct (cachedDb p) as [c|] eqn:Ec; [|by exists p].
    destruct Hcold as [?|Hst]; [done|].
    apply Z.eqb_neq in Hst. rewrite Hst. by eexists. }
  destruct Hc as (p1 & Hc & Ho & Hn).
  unfold out, server. cbn [fst snd]. rewrite Hc.
  unfold connect, reachable in *. rewrite Ho, Hn.
  destruct (head (outcomes p)) as [[c|msg]|]; cbn in Hdown; try done.
  cbv [default from_option id].
  cbn [fst snd status json unavailable cachedDb connects message].
  split; [done|]. split; [|split; [|done]].
  - intros Henv. by rewrite bool_decide_eq_false_2.
  - intros Henv. exists msg. by rewrite bool_decide_eq_true_2.
Qed.

Lemma database_unavailable_witness :
  status (server "production" (list_request ∅)
            (mkProcess None 0 [] [] [inr "getaddrinfo ENOTFOUND"], empty_world)).1
  = 503.
Proof.
  assert (H : ¬ reachable (mkProcess None 0 [] [] [inr "getaddrinfo ENOTFOUND"]))
    by (intros H; exact H).
  exact (proj1 (database_unavailable "production" (list_request ∅)
                  (mkProcess None 0 [] [] [inr "getaddrinfo ENOTFOUND"])
                  empty_world (or_introl eq_refl) H)).
Defined.

(** ** Status codes *)












(** ** The budgets of the upload and the authentication limiter *)

(** X24: once an address has used up the 50 hits of the upload limiter,
    each further creation or update request from it that passes the general
    limiter and the authorization check is answered with 429 and the
    message of the upload limiter before the multipart stage runs: nothing is
    uploaded, no store is called, and only the two hit counters change. *)
Theorem upload_budget (r : Req) (w : World) :
  route r = PostPost ∨ route r = PutPost →
  is_Some (identity r) →
  within apiLimiter (ip r) w = true →
  (50 ≤ default 0 (hits Upload w !! ip r))%nat →
  app r w =
    (mkResponse 429 (JText "Too many uploads, please try again later"),
     charge uploadLimiter (ip r) (charge apiLimiter (ip r) w)).
Proof.
  intros Hr [u Hu] Hw Hn.
  rewrite app_posts_eq by (by destruct Hr as [->| ->]). rewrite Hw.
  assert (Hout : within uploadLimiter (ip r) (charge apiLimiter (ip r) w) = false).
  { rewrite within_charge_other by done. unfold within. apply Nat.leb_gt.
    cbn [store uploadLimiter hits max] in *. lia. }
  destruct Hr as [->| ->]; unfold router;
    by rewrite pipeline_guarded, identity_parse_body, Hu, ip_parse_body, Hout.
Qed.

Lemma upload_budget_witness :
  status (app (post_request (sample_fields "Hello World" "A description long enough")
                            (Some sample_image))
              (set_hits Upload {[ "203.0.113.7" := 50 ]} empty_world)).1 = 429.
Proof.
  set (r := post_request (sample_fields "Hello World" "A description long enough")
                         (Some sample_image)).
  set (w := set_hits Upload {[ "203.0.113.7" := 50 ]} empty_world).
  assert (H1 : within apiLimiter (ip r) w = true) by (vm_compute; reflexivity).
  assert (H2 : (50 ≤ default 0 (hits Upload w !! ip r))%nat) by (vm_compute; lia).
  pose proof (upload_budget r w (or_introl eq_refl) (ex_intro _ "author" eq_refl)
                H1 H2) as H.
  rewrite H. reflexivity.
Defined.

Lemma auth_hits_app (r : Req) (w : World) :
  hits Authentication (app r w).2 =
    match route r with
    | AuthRoutes => <[ip r := S (auth_count (ip r) w)]> (hits Authentication w)
    | _ => hits Authentication w
    end.
Proof.
  assert (Hp : route r ≠ AuthRoutes →
               hits Authentication (app r w).2 = hits Authentication w).
  { intros Hr. rewrite (app_posts_eq r w Hr).
    destruct (within apiLimiter (ip r) w); cbn [fst snd];
      rewrite ?router_same_hits by done;
      by rewrite (hits_charge_other apiLimiter). }
  destruct (route r) eqn:Hr; try (by apply Hp).
  rewrite (app_auth_eq r w Hr).
  destruct (within authLimiter (ip r) w); cbn [fst snd];
    by rewrite (hits_charge_same authLimiter).
Qed.

Lemma auth_count_app (a : string) (r : Req) (w : World) :
  auth_count a (app r w).2 = (auth_count a w + if to_auth a r then 1 else 0)%nat.
Proof.
  unfold auth_count at 1. rewrite auth_hits_app. unfold to_auth.
  destruct (decide (ip r = a)) as [->|Ha].
  - rewrite bool_decide_eq_true_2 by done.
    destruct (route r); rewrite ?lookup_insert_eq; unfold auth_count; cbn; lia.
  - rewrite bool_decide_eq_false_2 by done.
    destruct (route r); rewrite ?lookup_insert_ne by done;
      unfold auth_count; cbn; lia.
Qed.

Lemma auth_count_serve (a : string) (rs : list Req) (w : World) :
  auth_count a (serve rs w) =
    (auth_count a w + length (List.filter (to_auth a) rs))%nat.
Proof.
  revert w. induction rs as [|r rs IH]; intros w; [cbn; lia|].
  cbn [serve fold_left List.filter]. fold (serve rs (app r w).2).
  rewrite IH, auth_count_app. destruct (to_auth a r); cbn [length]; lia.
Qed.

(** X25: the authentication limiter counts, for each client address, the
    requests to the authentication routes and no others.  Once an address
    has made 20 of them, every further request from it to these routes is
    answered with 429 and the limiter's message before it reaches the
    router, and changes nothing but that counter. *)
Theorem auth_budget (rs : list Req) (r : Req) (w : World) :
  route r = AuthRoutes →
  (20 ≤ auth_count (ip r) w + length (List.filter (to_auth (ip r)) rs))%nat →
  auth_count (ip r) (serve rs w) =
    (auth_count (ip r) w + length (List.filter (to_auth (ip r)) rs))%nat
  ∧ app r (serve rs w) =
      (mkResponse 429
         (JText "Too many authentication attempts, please try again later"),
       charge authLimiter (ip r) (serve rs w)).
Proof.
  intros Hr Hn. split; [apply auth_count_serve|].
  rewrite app_auth_eq by done.
  assert (within authLimiter (ip r) (serve rs w) = false) as ->; [|done].
  unfold within. apply Nat.leb_gt.
  pose proof (auth_count_serve (ip r) rs w) as Hc.
  unfold auth_count in *. cbn [store authLimiter hits max] in *. lia.
Qed.

Lemma auth_budget_witness :
  status (app (auth_request "203.0.113.7")
              (serve (replicate 20 (auth_request "203.0.113.7")) empty_world)).1
  = 429.
Proof.
  assert (Hn : (20 ≤ auth_count (ip (auth_request "203.0.113.7")) empty_world
                + length (List.filter (to_auth (ip (auth_request "203.0.113.7")))
                            (replicate 20 (auth_request "203.0.113.7"))))%nat)
    by (vm_compute; lia).
  destruct (auth_budget (replicate 20 (auth_request "203.0.113.7"))
              (auth_request "203.0.113.7") empty_world eq_refl Hn) as [_ H].
  rewrite H. reflexivity.
Defined.
